(** * wordpress-to-md: the export reader and the markup transformer of convert.py

    A shallow embedding of [convert.py]: Python text is a list of Unicode
    code points, the [re] patterns of the source are terms of a small
    backtracking regular-expression language executed with Python's
    priorities (leftmost match, greedy and lazy repetition, numbered groups),
    the ElementTree document is a rose tree of elements, and the filter sets
    are finite sets. *)

From Stdlib Require Import List NArith String Ascii Bool Arith Lia.
From stdpp Require Import gmap.
Import ListNotations.

Set Warnings "-register-all".

Local Open Scope list_scope.
Local Open Scope nat_scope.

(** ** Python text *)

(** A Python [str] is a sequence of code points. *)
Abbreviation char := N (only parsing).
Abbreviation str := (list N) (only parsing).

(** [u "abc"] is the Python literal ['abc'] (ASCII literals only). *)
Fixpoint u (s : string) : str :=
  match s with
  | EmptyString => []
  | String a s' => N_of_ascii a :: u s'
  end.
Arguments u : simpl never.

Definition c_tab : char := 9%N.
Definition c_nl : char := 10%N.
Definition c_ff : char := 12%N.
Definition c_space : char := 32%N.
Definition c_quot : char := 34%N.      (* the double quote *)
Definition c_hash : char := 35%N.
Definition c_amp : char := 38%N.
Definition c_apos : char := 39%N.      (* the single quote *)
Definition c_hyphen : char := 45%N.
Definition c_slash : char := 47%N.
Definition c_semi : char := 59%N.
Definition c_lt : char := 60%N.
Definition c_gt : char := 62%N.
Definition c_underscore : char := 95%N.

Definition is_chr (c : char) : char -> bool := N.eqb c.
Definition between (lo hi : N) (c : char) : bool := (lo <=? c)%N && (c <=? hi)%N.
Definition is_ascii (c : char) : bool := (c <? 128)%N.
Definition is_upper_ascii : char -> bool := between 65 90.
Definition is_lower_ascii : char -> bool := between 97 122.
Definition is_digit : char -> bool := between 48 57.
Definition is_letter_ascii (c : char) : bool := is_upper_ascii c || is_lower_ascii c.
Definition lower_ascii (c : char) : char := if is_upper_ascii c then (c + 32)%N else c.

(** The part of the Unicode character database that the interpreter consults
    for code points outside ASCII, and the dictionary of HTML 5 named
    character references of [html.entities]: data of the Python runtime, taken
    as parameters. *)
Class Runtime := {
  (** [str.isalnum] on a code point above 127. *)
  uni_isalnum : char -> bool;
  (** [str.lower] on a text that has a code point above 127. *)
  uni_lower : str -> str;
  (** whether a code point above 127 matches an ASCII letter of a pattern
      under [re.IGNORECASE]. *)
  uni_ignorecase : char -> char -> bool;
  (** [html.entities.html5], as the lookup of a name. *)
  html5 : str -> option str
}.

(** [str.isspace] of one code point, which is also the class [\s] of a [str]
    pattern. *)
Definition is_space (c : char) : bool :=
  between 9 13 c || between 28 32 c || is_chr 133%N c || is_chr 160%N c || is_chr 5760%N c
  || between 8192 8202 c || is_chr 8232%N c || is_chr 8233%N c || is_chr 8239%N c
  || is_chr 8287%N c || is_chr 12288%N c.

(** [str.isalnum] of one code point: a letter or a digit. *)
Definition is_alnum `{Runtime} (c : char) : bool :=
  if is_ascii c then is_letter_ascii c || is_digit c else uni_isalnum c.

(** The class [\w] of a [str] pattern: alphanumerics and the underscore. *)
Definition is_word `{Runtime} (c : char) : bool :=
  is_alnum c || is_chr c_underscore c.

(** [s.lower()]. *)
Definition lower `{Runtime} (s : str) : str :=
  if forallb is_ascii s then map lower_ascii s else uni_lower s.

Definition str_eqb (a b : str) : bool := if decide (a = b) then true else false.

(** [s.startswith(p)]. *)
Fixpoint startswith (p s : str) : bool :=
  match p, s with
  | [], _ => true
  | a :: p', b :: s' => N.eqb a b && startswith p' s'
  | _ :: _, [] => false
  end.

(** [p in s] on text. *)
Fixpoint contains (p s : str) : bool :=
  startswith p s || match s with [] => false | _ :: s' => contains p s' end.

Fixpoint dropwhile (p : char -> bool) (s : str) : str :=
  match s with
  | c :: s' => if p c then dropwhile p s' else s
  | [] => []
  end.

(** [s.lstrip(chars)], [s.rstrip(chars)], [s.strip(chars)], with the
    characters to strip given as a class. *)
Definition lstrip (p : char -> bool) (s : str) : str := dropwhile p s.
Definition rstrip (p : char -> bool) (s : str) : str := rev (dropwhile p (rev s)).
Definition strip (p : char -> bool) (s : str) : str := rstrip p (lstrip p s).

(** [s.replace(old, new)]: the occurrences of [old] are found from left to
    right without overlap; [skip] counts the characters of the occurrence
    being replaced that are still to be passed over. *)
Fixpoint replace_loop (old new s : str) (skip : nat) : str :=
  match s with
  | [] => match skip with
          | 0 => if startswith old [] then new else []
          | S _ => []
          end
  | c :: s' =>
      match skip with
      | S n => replace_loop old new s' n
      | 0 => if startswith old s
             then new ++ match length old with
                         | 0 => c :: replace_loop old new s' 0
                         | S n => replace_loop old new s' n
                         end
             else c :: replace_loop old new s' 0
      end
  end.

Definition replace (old new s : str) : str := replace_loop old new s 0.

(** [sep.join(parts)]. *)
Fixpoint join (sep : str) (parts : list str) : str :=
  match parts with
  | [] => []
  | [p] => p
  | p :: rest => p ++ sep ++ join sep rest
  end.

(** [str(n)] for a natural number: its decimal digits. *)
Fixpoint digits_fuel (fuel : nat) (n : N) (acc : str) : str :=
  match fuel with
  | 0 => acc
  | S f => let acc' := (48 + n mod 10)%N :: acc in
           if (n <? 10)%N then acc' else digits_fuel f (n / 10)%N acc'
  end.
Definition str_of_nat (n : nat) : str :=
  digits_fuel (S n) (N.of_nat n) [].

(** ** Regular expressions, as [re] runs them *)

(** The pattern language of the source: single characters and classes,
    repetition of a class (greedy or lazy, with bounds), sequence,
    alternation and numbered groups. *)
Inductive regex :=
| Eps
| Chr (p : char -> bool)
| Rep (greedy : bool) (lo : nat) (hi : option nat) (p : char -> bool)
| Cat (r1 r2 : regex)
| Alt (r1 r2 : regex)
| Grp (n : nat) (r : regex).

(** Spans of the groups, as offsets from the start of the match. *)
Definition captures := list (nat * (nat * nat)).

Definition orelse {R} (a : option R) (b : unit -> option R) : option R :=
  match a with Some x => Some x | None => b tt end.

(** Repetition of the class [p], at least [lo] and at most [hi] times. A greedy
    repetition first tries one more character and gives it back when the rest
    of the pattern fails; a lazy one first tries the rest of the pattern. *)
Fixpoint rep {R} (greedy : bool) (p : char -> bool) (lo : nat) (hi : option nat)
    (s : str) (pos : nat) (k : str -> nat -> option R) : option R :=
  let stop := fun _ : unit => match lo with 0 => k s pos | S _ => None end in
  let more := fun _ : unit =>
    match s with
    | c :: s' =>
        match hi with
        | Some 0 => None
        | _ => if p c
               then rep greedy p (pred lo) (option_map pred hi) s' (S pos) k
               else None
        end
    | [] => None
    end in
  if greedy then orelse (more tt) stop else orelse (stop tt) more.

(** The backtracking matcher, in continuation-passing style: [k] is the rest
    of the pattern. [pos] is the number of characters consumed so far. *)
Fixpoint exec {R} (r : regex) (s : str) (pos : nat) (caps : captures)
    (k : str -> nat -> captures -> option R) : option R :=
  match r with
  | Eps => k s pos caps
  | Chr p => match s with
             | c :: s' => if p c then k s' (S pos) caps else None
             | [] => None
             end
  | Rep g lo hi p => rep g p lo hi s pos (fun s' pos' => k s' pos' caps)
  | Cat r1 r2 => exec r1 s pos caps (fun s' pos' caps' => exec r2 s' pos' caps' k)
  | Alt r1 r2 => orelse (exec r1 s pos caps k) (fun _ => exec r2 s pos caps k)
  | Grp n r' => exec r' s pos caps
                  (fun s' pos' caps' => k s' pos' ((n, (pos, pos')) :: caps'))
  end.

(** A match object: the text from the start of the match on, the length of
    the match and the spans of its groups. *)
Record Match := mkMatch { m_subject : str; m_len : nat; m_caps : captures }.

(** [pattern.match] at the start of [s]. *)
Definition match_at (r : regex) (s : str) : option Match :=
  exec r s 0 [] (fun _ pos caps => Some (mkMatch s pos caps)).

Fixpoint span_of (n : nat) (caps : captures) : option (nat * nat) :=
  match caps with
  | [] => None
  | (i, sp) :: rest => if Nat.eqb i n then Some sp else span_of n rest
  end.

(** [m.group(n)]; group 0 is the whole match. *)
Definition group (m : Match) (n : nat) : str :=
  match n with
  | 0 => firstn (m_len m) (m_subject m)
  | _ => match span_of n (m_caps m) with
         | Some (a, b) => firstn (b - a) (skipn a (m_subject m))
         | None => []
         end
  end.

(** [re.sub(pattern, repl, s)] with a function [repl]: the text is scanned
    from left to right, the leftmost match at each position is replaced and
    the scan goes on behind it. [skip] counts the characters of the current
    match still to be passed over. *)
Fixpoint sub_loop (r : regex) (repl : Match -> str) (s : str) (skip : nat) : str :=
  match s with
  | [] => match skip with
          | 0 => match match_at r [] with Some m => repl m | None => [] end
          | S _ => []
          end
  | c :: s' =>
      match skip with
      | S n => sub_loop r repl s' n
      | 0 => match match_at r s with
             | Some m => repl m ++ match m_len m with
                                   | 0 => c :: sub_loop r repl s' 0
                                   | S n => sub_loop r repl s' n
                                   end
             | None => c :: sub_loop r repl s' 0
             end
      end
  end.

Definition re_sub_fn (r : regex) (repl : Match -> str) (s : str) : str :=
  sub_loop r repl s 0.

(** A replacement template: literal text and group references [\n]. *)
Inductive titem := TLit (t : str) | TGrp (n : nat).

Definition expand (tpl : list titem) (m : Match) : str :=
  flat_map (fun it => match it with TLit t => t | TGrp n => group m n end) tpl.

(** [re.sub(pattern, template, s)]. *)
Definition re_sub (r : regex) (tpl : list titem) (s : str) : str :=
  re_sub_fn r (expand tpl) s.

(** [re.findall(pattern, s)] for a pattern with one group: the texts of
    group 1 of the successive matches. *)
Fixpoint findall_loop (r : regex) (s : str) (skip : nat) : list str :=
  match s with
  | [] => match skip with
          | 0 => match match_at r [] with Some m => [group m 1] | None => [] end
          | S _ => []
          end
  | c :: s' =>
      match skip with
      | S n => findall_loop r s' n
      | 0 => match match_at r s with
             | Some m => group m 1 :: findall_loop r s' (pred (m_len m))
             | None => findall_loop r s' 0
             end
      end
  end.

Definition re_findall (r : regex) (s : str) : list str := findall_loop r s 0.

(** [re.sub] with a replacement function that updates a variable of the
    enclosing scope (the closures [_save_iframe] and [_save_script]): the
    state is threaded through the successive calls. *)
Fixpoint sub_loop_st {St} (r : regex) (repl : Match -> St -> str * St)
    (s : str) (skip : nat) (st : St) : str * St :=
  match s with
  | [] => match skip with
          | 0 => match match_at r [] with Some m => repl m st | None => ([], st) end
          | S _ => ([], st)
          end
  | c :: s' =>
      match skip with
      | S n => sub_loop_st r repl s' n st
      | 0 => match match_at r s with
             | Some m =>
                 let (out, st1) := repl m st in
                 let (rest, st2) := match m_len m with
                                    | 0 => let (t, st') := sub_loop_st r repl s' 0 st1 in
                                           (c :: t, st')
                                    | S n => sub_loop_st r repl s' n st1
                                    end in
                 (out ++ rest, st2)
             | None => let (t, st') := sub_loop_st r repl s' 0 st in (c :: t, st')
             end
      end
  end.

Definition re_sub_st {St} (r : regex) (repl : Match -> St -> str * St)
    (s : str) (st : St) : str * St :=
  sub_loop_st r repl s 0 st.

(** *** Pattern combinators *)

Definition any : char -> bool := fun _ => true.
Definition not_chr (c : char) : char -> bool := fun d => negb (N.eqb c d).
Definition one_of (cs : str) : char -> bool := fun d => existsb (N.eqb d) cs.
Definition none_of (cs : str) : char -> bool := fun d => negb (existsb (N.eqb d) cs).

Definition seq_re (rs : list regex) : regex := fold_right Cat Eps rs.

(** Literal text. *)
Definition lit (t : str) : regex := seq_re (map (fun c => Chr (is_chr c)) t).

(** One literal character under [re.IGNORECASE]: a cased character matches
    the characters with the same lower case. *)
Definition chr_i `{Runtime} (c : char) : char -> bool :=
  fun d => if is_letter_ascii c
           then if is_ascii d then N.eqb (lower_ascii d) (lower_ascii c)
                else uni_ignorecase c d
           else N.eqb c d.

(** Literal text under [re.IGNORECASE]. *)
Definition lit_i `{Runtime} (t : str) : regex := seq_re (map (fun c => Chr (chr_i c)) t).

Definition star (p : char -> bool) : regex := Rep true 0 None p.        (* p*   *)
Definition lazy_star (p : char -> bool) : regex := Rep false 0 None p.  (* p*?  *)
Definition plus (p : char -> bool) : regex := Rep true 1 None p.        (* p+   *)
Definition opt (p : char -> bool) : regex := Rep true 0 (Some 1) p.     (* p?   *)

(** ** html.unescape, of the standard library *)

(** [_invalid_charrefs] of the module [html]. *)
Definition invalid_charrefs : list (N * N) :=
  [ (0x00, 0xfffd); (0x0d, 0x0d); (0x80, 0x20ac); (0x81, 0x81); (0x82, 0x201a);
    (0x83, 0x0192); (0x84, 0x201e); (0x85, 0x2026); (0x86, 0x2020); (0x87, 0x2021);
    (0x88, 0x02c6); (0x89, 0x2030); (0x8a, 0x0160); (0x8b, 0x2039); (0x8c, 0x0152);
    (0x8d, 0x8d); (0x8e, 0x017d); (0x8f, 0x8f); (0x90, 0x90); (0x91, 0x2018);
    (0x92, 0x2019); (0x93, 0x201c); (0x94, 0x201d); (0x95, 0x2022); (0x96, 0x2013);
    (0x97, 0x2014); (0x98, 0x02dc); (0x99, 0x2122); (0x9a, 0x0161); (0x9b, 0x203a);
    (0x9c, 0x0153); (0x9d, 0x9d); (0x9e, 0x017e); (0x9f, 0x0178) ]%N.

(** [_invalid_codepoints] of the module [html], by its ranges; the last one
    is the two final code points of each of the seventeen planes. *)
Definition invalid_codepoint (n : N) : bool :=
  between 0x1 0x8 n || between 0xe 0x1f n || between 0x7f 0x9f n
  || between 0xfdd0 0xfdef n || is_chr 0xb%N n
  || ((0xfffe <=? n mod 0x10000)%N && (n <=? 0x10ffff)%N).

Definition is_hex (c : char) : bool :=
  is_digit c || between 97 102 c || between 65 70 c.

Definition digit_value (c : char) : N :=
  if is_digit c then (c - 48)%N
  else if between 97 102 c then (c - 87)%N
  else (c - 55)%N.

(** [int(s, base)] on a text of digits of that base (the interpreter's limit
    on the number of decimal digits is not modelled). *)
Definition parse_int (base : N) (s : str) : N :=
  fold_left (fun acc c => (acc * base + digit_value c)%N) s 0%N.

(** [_charref]:
    [&(#[0-9]+;?|#[xX][0-9a-fA-F]+;?|[^\t\n\f <&#;]{1,32};?)] *)
Definition charref_re : regex :=
  Cat (Chr (is_chr c_amp))
    (Grp 1
       (Alt (seq_re [Chr (is_chr c_hash); plus is_digit; opt (is_chr c_semi)])
       (Alt (seq_re [Chr (is_chr c_hash); Chr (one_of (u "xX")); plus is_hex;
                     opt (is_chr c_semi)])
            (seq_re [Rep true 1 (Some 32)
                       (none_of [c_tab; c_nl; c_ff; c_space; c_lt; c_amp; c_hash; c_semi]);
                     opt (is_chr c_semi)])))).

(** The loop [for x in range(len(s)-1, 1, -1)] of [_replace_charref], which
    looks for the longest prefix of [s] that is a known name. *)
Fixpoint longest_name `{Runtime} (s : str) (x : nat) : str :=
  match x with
  | 0 => c_amp :: s
  | S x' => if x <=? 1 then c_amp :: s
            else match html5 (firstn x s) with
                 | Some v => v ++ skipn x s
                 | None => longest_name s x'
                 end
  end.

Definition assoc (n : N) (t : list (N * N)) : option N :=
  option_map snd (find (fun kv => N.eqb (fst kv) n) t).

(** [_replace_charref]. *)
Definition replace_charref `{Runtime} (m : Match) : str :=
  let s := group m 1 in
  match s with
  | c0 :: s1 =>
      if N.eqb c0 c_hash then
        let num := match s1 with
                   | c1 :: s2 => if one_of (u "xX") c1
                                 then parse_int 16 (rstrip (is_chr c_semi) s2)
                                 else parse_int 10 (rstrip (is_chr c_semi) s1)
                   | [] => 0%N
                   end in
        match assoc num invalid_charrefs with
        | Some v => [v]
        | None =>
            if between 0xD800 0xDFFF num || (0x10FFFF <? num)%N then [0xFFFD%N]
            else if invalid_codepoint num then []
            else [num]
        end
      else
        match html5 s with
        | Some v => v
        | None => longest_name s (length s - 1)
        end
  | [] => [c_amp]
  end.

(** [html.unescape]. *)
Definition unescape `{Runtime} (s : str) : str :=
  if negb (contains [c_amp] s) then s
  else re_sub_fn charref_re replace_charref s.

(** ** html_to_markdown *)

Section Transformer.
Context `{Runtime}.

(** The shape [<name[^>]*>(.*?)</name>] shared by the block and inline
    rules, always compiled with [re.DOTALL]. *)
Definition element_re (name : str) : regex :=
  seq_re [lit (c_lt :: name); star (not_chr c_gt); lit [c_gt];
          Grp 1 (lazy_star any);
          lit (c_lt :: c_slash :: name ++ [c_gt])].

(** One round of the loop over the heading levels. *)
Definition heading (content : str) (level : nat) : str :=
  let tag := u "h" ++ str_of_nat level in
  let prefix := repeat c_hash level in
  re_sub (element_re tag) [TLit (prefix ++ [c_space]); TGrp 1] content.

Definition _convert_blockquote (m : Match) : str :=
  let inner := replace [c_nl] (c_nl :: u "> ") (strip is_space (group m 1)) in
  c_nl :: u "> " ++ inner ++ [c_nl].

Definition li_re : regex := element_re (u "li").

(** [enumerate(items)]. *)
Definition enumerate {A} (l : list A) : list (nat * A) := combine (seq 0 (length l)) l.

Definition _convert_ol (m : Match) : str :=
  let items := re_findall li_re (group m 1) in
  [c_nl] ++ join [c_nl]
              (map (fun '(i, item) => str_of_nat (i + 1) ++ u ". " ++ strip is_space item)
                   (enumerate items))
         ++ [c_nl].

Definition _convert_ul (m : Match) : str :=
  let items := re_findall li_re (group m 1) in
  [c_nl] ++ join [c_nl] (map (fun item => u "- " ++ strip is_space item) items) ++ [c_nl].

(** The classes of the two quote characters and of all the others, written
    [Q] and [^Q] in the patterns quoted below. *)
Definition quote : char -> bool := one_of [c_quot; c_apos].
Definition not_quote : char -> bool := none_of [c_quot; c_apos].

(** [<a[^>]*href=Q([^Q]* )Q[^>]*>(.*?)</a>], with [re.DOTALL]. *)
Definition link_re : regex :=
  seq_re [lit (u "<a"); star (not_chr c_gt); lit (u "href="); Chr quote;
          Grp 1 (star not_quote); Chr quote; star (not_chr c_gt); lit (u ">");
          Grp 2 (lazy_star any); lit (u "</a>")].

(** [<img[^>]*src=Q([^Q]* )Q[^>]*alt=Q([^Q]* )Q[^>]*/?>] *)
Definition img_alt_re : regex :=
  seq_re [lit (u "<img"); star (not_chr c_gt); lit (u "src="); Chr quote;
          Grp 1 (star not_quote); Chr quote; star (not_chr c_gt);
          lit (u "alt="); Chr quote; Grp 2 (star not_quote); Chr quote;
          star (not_chr c_gt); opt (is_chr c_slash); lit (u ">")].

(** [<img[^>]*src=Q([^Q]* )Q[^>]*/?>] *)
Definition img_re : regex :=
  seq_re [lit (u "<img"); star (not_chr c_gt); lit (u "src="); Chr quote;
          Grp 1 (star not_quote); Chr quote; star (not_chr c_gt);
          opt (is_chr c_slash); lit (u ">")].

(** [<br\s*/?>] *)
Definition br_re : regex :=
  seq_re [lit (u "<br"); star is_space; opt (is_chr c_slash); lit (u ">")].

(** [<iframe[^>]*>.*?</iframe>] and [<script[^>]*>.*?</script>], with
    [re.DOTALL | re.IGNORECASE]. *)
Definition embed_re (name : str) : regex :=
  seq_re [lit_i (c_lt :: name); star (not_chr c_gt); lit_i [c_gt];
          lazy_star any; lit_i (c_lt :: c_slash :: name ++ [c_gt])].

(** The marker [___IFRAME_{i}___] or [___SCRIPT_{i}___]. *)
Definition marker (kind : str) (i : nat) : str :=
  u "___" ++ kind ++ u "_" ++ str_of_nat i ++ u "___".

(** [_save_iframe] and [_save_script]: the block is appended to the list and
    the marker carries its index. *)
Definition _save (kind : str) (m : Match) (saved : list str) : str * list str :=
  let saved' := saved ++ [group m 0] in
  (marker kind (length saved' - 1), saved').

(** [<[^>]+>] *)
Definition tag_re : regex := seq_re [lit (u "<"); plus (not_chr c_gt); lit (u ">")].

(** The loops that put the saved blocks back. *)
Definition restore (kind : str) (saved : list str) (content : str) : str :=
  fold_left (fun content '(i, block) =>
               replace (marker kind i) ([c_nl; c_nl] ++ block ++ [c_nl; c_nl]) content)
            (enumerate saved) content.

(** [\n{3,}] *)
Definition newlines_re : regex := Rep true 3 None (is_chr c_nl).

Definition html_to_markdown (html_content : str) : str :=
  match html_content with
  | [] => []
  | _ =>
    let content := unescape html_content in
    (* Remove CDATA wrappers *)
    let content := replace (u "]]>") [] (replace (u "<![CDATA[") [] content) in
    (* Headings *)
    let content := fold_left heading (seq 1 6) content in
    (* Blockquotes *)
    let content := re_sub_fn (element_re (u "blockquote")) _convert_blockquote content in
    (* Ordered and unordered lists *)
    let content := re_sub_fn (element_re (u "ol")) _convert_ol content in
    let content := re_sub_fn (element_re (u "ul")) _convert_ul content in
    (* Bold *)
    let content := re_sub (element_re (u "strong")) [TLit (u "**"); TGrp 1; TLit (u "**")] content in
    let content := re_sub (element_re (u "b")) [TLit (u "**"); TGrp 1; TLit (u "**")] content in
    (* Italic *)
    let content := re_sub (element_re (u "em")) [TLit (u "*"); TGrp 1; TLit (u "*")] content in
    let content := re_sub (element_re (u "i")) [TLit (u "*"); TGrp 1; TLit (u "*")] content in
    (* Links *)
    let content := re_sub link_re [TLit (u "["); TGrp 2; TLit (u "]("); TGrp 1; TLit (u ")")] content in
    (* Images (with and without alt text) *)
    let content := re_sub img_alt_re [TLit (u "!["); TGrp 2; TLit (u "]("); TGrp 1; TLit (u ")")] content in
    let content := re_sub img_re [TLit (u "![]("); TGrp 1; TLit (u ")")] content in
    (* Line breaks *)
    let content := re_sub br_re [TLit [c_nl]] content in
    (* Paragraphs *)
    let content := re_sub (element_re (u "p")) [TGrp 1; TLit [c_nl; c_nl]] content in
    (* Preserve embedded elements *)
    let '(content, iframes) := re_sub_st (embed_re (u "iframe")) (_save (u "IFRAME")) content [] in
    let '(content, scripts) := re_sub_st (embed_re (u "script")) (_save (u "SCRIPT")) content [] in
    (* Strip remaining HTML tags *)
    let content := re_sub tag_re [] content in
    (* Restore preserved elements *)
    let content := restore (u "IFRAME") iframes content in
    let content := restore (u "SCRIPT") scripts content in
    (* Clean up whitespace and residual entities *)
    let content := re_sub newlines_re [TLit [c_nl; c_nl]] content in
    let content := replace (u "&nbsp;") (u " ") content in
    let content := replace (u "&amp;") (u "&") content in
    let content := replace (u "&quot;") [c_quot] content in
    let content := replace (u "&lt;") (u "<") content in
    let content := replace (u "&gt;") (u ">") content in
    strip is_space content
  end.

End Transformer.

(** ** sanitize_filename *)

Section Helpers.
Context `{Runtime}.

(** [[^\w\s-]] and [[-\s]+] *)
Definition unsafe_re : regex :=
  Chr (fun c => negb (is_word c || is_space c || is_chr c_hyphen c)).
Definition separators_re : regex :=
  plus (fun c => is_chr c_hyphen c || is_space c).

Definition sanitize_filename (title : str) : str :=
  let slug := re_sub unsafe_re [] (lower title) in
  let slug := re_sub separators_re [TLit (u "-")] slug in
  strip (is_chr c_hyphen) slug.

End Helpers.

(** ** The export reader *)

(** An [xml.etree.ElementTree.Element]: its tag (a qualified name is written
    [{uri}local]), its attributes, its text ([None] when the element has no
    text) and its children in document order. *)
Inductive Element :=
  mkElement (tag : str) (attrib : gmap str str) (text : option str)
            (children : list Element).

Definition tag (e : Element) : str := let '(mkElement t _ _ _) := e in t.
Definition attrib (e : Element) : gmap str str := let '(mkElement _ a _ _) := e in a.
Definition text (e : Element) : option str := let '(mkElement _ _ t _) := e in t.
Definition children (e : Element) : list Element := let '(mkElement _ _ _ c) := e in c.

(** [e.iter()]: the element and all its descendants, in document order. *)
Fixpoint iter (e : Element) : list Element :=
  let '(mkElement _ _ _ cs) := e in
  e :: (fix iter_all (l : list Element) : list Element :=
          match l with
          | [] => []
          | c :: l' => iter c ++ iter_all l'
          end) cs.

(** The elements below [e], on all levels, in document order. *)
Definition descendants (e : Element) : list Element := flat_map iter (children e).

Definition has_tag (t : str) (e : Element) : bool := str_eqb (tag e) t.

(** [e.find(t)] and [e.findall(t)] for a path that is one tag, as are all
    the paths of the source: the children of [e] with that tag. *)
Definition find_child (t : str) (e : Element) : option Element :=
  find (has_tag t) (children e).
Definition findall_child (t : str) (e : Element) : list Element :=
  List.filter (has_tag t) (children e).

(** [e.find('.//' + t)] and [e.findall('.//' + t)]: the descendants of [e]
    with that tag. *)
Definition find_descendant (t : str) (e : Element) : option Element :=
  find (has_tag t) (descendants e).
Definition findall_descendant (t : str) (e : Element) : list Element :=
  List.filter (has_tag t) (descendants e).

(** The f-string [{uri}local] of a qualified name. *)
Definition qname (uri local : str) : str := u "{" ++ uri ++ u "}" ++ local.

(** [t.split('}')[0]]: the text before the first closing brace. *)
Fixpoint before (c : char) (t : str) : str :=
  match t with
  | [] => []
  | d :: t' => if N.eqb d c then [] else d :: before c t'
  end.

(** The dictionary returned by [_detect_wp_namespace], with its three keys. *)
Record Namespaces := { ns_wp : str; ns_content : str; ns_dc : str }.

(** The walk over [root.iter()], left at the first tag of the export family. *)
Fixpoint scan_tags (elems : list Element) (wp_ns : str) : str :=
  match elems with
  | [] => wp_ns
  | elem :: rest =>
      if startswith (u "{") (tag elem) then
        let ns_uri := lstrip (is_chr 123%N) (before 125%N (tag elem)) in
        if contains (u "wordpress.org/export") ns_uri
        then ns_uri                                   (* break *)
        else scan_tags rest wp_ns
      else scan_tags rest wp_ns
  end.

(** The loop over the known versions, left at the first one under which a
    [post_type] element is found. *)
Fixpoint probe_versions (root : Element) (vers : list str) (wp_ns : str) : str :=
  match vers with
  | [] => wp_ns
  | ver :: rest =>
      let candidate := u "http://wordpress.org/export/" ++ ver ++ u "/" in
      match find_descendant (qname candidate (u "post_type")) root with
      | Some _ => candidate                           (* break *)
      | None => probe_versions root rest wp_ns
      end
  end.

(** The loop over [root.attrib] at the head of the function has an empty
    body and is left out. *)
Definition _detect_wp_namespace (root : Element) : Namespaces :=
  let wp_ns := [] in
  let content_ns := u "http://purl.org/rss/1.0/modules/content/" in
  let dc_ns := u "http://purl.org/dc/elements/1.1/" in
  let wp_ns := scan_tags (iter root) wp_ns in
  let wp_ns := match wp_ns with
               | [] => probe_versions root [u "1.2"; u "1.1"; u "1.0"] wp_ns
               | _ => wp_ns
               end in
  let wp_ns := match wp_ns with
               | [] => u "http://wordpress.org/export/1.2/"
               | _ => wp_ns
               end in
  {| ns_wp := wp_ns; ns_content := content_ns; ns_dc := dc_ns |}.

(** A post, the dictionary built for an item. The values under [content],
    [date] and [slug] are the [text] of an element, which is [None] for an
    element without text. *)
Record Post := {
  title : str;
  content : option str;
  date : option str;
  slug : option str;
  type : str;
  status : str;
  categories : list str;
  tags : list str
}.

(** [el.text if el is not None and el.text else default] *)
Definition text_or (default : str) (el : option Element) : str :=
  match el with
  | Some e => match text e with
              | Some (c :: t) => c :: t
              | _ => default
              end
  | None => default
  end.

(** [el.text if el is not None else ''] *)
Definition text_if_present (el : option Element) : option str :=
  match el with
  | Some e => text e
  | None => Some []
  end.

(** [x not in s] for an optional filter set: [None] filters nothing. *)
Definition rejected (x : str) (filter_set : option (gset str)) : bool :=
  match filter_set with
  | Some s => negb (bool_decide (x ∈ s))
  | None => false
  end.

Definition item_type (ns : Namespaces) (item : Element) : str :=
  text_or (u "post") (find_child (qname (ns_wp ns) (u "post_type")) item).

Definition item_status (ns : Namespaces) (item : Element) : str :=
  text_or [] (find_child (qname (ns_wp ns) (u "status")) item).

(** The loop over the [category] children of an item. *)
Definition collect_terms (item : Element) : list str * list str :=
  fold_left (fun '(categories, tags) cat =>
               let domain := default [] (attrib cat !! u "domain") in
               let text := default [] (text cat) in
               if str_eqb domain (u "category") then (categories ++ [text], tags)
               else if str_eqb domain (u "post_tag") then (categories, tags ++ [text])
               else (categories, tags))
            (findall_child (u "category") item) ([], []).

(** The dictionary appended for an item that passed the two filters. *)
Definition extract_fields (ns : Namespaces) (item : Element) (ptype status : str) : Post :=
  let title_el := find_child (u "title") item in
  let content_el := find_child (qname (ns_content ns) (u "encoded")) item in
  let date_el := find_child (qname (ns_wp ns) (u "post_date")) item in
  let slug_el := find_child (qname (ns_wp ns) (u "post_name")) item in
  let '(categories, tags) := collect_terms item in
  {| title := text_or (u "Untitled") title_el;
     content := text_if_present content_el;
     date := text_if_present date_el;
     slug := text_if_present slug_el;
     type := ptype;
     status := status;
     categories := categories;
     tags := tags |}.

(** The body of the loop over the items: an item that a filter rejects is
    passed over, any other appends its post. *)
Definition parse_item (ns : Namespaces) (post_types post_statuses : option (gset str))
    (posts : list Post) (item : Element) : list Post :=
  let ptype := item_type ns item in
  if rejected ptype post_types then posts            (* continue *)
  else
    let status := item_status ns item in
    if rejected status post_statuses then posts      (* continue *)
    else posts ++ [extract_fields ns item ptype status].

(** [parse_wordpress_xml], from the root of the parsed document on. *)
Definition parse_wordpress_xml (root : Element)
    (post_types post_statuses : option (gset str)) : list Post :=
  let ns := _detect_wp_namespace root in
  fold_left (parse_item ns post_types post_statuses)
            (findall_descendant (u "item") root) [].


(** ** The statements of the specification, for comparison with the code *)

(** *** Namespace resolution *)

(** The namespace URI that the detection reads off an element: defined for a
    tag that opens with a brace. *)
Definition namespace_uri (e : Element) : option str :=
  if startswith (u "{") (tag e)
  then Some (lstrip (is_chr 123%N) (before 125%N (tag e)))
  else None.

(** An element of the export family: its namespace URI contains the
    substring of the family. *)
Definition export_family (e : Element) : bool :=
  match namespace_uri e with
  | Some uri => contains (u "wordpress.org/export") uri
  | None => false
  end.

Definition known_versions : list str :=
  [u "http://wordpress.org/export/1.2/";
   u "http://wordpress.org/export/1.1/";
   u "http://wordpress.org/export/1.0/"].

Definition default_version : str := u "http://wordpress.org/export/1.2/".

(** A [post_type] element is present under the candidate namespace. *)
Definition post_type_under (root : Element) (candidate : str) : bool :=
  existsb (has_tag (qname candidate (u "post_type"))) (descendants root).






(** *** Filtering *)

(** [x] is a member of the filter set, or the filter is unrestricted. *)
Definition member_or_unrestricted (x : str) (filter_set : option (gset str)) : Prop :=
  match filter_set with
  | Some s => x ∈ s
  | None => True
  end.

#[global] Instance member_or_unrestricted_dec x fs : Decision (member_or_unrestricted x fs) :=
  match fs with
  | Some s => decide (x ∈ s)
  | None => left I
  end.

(** The items of the document, in document order. *)
Definition items (root : Element) : list Element :=
  findall_descendant (u "item") root.

(** The items that the two filters let through. *)
Definition selected (root : Element) (T S : option (gset str)) : list Element :=
  let ns := _detect_wp_namespace root in
  List.filter (fun item =>
                 bool_decide (member_or_unrestricted (item_type ns item) T)
                 && bool_decide (member_or_unrestricted (item_status ns item) S))
              (items root).

(** The post of an item. *)
Definition post_of (root : Element) (item : Element) : Post :=
  let ns := _detect_wp_namespace root in
  extract_fields ns item (item_type ns item) (item_status ns item).

(** An element that is absent or has no text, or an empty one. *)
Definition lacks_text (el : option Element) : bool :=
  match el with
  | None => true
  | Some e => match text e with
              | None | Some [] => true
              | Some (_ :: _) => false
              end
  end.

(** *** Slugs *)

Section SlugSpec.
Context `{Runtime}.

(** The characters that the specification keeps: letters, digits,
    whitespace and the hyphen. *)
Definition kept_by_spec (c : char) : bool :=
  is_alnum c || is_space c || is_chr c_hyphen c.

(** The characters that the code keeps: the underscore too. *)
Definition kept (c : char) : bool :=
  is_word c || is_space c || is_chr c_hyphen c.

Definition separator (c : char) : bool := is_chr c_hyphen c || is_space c.

(** Every run of separators becomes one hyphen: a separator followed by
    another one is dropped, the last of a run is written as a hyphen. *)
Fixpoint collapse_runs (s : str) : str :=
  match s with
  | [] => []
  | c :: s' =>
      if separator c
      then match s' with
           | d :: _ => if separator d then collapse_runs s'
                       else c_hyphen :: collapse_runs s'
           | [] => [c_hyphen]
           end
      else c :: collapse_runs s'
  end.

(** The slug in the words of the specification, over a class of kept
    characters. *)
Definition slug_spec (keep : char -> bool) (title : str) : str :=
  strip (is_chr c_hyphen) (collapse_runs (List.filter keep (lower title))).

(** No two hyphens in a row. *)
Fixpoint single_hyphens (s : str) : bool :=
  match s with
  | c :: (d :: _) as s' => negb (is_chr c_hyphen c && is_chr c_hyphen d) && single_hyphens s'
  | _ => true
  end.

(** No hyphen at either end. *)
Definition interior_hyphens (s : str) : bool :=
  negb (startswith [c_hyphen] s) && negb (startswith [c_hyphen] (rev s)).

End SlugSpec.

(** *** Text without its whitespace *)

(** What is left of a text when whitespace is not counted: two texts that
    differ only in whitespace have the same. *)
Definition without_space (s : str) : str := List.filter (fun c => negb (is_space c)) s.

(** *** A concrete runtime *)

(** The data of the interpreter for the code points below 256 and for the
    named references that the source itself mentions, on which the examples
    are run: the alphanumerics of Latin-1, its lower-casing, the characters
    above ASCII that match an ASCII letter under [re.IGNORECASE], and the
    entries of [html5] for [amp], [lt], [gt], [quot] and [nbsp]. *)
Definition latin1_isalnum (c : char) : bool :=
  is_chr 170%N c || between 178 179 c || is_chr 181%N c || between 185 186 c
  || between 188 190 c || between 192 214 c || between 216 246 c
  || between 248 255 c.

Definition latin1_lower (s : str) : str :=
  map (fun c => if between 192 214 c || between 216 222 c then (c + 32)%N
                else lower_ascii c) s.

Definition beyond_ascii_ignorecase (c d : char) : bool :=
  (is_chr 105%N (lower_ascii c) && (is_chr 304%N d || is_chr 305%N d))
  || (is_chr 107%N (lower_ascii c) && is_chr 8490%N d)
  || (is_chr 115%N (lower_ascii c) && is_chr 383%N d).

Definition html5_sample (name : str) : option str :=
  option_map snd
    (find (fun kv => str_eqb (fst kv) name)
       [ (u "amp;", [38%N]); (u "amp", [38%N]); (u "lt;", [60%N]); (u "lt", [60%N]);
         (u "gt;", [62%N]); (u "gt", [62%N]); (u "quot;", [34%N]); (u "quot", [34%N]);
         (u "nbsp;", [160%N]); (u "nbsp", [160%N]) ]).

Definition latin1_runtime : Runtime :=
  {| uni_isalnum := latin1_isalnum;
     uni_lower := latin1_lower;
     uni_ignorecase := beyond_ascii_ignorecase;
     html5 := html5_sample |}.

(** *** Notions used by the proofs *)

(** A pattern that matches nowhere in [s], nor at its end. *)
Definition never_matches (r : regex) (s : str) : Prop :=
  forall n, match_at r (skipn n s) = None.

(** A pattern that opens with the literal character [c]. *)
Definition opens_with (c : char) (r : regex) : Prop :=
  exists x y, r = Cat (Cat (Chr (is_chr c)) x) y.

(** The length of the run of characters of the class [p] at the start. *)
Fixpoint run (p : char -> bool) (s : str) : nat :=
  match s with
  | c :: s' => if p c then S (run p s') else 0
  | [] => 0
  end.

Definition nlrun (s : str) : nat := run (is_chr c_nl) s.

(** No three newlines in a row. *)
Definition no3 (s : str) : Prop := contains [c_nl; c_nl; c_nl] s = false.

(** The tail of [html_to_markdown]: the cleanup of whitespace and entities. *)
Definition cleanup (s : str) : str :=
  strip is_space
    (replace (u "&gt;") (u ">")
       (replace (u "&lt;") (u "<")
          (replace (u "&quot;") [c_quot]
             (replace (u "&amp;") (u "&")
                (replace (u "&nbsp;") (u " ")
                   (re_sub newlines_re [TLit [c_nl; c_nl]] s)))))).

(** [s.count(p)]: the occurrences of [p] in [s], from left to right without
    overlap. *)
Fixpoint count_loop (p s : str) (skip : nat) : nat :=
  match s with
  | [] => match skip with
          | 0 => if startswith p [] then 1 else 0
          | S _ => 0
          end
  | _ :: s' =>
      match skip with
      | S n => count_loop p s' n
      | 0 => if startswith p s then S (count_loop p s' (length p - 1))
             else count_loop p s' 0
      end
  end.
Definition count (p s : str) : nat := count_loop p s 0.

(** The text of the block that the pattern of an embedded element finds at
    the start of [s]. *)
Definition embedded_block `{Runtime} (name s : str) : option str :=
  option_map (fun m => group m 0) (match_at (embed_re name) s).

(** *** Documents and texts of the examples *)

Definition element (t : str) (cs : list Element) : Element := mkElement t ∅ None cs.
Definition leaf (t : str) (x : option str) : Element := mkElement t ∅ x [].

(** [<rss><channel><item/></channel></rss>]: an item without title and
    without [post_type]. *)
Definition bare_item : Element := element (u "item") [].
Definition doc_bare : Element :=
  element (u "rss") [element (u "channel") [bare_item]].
Definition post_bare : Post :=
  {| title := u "Untitled"; content := Some []; date := Some []; slug := Some [];
     type := u "post"; status := []; categories := []; tags := [] |}.

(** An item whose [content:encoded] element is present and has no text, as
    in [<content:encoded><![CDATA[]]></content:encoded>]. *)
Definition doc_empty_content : Element :=
  element (u "rss")
    [element (u "channel")
       [element (u "item")
          [leaf (u "title") (Some (u "A"));
           leaf (qname (u "http://purl.org/rss/1.0/modules/content/") (u "encoded")) None;
           leaf (qname (u "http://wordpress.org/export/1.2/") (u "post_type"))
                (Some (u "post"));
           leaf (qname (u "http://wordpress.org/export/1.2/") (u "status"))
                (Some (u "publish"))]]].

(** An export whose namespace URI holds braces:
    [xmlns:wp="http://wordpress.org/export/{1.2}/"], with one item of type
    [page]. *)
Definition doc_braces : Element :=
  element (u "rss")
    [element (u "channel")
       [element (u "item")
          [leaf (u "title") (Some (u "A"));
           leaf (qname (u "http://wordpress.org/export/{1.2}/") (u "post_type"))
                (Some (u "page"))]]].

Definition heading_paragraph : str := u "<h2>Hello</h2><p>World <strong>bold</strong></p>".
Definition iframe_v : str := u "<iframe src='v'></iframe>".
Definition nested_bold_iframe : str := u "<iframe><b><b>x</b></b></iframe>".

(** ** generate_markdown_files *)

(** More data of the runtime, taken as parameters: the decimal digits and
    the printable characters above ASCII of the Unicode database, and what
    the [strftime] of the C library writes for [%Y] with a year below 1000
    (zero-padded or not, by platform). *)
Class Platform := {
  (** the value of a code point above 127 that is a decimal digit. *)
  uni_decimal : char -> option N;
  (** [str.isprintable] on a code point above 127. *)
  uni_isprintable : char -> bool;
  (** the text of [%Y] for a year below 1000. *)
  strftime_small_year : N -> str
}.

Section Formatting.
Context `{Runtime} `{Platform}.

(** The class [\d] of a [str] pattern, and the value of a digit. *)
Definition is_decimal (c : char) : bool :=
  if is_ascii c then is_digit c
  else match uni_decimal c with Some _ => true | None => false end.

Definition decimal_value (c : char) : N :=
  if is_ascii c then (c - 48)%N
  else match uni_decimal c with Some v => v | None => 0%N end.

(** [int(s)] on the text of a group of the patterns below: decimal digits,
    behind whitespace that [int] passes over. *)
Definition py_int (s : str) : N :=
  fold_left (fun acc c => (acc * 10 + decimal_value c)%N) (strip is_space s) 0%N.

Definition digit_re : regex := Chr is_decimal.                      (* \d    *)
Definition range_re (lo hi : string) : regex :=                      (* [a-b] *)
  Chr (fun c => existsb (fun a => (a <=? c)%N) (u lo) && existsb (fun b => (c <=? b)%N) (u hi)).

(** The patterns of the directives, from [TimeRE] of [_strptime]; the named
    groups are numbered in their order in the two formats. *)
(** [%Y]: [(\d\d\d\d)] *)
Definition re_Y : regex := Grp 1 (seq_re [digit_re; digit_re; digit_re; digit_re]).
(** [%m]: [(1[0-2]|0[1-9]|[1-9])] *)
Definition re_m : regex :=
  Grp 2 (Alt (seq_re [lit (u "1"); range_re "0" "2"])
        (Alt (seq_re [lit (u "0"); range_re "1" "9"])
             (range_re "1" "9"))).
(** [%d]: [(3[0-1]|[1-2]\d|0[1-9]|[1-9]| [1-9])] *)
Definition re_d : regex :=
  Grp 3 (Alt (seq_re [lit (u "3"); range_re "0" "1"])
        (Alt (seq_re [range_re "1" "2"; digit_re])
        (Alt (seq_re [lit (u "0"); range_re "1" "9"])
        (Alt (range_re "1" "9")
             (seq_re [lit (u " "); range_re "1" "9"]))))).
(** [%H]: [(2[0-3]|[0-1]\d|\d)] *)
Definition re_H : regex :=
  Grp 4 (Alt (seq_re [lit (u "2"); range_re "0" "3"])
        (Alt (seq_re [range_re "0" "1"; digit_re])
             digit_re)).
(** [%M]: [([0-5]\d|\d)] *)
Definition re_M : regex :=
  Grp 5 (Alt (seq_re [range_re "0" "5"; digit_re]) digit_re).
(** [%S]: [(6[0-1]|[0-5]\d|\d)] *)
Definition re_S : regex :=
  Grp 6 (Alt (seq_re [lit (u "6"); range_re "0" "1"])
        (Alt (seq_re [range_re "0" "5"; digit_re])
             digit_re)).

(** The format ['%Y-%m-%d %H:%M:%S'], in which the blank stands for [\s+],
    and the format ['%Y-%m-%d']. *)
Definition datetime_re : regex :=
  seq_re [re_Y; lit (u "-"); re_m; lit (u "-"); re_d; plus is_space;
          re_H; lit (u ":"); re_M; lit (u ":"); re_S].
Definition date_re : regex :=
  seq_re [re_Y; lit (u "-"); re_m; lit (u "-"); re_d].

(** The fields of a [datetime]. *)
Record DateTime := {
  dt_year : N; dt_month : N; dt_day : N;
  dt_hour : N; dt_minute : N; dt_second : N
}.

Definition is_leap (y : N) : bool :=
  ((y mod 4 =? 0) && (negb (y mod 100 =? 0) || (y mod 400 =? 0)))%N.

Definition days_in_month (y m : N) : N :=
  match m with
  | 1 | 3 | 5 | 7 | 8 | 10 | 12 => 31
  | 4 | 6 | 9 | 11 => 30
  | 2 => if is_leap y then 29 else 28
  | _ => 0
  end%N.

(** The checks of the constructors of [date] and [datetime]. *)
Definition valid_datetime (dt : DateTime) : bool :=
  ((1 <=? dt_year dt) && (dt_year dt <=? 9999)
   && (1 <=? dt_month dt) && (dt_month dt <=? 12)
   && (1 <=? dt_day dt) && (dt_day dt <=? days_in_month (dt_year dt) (dt_month dt))
   && (dt_hour dt <? 24) && (dt_minute dt <? 60) && (dt_second dt <? 60))%N.

(** [datetime.strptime(data, format)] for one of the two formats; [None]
    stands for the [ValueError] that it raises when the text does not match
    the format, when text is left over, or when the fields are no date. A
    field whose directive is not in the format keeps its default. *)
Definition strptime (format : regex) (data : str) : option DateTime :=
  match match_at format data with
  | None => None
  | Some found =>
      if negb (length data =? m_len found) then None
      else
        let field n default :=
          match span_of n (m_caps found) with
          | Some _ => py_int (group found n)
          | None => default
          end in
        let dt := {| dt_year := field 1 1900%N; dt_month := field 2 1%N;
                     dt_day := field 3 1%N; dt_hour := field 4 0%N;
                     dt_minute := field 5 0%N; dt_second := field 6 0%N |} in
        if valid_datetime dt then Some dt else None
  end.

(** Two decimal digits, as [%m] and [%d] write them. *)
Definition pad2 (n : N) : str := [(48 + n / 10)%N; (48 + n mod 10)%N].

(** The decimal digits of a number. *)
Definition str_of_N (n : N) : str := str_of_nat (N.to_nat n).

(** [dt.strftime('%Y%m%d')]. *)
Definition strftime_Ymd (dt : DateTime) : str :=
  (if (1000 <=? dt_year dt)%N then str_of_N (dt_year dt)
   else strftime_small_year (dt_year dt))
  ++ pad2 (dt_month dt) ++ pad2 (dt_day dt).

Fixpoint takewhile (p : char -> bool) (s : str) : str :=
  match s with
  | c :: s' => if p c then c :: takewhile p s' else []
  | [] => []
  end.

(** [s.split()[0]]; [None] stands for the [IndexError] on a text of
    whitespace only. *)
Definition first_token (s : str) : option str :=
  match dropwhile is_space s with
  | [] => None
  | t => Some (takewhile (fun c => negb (is_space c)) t)
  end.

(** The two nested [try] blocks that compute the prefix from a date. *)
Definition date_prefix_of (date : str) : str :=
  match strptime datetime_re date with
  | Some dt => strftime_Ymd dt ++ u "-"
  | None =>                                           (* except ValueError *)
      match first_token date with
      | Some token =>
          match strptime date_re token with
          | Some dt => strftime_Ymd dt ++ u "-"
          | None => []                                (* except Exception *)
          end
      | None => []                                    (* except Exception *)
      end
  end.

(** *** The repr of a list of texts, as an f-string writes it *)

Definition hex_digit (n : N) : char := if (n <? 10)%N then (48 + n)%N else (87 + n)%N.

(** [width] hexadecimal digits of [n]. *)
Fixpoint hex_fixed (width : nat) (n : N) : str :=
  match width with
  | 0 => []
  | S w => hex_fixed w (n / 16)%N ++ [hex_digit (n mod 16)%N]
  end.

Definition is_printable (c : char) : bool :=
  if is_ascii c then between 32 126 c else uni_isprintable c.

Definition repr_char (quote_chr : char) (c : char) : str :=
  if N.eqb c quote_chr || N.eqb c 92%N then [92%N; c]
  else if N.eqb c c_tab then u "\t"
  else if N.eqb c c_nl then u "\n"
  else if N.eqb c 13%N then u "\r"
  else if (c <? 32)%N || N.eqb c 127%N then u "\x" ++ hex_fixed 2 c
  else if (c <? 127)%N then [c]
  else if is_printable c then [c]
  else if (c <=? 255)%N then u "\x" ++ hex_fixed 2 c
  else if (c <=? 65535)%N then u "\u" ++ hex_fixed 4 c
  else u "\U" ++ hex_fixed 8 c.

(** [repr(s)]: double quotes when the text has a single quote and no double
    quote, single quotes otherwise. *)
Definition repr_str (s : str) : str :=
  let quote_chr := if existsb (N.eqb c_apos) s && negb (existsb (N.eqb c_quot) s)
                   then c_quot else c_apos in
  [quote_chr] ++ flat_map (repr_char quote_chr) s ++ [quote_chr].

Definition repr_list (l : list str) : str :=
  u "[" ++ join (u ", ") (map repr_str l) ++ u "]".

(** *** The function *)

(** The truth value of a text or [None]. *)
Definition truthy (o : option str) : bool :=
  match o with
  | Some (_ :: _) => true
  | _ => false
  end.

Definition text_of (o : option str) : str := default [] o.

(** The body of the loop: the file of one post. *)
Definition markdown_file (date_prefix yaml_frontmatter : bool) (post : Post) : str * str :=
  let md_body := match content post with
                 | Some c => html_to_markdown c
                 | None => []                 (* [not html_content] *)
                 end in
  (* Filename *)
  let base := if truthy (slug post) then text_of (slug post)
              else sanitize_filename (title post) in
  let prefix := if date_prefix && truthy (date post)
                then date_prefix_of (text_of (date post))
                else [] in
  let filename := prefix ++ base ++ u ".md" in
  (* Header *)
  let file_content :=
    if yaml_frontmatter then
      let lines := [u "---"] in
      let lines := lines ++ [u "title: " ++ [c_quot] ++ title post ++ [c_quot]] in
      let lines := if truthy (date post)
                   then lines ++ [u "date: " ++ text_of (date post)] else lines in
      let lines := match categories post with
                   | [] => lines
                   | _ => lines ++ [u "categories: " ++ repr_list (categories post)]
                   end in
      let lines := match tags post with
                   | [] => lines
                   | _ => lines ++ [u "tags: " ++ repr_list (tags post)]
                   end in
      let lines := lines ++ [u "---"] in
      let lines := lines ++ [[]] in
      let lines := lines ++ [md_body] in
      join [c_nl] lines
    else
      let parts := [u "# " ++ title post ++ [c_nl]] in
      let parts := if truthy (date post)
                   then parts ++ [u "*Published: " ++ text_of (date post) ++ u "*" ++ [c_nl]]
                   else parts in
      let parts := parts ++ [md_body] in
      join [c_nl] parts in
  (filename, file_content).

Definition generate_markdown_files (posts : list Post)
    (date_prefix yaml_frontmatter : bool) : list (str * str) :=
  fold_left (fun results post =>
               results ++ [markdown_file date_prefix yaml_frontmatter post])
            posts [].

End Formatting.

(** ** The script of app.py *)

(** The state of the sidebar. *)
Record Sidebar := {
  inc_posts : bool; inc_pages : bool;
  inc_publish : bool; inc_draft : bool; inc_private : bool; inc_pending : bool;
  date_prefix : bool; yaml_fm : bool
}.

(** The filter sets built from the sidebar. *)
Definition selected_types (sb : Sidebar) : gset str :=
  let s : gset str := ∅ in
  let s := if inc_posts sb then s ∪ {[ u "post" ]} else s in
  let s := if inc_pages sb then s ∪ {[ u "page" ]} else s in
  s.

Definition selected_statuses (sb : Sidebar) : gset str :=
  let s : gset str := ∅ in
  let s := if inc_publish sb then s ∪ {[ u "publish" ]} else s in
  let s := if inc_draft sb then s ∪ {[ u "draft" ]} else s in
  let s := if inc_private sb then s ∪ {[ u "private" ]} else s in
  let s := if inc_pending sb then s ∪ {[ u "pending" ]} else s in
  s.

(** The two counting loops: [counts[k] = counts.get(k, 0) + 1]. *)
Definition count_by (key : Post -> str) (posts : list Post) : gmap str nat :=
  fold_left (fun counts p => <[key p := default 0 (counts !! key p) + 1]> counts)
            posts ∅.

(** The snippet of a preview: the first 500 characters, and an ellipsis
    behind a longer text. *)
Definition snippet (file_content : str) : str :=
  firstn 500 file_content ++ (if 500 <? length file_content then [8230%N] else []).

(** What the script has put on the page when it stops or ends. *)
Inductive Page :=
| UploadPrompt                      (* st.info, no file yet *)
| NeedContentType                   (* st.warning, no type selected *)
| NeedStatus                        (* st.warning, no status selected *)
| NoMatch                           (* st.warning, no item matched *)
| Results (posts : list Post) (files : list (str * str))
          (type_counts status_counts : gmap str nat)
          (previews : list (str * str)).

(** The script, from the sidebar and the root of the uploaded document (a
    well-formed one) to the page. *)
Definition run_app `{Runtime} `{Platform} (sb : Sidebar) (uploaded : option Element) : Page :=
  match uploaded with
  | None => UploadPrompt
  | Some root =>
      if bool_decide (selected_types sb = ∅) then NeedContentType
      else if bool_decide (selected_statuses sb = ∅) then NeedStatus
      else
        let posts := parse_wordpress_xml root (Some (selected_types sb))
                                              (Some (selected_statuses sb)) in
        match posts with
        | [] => NoMatch
        | _ =>
            let files := generate_markdown_files posts (date_prefix sb) (yaml_fm sb) in
            let type_counts := count_by type posts in
            let status_counts := count_by status posts in
            let preview_count := Nat.min 5 (length files) in
            let previews := map (fun '(fname, file_content) => (fname, snippet file_content))
                                (firstn preview_count files) in
            Results posts files type_counts status_counts previews
        end
  end.

(** A concrete platform for the examples: no decimal digit and no printable
    character is known above ASCII but those of Latin-1, and a small year is
    written without padding. *)
Definition sample_platform : Platform :=
  {| uni_decimal := fun _ => None;
     uni_isprintable := fun c => between 161 172 c || between 174 255 c;
     strftime_small_year := fun y => str_of_nat (N.to_nat y) |}.

(** ** Notions used by the further properties *)

(** The [domain] attribute of a [category] element ([''] when it has none)
    and its text ([''] when it has none). *)
Definition term_domain (cat : Element) : str := default [] (attrib cat !! u "domain").
Definition term_text (cat : Element) : str := default [] (text cat).
Definition in_domain (d : str) (cat : Element) : bool := str_eqb (term_domain cat) d.

(** The Markdown body of a post. *)
Definition body_of `{Runtime} (post : Post) : str :=
  match content post with
  | Some c => html_to_markdown c
  | None => []
  end.

(** The step that strips the remaining tags: [re.sub(r'<[^>]+>', '', s)]. *)
Definition strip_tags (s : str) : str := re_sub tag_re [] s.

(** The text [YYYY-MM-DD HH:MM:SS] of a date and a time of day, as WordPress
    writes [post_date], and the text [YYYY-MM-DD] of a date. *)
Definition date_text (y mo d : N) : str :=
  str_of_N y ++ u "-" ++ pad2 mo ++ u "-" ++ pad2 d.
Definition datetime_text (y mo d h mi s : N) : str :=
  date_text y mo d ++ u " " ++ pad2 h ++ u ":" ++ pad2 mi ++ u ":" ++ pad2 s.

(** The stem of the file name of a post: its slug, or the slug made of its
    title. *)
Definition stem_of `{Runtime} (post : Post) : str :=
  if truthy (slug post) then text_of (slug post) else sanitize_filename (title post).

(** ** Sample posts and a sample sidebar *)

(** The post read from [doc_empty_content]. *)
Definition post_a : Post :=
  {| title := u "A"; content := None; date := Some []; slug := Some [];
     type := u "post"; status := u "publish"; categories := []; tags := [] |}.

(** A post of the leap day of 2024, one of the thirtieth of February, one
    whose date is a word, and one whose title is punctuation only. *)
Definition post_dated : Post :=
  {| title := u "Hello World"; content := Some (u "<p>Hi</p>");
     date := Some (u "2024-02-29 10:30:00"); slug := Some (u "hello-world");
     type := u "post"; status := u "publish"; categories := []; tags := [] |}.
Definition post_misdated : Post :=
  {| title := u "Hello World"; content := Some (u "<p>Hi</p>");
     date := Some (u "2024-02-30 10:30:00"); slug := Some (u "hello-world");
     type := u "post"; status := u "publish"; categories := []; tags := [] |}.
Definition post_undated : Post :=
  {| title := u "Hello World"; content := Some (u "<p>Hi</p>");
     date := Some (u "soon"); slug := Some (u "hello-world");
     type := u "post"; status := u "draft"; categories := []; tags := [] |}.
Definition post_wordless : Post :=
  {| title := u "?!"; content := Some (u "<p>Hi</p>");
     date := Some []; slug := None;
     type := u "post"; status := u "publish"; categories := []; tags := [] |}.

(** The sidebar as the script opens it, without the date prefix. *)
Definition sidebar_sample : Sidebar :=
  {| inc_posts := true; inc_pages := false;
     inc_publish := true; inc_draft := false; inc_private := false; inc_pending := false;
     date_prefix := false; yaml_fm := false |}.

(** ** Elements in a text *)

(** The text [<name attrs>t</name>] of an element. *)
Definition element_text (name attrs t : str) : str :=
  (c_lt :: name) ++ attrs ++ [c_gt] ++ t ++ (c_lt :: c_slash :: name ++ [c_gt]).

(** The attributes of an opening tag: nothing, or a blank and then characters
    other than [<], [>], [&], the closing bracket and the newline. *)
Definition attributes (a : str) : bool :=
  match a with [] => true | c :: _ => N.eqb c c_space end
  && forallb (none_of [c_lt; c_gt; c_amp; 93%N; c_nl]) a.

(** A text without markup: no [<], no [&], no [ ]]> ] and no run of three
    newlines. *)
Definition plain (t : str) : bool :=
  negb (contains [c_lt] t) && negb (contains [c_amp] t)
  && negb (contains (u "]]>") t) && negb (contains [c_nl; c_nl; c_nl] t).

(** Two texts that differ at a position that both have. *)
Fixpoint mismatch (p a : str) : bool :=
  match p, a with
  | c :: p', d :: a' => negb (N.eqb c d) || mismatch p' a'
  | _, _ => false
  end.

(** The names of the rules for bold and italic text, with their marks. *)
Definition emphasis_rules : list (str * str) :=
  [(u "strong", u "**"); (u "b", u "**"); (u "em", u "*"); (u "i", u "*")].

(** ** The stages of the transformer *)

Section Stages.
Context `{Runtime}.

(** [html_to_markdown] up to the stripping of the remaining tags: the text
    at that point and the iframe and script blocks saved from it. *)
Definition front (html_content : str) : str * list str * list str :=
  let content := unescape html_content in
  let content := replace (u "]]>") [] (replace (u "<![CDATA[") [] content) in
  let content := fold_left heading (seq 1 6) content in
  let content := re_sub_fn (element_re (u "blockquote")) _convert_blockquote content in
  let content := re_sub_fn (element_re (u "ol")) _convert_ol content in
  let content := re_sub_fn (element_re (u "ul")) _convert_ul content in
  let content := re_sub (element_re (u "strong")) [TLit (u "**"); TGrp 1; TLit (u "**")] content in
  let content := re_sub (element_re (u "b")) [TLit (u "**"); TGrp 1; TLit (u "**")] content in
  let content := re_sub (element_re (u "em")) [TLit (u "*"); TGrp 1; TLit (u "*")] content in
  let content := re_sub (element_re (u "i")) [TLit (u "*"); TGrp 1; TLit (u "*")] content in
  let content := re_sub link_re [TLit (u "["); TGrp 2; TLit (u "]("); TGrp 1; TLit (u ")")] content in
  let content := re_sub img_alt_re [TLit (u "!["); TGrp 2; TLit (u "]("); TGrp 1; TLit (u ")")] content in
  let content := re_sub img_re [TLit (u "![]("); TGrp 1; TLit (u ")")] content in
  let content := re_sub br_re [TLit [c_nl]] content in
  let content := re_sub (element_re (u "p")) [TGrp 1; TLit [c_nl; c_nl]] content in
  let '(content, iframes) := re_sub_st (embed_re (u "iframe")) (_save (u "IFRAME")) content [] in
  let '(content, scripts) := re_sub_st (embed_re (u "script")) (_save (u "SCRIPT")) content [] in
  let content := re_sub tag_re [] content in
  (content, iframes, scripts).

End Stages.

(** The entities that the cleanup decodes, in its order. *)
Definition residual_entities : list str :=
  [u "&nbsp;"; u "&amp;"; u "&quot;"; u "&lt;"; u "&gt;"].

(** A pattern of which every match holds the character [c]. *)
Fixpoint requires (c : char) (r : regex) : Prop :=
  match r with
  | Chr p => forall d, p d = true -> d = c
  | Cat r1 r2 => requires c r1 \/ requires c r2
  | Alt r1 r2 => requires c r1 /\ requires c r2
  | Grp _ r' => requires c r'
  | Eps | Rep _ _ _ _ => False
  end.

(** The tag pattern [<[^>]+>] matches at the start of [s]: a [<], a
    character other than [>], and a [>] further on. *)
Definition tag_here (s : str) : bool :=
  match s with
  | c :: s' => N.eqb c_lt c && negb (startswith [c_gt] s') && contains [c_gt] s'
  | [] => false
  end.

(** [b] is [a] without some of its newlines, each of them taken away in
    front of a newline that stays. *)
Inductive thinned : str -> str -> Prop :=
| thinned_nil : thinned [] []
| thinned_keep c a b : thinned a b -> thinned (c :: a) (c :: b)
| thinned_drop a b : thinned a (c_nl :: b) -> thinned (c_nl :: a) (c_nl :: b).

(** A text with a doubly escaped tag, and a text with tags, an entity and an
    ampersand that is no entity. *)
Definition escaped_twice : str := u "&amp;lt;b&amp;gt;x&amp;lt;/b&amp;gt;".
Definition tagged_text : str := u "<div>AT&amp;T</div> is <b>here</b>, a < b".

(** * The export reader *)

Section ReaderProofs.

Lemma startswith_nonempty p s : p <> [] -> startswith p s = true -> s <> [].
Proof. destruct p, s; simpl; congruence. Qed.

Lemma contains_nonempty p s : p <> [] -> contains p s = true -> s <> [].
Proof. destruct p, s; simpl; congruence. Qed.

Lemma iter_descendants e : iter e = e :: descendants e.
Proof.
  destruct e as [t a x cs]. reflexivity.
Qed.

(** The walk returns the namespace of the first element of the family, or
    leaves the variable as it was. *)
Lemma scan_tags_find elems wp_ns :
  scan_tags elems wp_ns =
  match find export_family elems with
  | Some e => default [] (namespace_uri e)
  | None => wp_ns
  end.
Proof.
  induction elems as [|e elems IH]; cbn [scan_tags find]; [reflexivity|].
  unfold export_family at 1. unfold namespace_uri at 1.
  destruct (startswith (u "{") (tag e)) eqn:Hs; [|exact IH].
  destruct (contains _ _); [|exact IH].
  unfold namespace_uri. now rewrite Hs.
Qed.

Lemma export_family_uri_nonempty e :
  export_family e = true -> default [] (namespace_uri e) <> [].
Proof.
  unfold export_family. destruct (namespace_uri e) as [uri|]; [|discriminate].
  simpl. apply contains_nonempty. discriminate.
Qed.

Lemma find_descendant_present root t :
  match find_descendant t root with Some _ => true | None => false end
  = existsb (has_tag t) (descendants root).
Proof.
  unfold find_descendant.
  induction (descendants root) as [|e l IH]; cbn [find existsb]; [reflexivity|].
  destruct (has_tag t e); cbn [orb]; [reflexivity|exact IH].
Qed.

Lemma probe_versions_find root :
  probe_versions root [u "1.2"; u "1.1"; u "1.0"] [] =
  match find (post_type_under root) known_versions with
  | Some candidate => candidate
  | None => []
  end.
Proof.
  unfold known_versions, post_type_under. cbn [probe_versions find].
  rewrite <- !find_descendant_present.
  change (u "http://wordpress.org/export/" ++ u "1.2" ++ u "/")
    with (u "http://wordpress.org/export/1.2/").
  change (u "http://wordpress.org/export/" ++ u "1.1" ++ u "/")
    with (u "http://wordpress.org/export/1.1/").
  change (u "http://wordpress.org/export/" ++ u "1.0" ++ u "/")
    with (u "http://wordpress.org/export/1.0/").
  repeat match goal with |- context [find_descendant ?t root] =>
    destruct (find_descendant t root); [reflexivity|] end.
  reflexivity.
Qed.


(** On a qualified name [{uri}local] whose URI has no brace, the namespace
    read off the tag is the URI. *)
Lemma before_app c a b : ~ In c a -> before c (a ++ c :: b) = a.
Proof.
  induction a as [|d a IH]; simpl; intros Hn.
  - now rewrite N.eqb_refl.
  - destruct (N.eqb_spec d c) as [->|_]; [tauto|]. f_equal. apply IH. tauto.
Qed.

Lemma namespace_uri_qname uri local a x cs :
  ~ In 125%N uri -> ~ In 123%N uri ->
  namespace_uri (mkElement (qname uri local) a x cs) = Some uri.
Proof.
  intros Hc Ho. unfold namespace_uri, qname. cbn [tag].
  change (u "{") with [123%N]. change (u "}") with [125%N].
  cbn [app startswith]. rewrite N.eqb_refl. cbn [andb]. f_equal.
  cbn [before]. change (123 =? 125)%N with false. cbn iota.
  rewrite before_app by exact Hc.
  unfold lstrip. cbn [dropwhile]. unfold is_chr at 1. rewrite N.eqb_refl.
  destruct uri as [|c uri]; [reflexivity|]. cbn [dropwhile]. unfold is_chr.
  destruct (N.eqb_spec 123 c) as [<-|_]; [exfalso; apply Ho; now left|reflexivity].
Qed.

(** The second tier never adopts anything: a [post_type] element under a
    known version is itself an element of the export family, which the walk
    of the first tier meets. *)
Lemma probe_is_vacuous root :
  find export_family (iter root) = None ->
  find (post_type_under root) known_versions = None.
Proof.
  intros E.
  destruct (find (post_type_under root) known_versions) as [c|] eqn:F; [|reflexivity].
  exfalso. apply find_some in F as [Hin F]. unfold post_type_under in F.
  apply existsb_exists in F as (e & He & Ht).
  assert (Hi : In e (iter root)) by (rewrite iter_descendants; now right).
  pose proof (find_none _ _ E e Hi) as Hf.
  unfold has_tag, str_eqb in Ht. destruct (decide _) as [Heq|]; [|discriminate].
  unfold export_family, namespace_uri in Hf. rewrite Heq in Hf.
  unfold known_versions in Hin. simpl in Hin.
  destruct Hin as [<-|[<-|[<-|[]]]]; vm_compute in Hf; discriminate.
Qed.

(** *** The namespace read off a tag and the namespace URI *)







(** With the cut text no field of the export namespace is found: the item of
    type [page] is read as a [post]. *)
Example fields_lost_with_braces :
  map type (parse_wordpress_xml doc_braces None None) = [u "post"].
Proof. vm_compute. reflexivity. Qed.

(** *** The loop over the items *)

Lemma rejected_member x fs :
  negb (rejected x fs) = bool_decide (member_or_unrestricted x fs).
Proof.
  destruct fs as [s|]; simpl.
  - now rewrite negb_involutive.
  - reflexivity.
Qed.

Lemma parse_items_fold ns T S l acc :
  fold_left (parse_item ns T S) l acc =
  acc ++ map (fun item => extract_fields ns item (item_type ns item) (item_status ns item))
             (List.filter (fun item =>
                 bool_decide (member_or_unrestricted (item_type ns item) T)
                 && bool_decide (member_or_unrestricted (item_status ns item) S)) l).
Proof.
  revert acc. induction l as [|item l IH]; intros acc; simpl.
  - now rewrite app_nil_r.
  - rewrite IH. unfold parse_item at 1. rewrite <- !rejected_member.
    destruct (rejected (item_type ns item) T); simpl; [reflexivity|].
    destruct (rejected (item_status ns item) S); simpl; [reflexivity|].
    now rewrite <- app_assoc.
Qed.

Lemma parse_as_selected root T S :
  parse_wordpress_xml root T S = map (post_of root) (selected root T S).
Proof. unfold parse_wordpress_xml. now rewrite parse_items_fold. Qed.

Lemma selected_iff root T S item :
  In item (selected root T S) <->
  In item (items root)
  /\ member_or_unrestricted (item_type (_detect_wp_namespace root) item) T
  /\ member_or_unrestricted (item_status (_detect_wp_namespace root) item) S.
Proof.
  unfold selected. rewrite filter_In, andb_true_iff, !bool_decide_eq_true. tauto.
Qed.

(** C2. The reader returns, in the document order of the items, the posts of
    exactly the items whose type is in [T] (or [T] is unrestricted) and whose
    status is in [S] (or [S] is unrestricted): its result is the list of the
    posts of the selected items, and the selected items are the items of the
    document that pass the two memberships, in the order of the document. *)
Theorem parse_wordpress_xml_filter (root : Element) (T S : option (gset str)) :
  parse_wordpress_xml root T S = map (post_of root) (selected root T S)
  /\ (forall item, In item (selected root T S) <->
        In item (items root)
        /\ member_or_unrestricted (item_type (_detect_wp_namespace root) item) T
        /\ member_or_unrestricted (item_status (_detect_wp_namespace root) item) S).
Proof. split; [apply parse_as_selected|apply selected_iff]. Qed.

Lemma text_or_nonempty d el : d <> [] -> text_or d el <> [].
Proof.
  intros Hd. unfold text_or. destruct el as [e|]; [|exact Hd].
  destruct (text e) as [[|c t]|]; congruence.
Qed.

Lemma text_or_default d el : lacks_text el = true -> text_or d el = d.
Proof.
  unfold lacks_text, text_or. destruct el as [e|]; [|reflexivity].
  destruct (text e) as [[|c t]|]; congruence.
Qed.

Lemma extract_fields_title ns item ptype st :
  title (extract_fields ns item ptype st) = text_or (u "Untitled") (find_child (u "title") item).
Proof. unfold extract_fields. now destruct (collect_terms item). Qed.

Lemma extract_fields_type ns item ptype st :
  type (extract_fields ns item ptype st) = ptype.
Proof. unfold extract_fields. now destruct (collect_terms item). Qed.

(** C6. Every post that the reader returns has a non-empty title and a
    non-empty type; it is the post of an item of the document, and when the
    title element of that item is absent or without text the title is the
    placeholder, when its [post_type] element is absent or without text the
    type is the default type. *)
Theorem parse_title_type_nonempty (root : Element) (T S : option (gset str)) (p : Post) :
  In p (parse_wordpress_xml root T S) ->
  (title p <> [] /\ type p <> [])
  /\ exists item,
       In item (items root) /\ p = post_of root item
       /\ (lacks_text (find_child (u "title") item) = true -> title p = u "Untitled")
       /\ (lacks_text (find_child (qname (ns_wp (_detect_wp_namespace root)) (u "post_type")) item)
             = true -> type p = u "post").
Proof.
  rewrite parse_as_selected.
  intros Hin. apply in_map_iff in Hin as (item & <- & Hitem).
  apply selected_iff in Hitem as [Hitem _].
  unfold post_of. rewrite extract_fields_title, extract_fields_type.
  split; [split|].
  - apply text_or_nonempty. discriminate.
  - apply text_or_nonempty. discriminate.
  - exists item. split; [exact Hitem|]. split; [reflexivity|].
    split; intros Hl; now apply text_or_default.
Qed.

(** C7. With the empty set as type filter, or as status filter, the reader
    returns no post, whatever the document. *)
Theorem parse_empty_filter (root : Element) (other : option (gset str)) :
  parse_wordpress_xml root (Some ∅) other = []
  /\ parse_wordpress_xml root other (Some ∅) = [].
Proof.
  rewrite !parse_as_selected. unfold selected.
  split; (induction (items root) as [|item l IH]; simpl; [reflexivity|]).
  - rewrite bool_decide_eq_false_2 by apply not_elem_of_empty. exact IH.
  - rewrite (bool_decide_eq_false_2 (_ ∈ ∅)) by apply not_elem_of_empty.
    rewrite andb_false_r. exact IH.
Qed.

End ReaderProofs.

(** * Text and patterns *)

Section TextLemmas.

(** ** Prefixes and occurrences *)

Lemma contains_cons p c s :
  contains p (c :: s) = startswith p (c :: s) || contains p s.
Proof. reflexivity. Qed.

Lemma contains_tail p c s : contains p (c :: s) = false -> contains p s = false.
Proof. rewrite contains_cons. now intros [_ ?]%orb_false_iff. Qed.

Lemma contains_skipn p n s : contains p s = false -> contains p (skipn n s) = false.
Proof.
  revert s. induction n as [|n IH]; intros s Hs; [exact Hs|].
  destruct s as [|c s]; [exact Hs|]. cbn [skipn]. apply IH. eapply contains_tail, Hs.
Qed.

Lemma contains_startswith p s : contains p s = false -> startswith p s = false.
Proof. destruct s; cbn [contains]; now intros [? _]%orb_false_iff. Qed.

Lemma startswith_app p a b : startswith p a = true -> startswith p (a ++ b) = true.
Proof.
  revert a. induction p as [|c p IH]; intros a; [reflexivity|].
  destruct a as [|d a]; cbn [startswith app]; [discriminate|].
  intros [-> Hp]%andb_true_iff. cbn [andb]. now apply IH.
Qed.

Lemma contains_app p a b : contains p (a ++ b) = false -> contains p a = false.
Proof.
  induction a as [|c a IH].
  - intros Hc. apply contains_startswith in Hc. cbn [contains app] in *.
    destruct (startswith p []) eqn:E; [|reflexivity].
    pose proof (startswith_app p [] b E) as Hb. cbn [app] in Hb. congruence.
  - cbn [app]. rewrite !contains_cons. intros [Hs Hc]%orb_false_iff.
    rewrite (IH Hc), orb_false_r.
    destruct (startswith p (c :: a)) eqn:E; [|reflexivity].
    pose proof (startswith_app p (c :: a) b E) as Hb. cbn [app] in Hb. congruence.
Qed.

(** A text in which the first character of [p] does not occur has no
    occurrence of [p]. *)
Lemma contains_first c rest s : contains [c] s = false -> contains (c :: rest) s = false.
Proof.
  induction s as [|d s IH]; [reflexivity|].
  rewrite !contains_cons. intros [Hs Hc]%orb_false_iff.
  rewrite (IH Hc), orb_false_r. cbn [startswith] in *.
  rewrite andb_true_r in Hs. now rewrite Hs.
Qed.

(** ** str.replace *)

Lemma replace_absent old new s : contains old s = false -> replace old new s = s.
Proof.
  unfold replace. induction s as [|c s IH]; intros Hc.
  - cbn [replace_loop]. now rewrite (contains_startswith _ _ Hc).
  - cbn [replace_loop]. rewrite (contains_startswith _ _ Hc).
    f_equal. apply IH. eapply contains_tail, Hc.
Qed.

(** ** Stripping *)

Lemma dropwhile_head p s c t : dropwhile p s = c :: t -> p c = false.
Proof.
  induction s as [|d s IH]; cbn [dropwhile]; [discriminate|].
  destruct (p d) eqn:E; [exact IH|]. now intros [= <- _].
Qed.

Lemma dropwhile_fixed p s :
  match s with [] => True | c :: _ => p c = false end -> dropwhile p s = s.
Proof. destruct s as [|c s]; [reflexivity|]. cbn [dropwhile]. now intros ->. Qed.

Lemma dropwhile_idem p s : dropwhile p (dropwhile p s) = dropwhile p s.
Proof.
  apply dropwhile_fixed. destruct (dropwhile p s) as [|c t] eqn:E; [exact I|].
  eapply dropwhile_head, E.
Qed.

Lemma dropwhile_suffix p s : exists w, s = w ++ dropwhile p s.
Proof.
  induction s as [|c s [w IH]]; [now exists []|]. cbn [dropwhile].
  destruct (p c); [|now exists []]. exists (c :: w). cbn [app]. now f_equal.
Qed.

Lemma rstrip_prefix p s : exists w, s = rstrip p s ++ w.
Proof.
  unfold rstrip. destruct (dropwhile_suffix p (rev s)) as [w Hw].
  exists (rev w). rewrite <- rev_app_distr, <- Hw. now rewrite rev_involutive.
Qed.

Lemma rstrip_idem p s : rstrip p (rstrip p s) = rstrip p s.
Proof. unfold rstrip. now rewrite rev_involutive, dropwhile_idem. Qed.

Lemma lstrip_rstrip_lstrip p s :
  lstrip p (rstrip p (lstrip p s)) = rstrip p (lstrip p s).
Proof.
  unfold lstrip. apply dropwhile_fixed.
  destruct (rstrip_prefix p (dropwhile p s)) as [w Hw].
  destruct (rstrip p (dropwhile p s)) as [|c t]; [exact I|].
  eapply dropwhile_head. exact Hw.
Qed.

Lemma strip_idem p s : strip p (strip p s) = strip p s.
Proof. unfold strip. now rewrite lstrip_rstrip_lstrip, rstrip_idem. Qed.

Lemma strip_infix p s : exists a b, s = a ++ strip p s ++ b.
Proof.
  unfold strip, lstrip. destruct (dropwhile_suffix p s) as [a Ha].
  destruct (rstrip_prefix p (dropwhile p s)) as [b Hb].
  exists a, b. now rewrite <- Hb.
Qed.

Lemma contains_strip q p s : contains q s = false -> contains q (strip p s) = false.
Proof.
  destruct (strip_infix p s) as (a & b & E). intros Hc. rewrite E in Hc.
  clear E. induction a as [|c a IH].
  - eapply contains_app, Hc.
  - apply IH. eapply contains_tail, Hc.
Qed.

(** ** The loop of re.sub *)

(** Passing over [k] characters is going on from the text behind them. *)
Lemma sub_loop_skipn r f s k :
  k <= length s -> sub_loop r f s k = sub_loop r f (skipn k s) 0.
Proof.
  revert k. induction s as [|c s IH]; intros [|k] Hk; try reflexivity.
  - cbn [length] in Hk. lia.
  - cbn [sub_loop skipn]. apply IH. cbn [length] in Hk. lia.
Qed.


Lemma never_matches_tail r c s : never_matches r (c :: s) -> never_matches r s.
Proof. intros Hn n. exact (Hn (S n)). Qed.

Lemma never_matches_here r s : never_matches r s -> match_at r s = None.
Proof. intros Hn. exact (Hn 0). Qed.

Lemma sub_never r f s : never_matches r s -> re_sub_fn r f s = s.
Proof.
  unfold re_sub_fn. induction s as [|c s IH]; intros Hn; cbn [sub_loop].
  - now rewrite (never_matches_here _ _ Hn).
  - rewrite (never_matches_here _ _ Hn). f_equal. apply IH. eapply never_matches_tail, Hn.
Qed.

Lemma sub_st_never {St} r (f : Match -> St -> str * St) s st :
  never_matches r s -> re_sub_st r f s st = (s, st).
Proof.
  unfold re_sub_st. induction s as [|c s IH]; intros Hn; cbn [sub_loop_st].
  - now rewrite (never_matches_here _ _ Hn).
  - rewrite (never_matches_here _ _ Hn).
    rewrite IH by (eapply never_matches_tail, Hn). reflexivity.
Qed.

(** A pattern that opens with the literal character [c] does not match a
    text that opens otherwise. *)
Lemma exec_first_chr {R} c x y s pos caps (k : str -> nat -> captures -> option R) :
  startswith [c] s = false ->
  exec (Cat (Cat (Chr (is_chr c)) x) y) s pos caps k = None.
Proof.
  destruct s as [|d s]; [reflexivity|]. cbn [startswith exec]. unfold is_chr.
  rewrite andb_true_r. now intros ->.
Qed.


Lemma opens_with_never c r s :
  opens_with c r -> contains [c] s = false -> never_matches r s.
Proof.
  intros (x & y & ->) Hc n. unfold match_at. apply exec_first_chr.
  apply contains_startswith. now apply contains_skipn.
Qed.

(** ** Greedy repetition at the end of a pattern *)


Lemma skipn_run p s : skipn (run p s) s = dropwhile p s.
Proof.
  induction s as [|c s IH]; [reflexivity|]. cbn [run dropwhile].
  destruct (p c); [exact IH|reflexivity].
Qed.

Lemma run_le p s : run p s <= length s.
Proof.
  induction s as [|c s IH]; cbn [run length]; [lia|]. destruct (p c); lia.
Qed.

Lemma run_dropwhile p s : run p (dropwhile p s) = 0.
Proof.
  destruct (dropwhile p s) as [|c t] eqn:E; [reflexivity|].
  cbn [run]. now rewrite (dropwhile_head _ _ _ _ E).
Qed.

(** An unbounded greedy repetition followed by nothing takes the whole run,
    when the run is long enough. *)
Lemma rep_greedy_run {R} p lo s pos (g : str -> nat -> R) :
  rep true p lo None s pos (fun s' pos' => Some (g s' pos')) =
  if lo <=? run p s then Some (g (dropwhile p s) (pos + run p s)) else None.
Proof.
  revert lo pos. induction s as [|c s IH]; intros lo pos; cbn [rep run dropwhile].
  - destruct lo; cbn [orelse Nat.leb]; [now rewrite Nat.add_0_r|reflexivity].
  - destruct (p c).
    + cbn [option_map]. rewrite IH.
      destruct lo as [|lo]; cbn [pred Nat.leb].
      * cbn [orelse]. now rewrite Nat.add_succ_r.
      * destruct (lo <=? run p s); cbn [orelse]; [now rewrite Nat.add_succ_r|reflexivity].
    + destruct lo; cbn [orelse Nat.leb]; [now rewrite Nat.add_0_r|reflexivity].
Qed.

Lemma match_at_rep p lo s :
  match_at (Rep true lo None p) s =
  if lo <=? run p s then Some (mkMatch s (run p s) []) else None.
Proof.
  unfold match_at. cbn [exec].
  exact (rep_greedy_run p lo s 0 (fun _ pos' => mkMatch s pos' [])).
Qed.

(** One step of [re.sub] for such a pattern: a long enough run is replaced
    as a whole. *)
Lemma sub_rep_cons p lo f c s :
  re_sub_fn (Rep true lo None p) f (c :: s) =
  if lo <=? run p (c :: s)
  then if run p (c :: s) =? 0
       then f (mkMatch (c :: s) 0 []) ++ c :: re_sub_fn (Rep true lo None p) f s
       else f (mkMatch (c :: s) (run p (c :: s)) [])
            ++ re_sub_fn (Rep true lo None p) f (dropwhile p (c :: s))
  else c :: re_sub_fn (Rep true lo None p) f s.
Proof.
  unfold re_sub_fn. cbn [sub_loop]. rewrite match_at_rep.
  destruct (lo <=? run p (c :: s)); [|reflexivity]. cbn [m_len].
  destruct (run p (c :: s)) as [|n] eqn:E; [reflexivity|]. cbn [Nat.eqb].
  f_equal. rewrite <- skipn_run, E. cbn [skipn].
  apply sub_loop_skipn. pose proof (run_le p (c :: s)) as Hl.
  rewrite E in Hl. cbn [length] in Hl. lia.
Qed.

Lemma sub_rep_nil p lo f : 0 < lo -> re_sub_fn (Rep true lo None p) f [] = [].
Proof.
  intros Hlo. unfold re_sub_fn. cbn [sub_loop]. rewrite match_at_rep. cbn [run].
  destruct lo; [lia|reflexivity].
Qed.

End TextLemmas.

(** * The markup transformer *)

Section TransformerProofs.
Context `{Runtime}.

(** ** Runs of newlines *)



Lemma startswith_newlines k s : startswith (repeat c_nl k) s = (k <=? nlrun s).
Proof.
  revert s. induction k as [|k IH]; intros s; [reflexivity|].
  destruct s as [|c s]; [reflexivity|]. cbn [repeat startswith]. unfold nlrun. cbn [run].
  unfold is_chr at 1. destruct (N.eqb c_nl c); [|reflexivity].
  cbn [andb Nat.leb]. apply IH.
Qed.

Lemma no3_nil : no3 [].
Proof. reflexivity. Qed.

Lemma no3_cons c s :
  no3 (c :: s) <-> no3 s /\ (is_chr c_nl c = true -> nlrun s < 2).
Proof.
  unfold no3. rewrite contains_cons, orb_false_iff.
  change (startswith [c_nl; c_nl; c_nl] (c :: s))
    with (N.eqb c_nl c && startswith (repeat c_nl 2) s).
  rewrite startswith_newlines.
  unfold is_chr. destruct (N.eqb c_nl c); cbn [andb].
  - rewrite Nat.leb_gt. intuition.
  - intuition. discriminate.
Qed.

Lemma no3_skipn n s : no3 s -> no3 (skipn n s).
Proof. apply contains_skipn. Qed.

Lemma nlrun_cons c s : nlrun (c :: s) = if is_chr c_nl c then S (nlrun s) else 0.
Proof. reflexivity. Qed.

(** The rule [\n{3,}] leaves no run of three newlines, and does not lengthen
    the run at the start. *)
Lemma collapse_newlines_no3 s :
  no3 (re_sub newlines_re [TLit [c_nl; c_nl]] s)
  /\ nlrun (re_sub newlines_re [TLit [c_nl; c_nl]] s) = Nat.min (nlrun s) 2.
Proof.
  remember (length s) as n eqn:Hn. assert (Hl : length s <= n) by lia. clear Hn.
  revert s Hl. induction n as [|n IH]; intros s Hl.
  - destruct s; [|cbn [length] in Hl; lia]. split; reflexivity.
  - destruct s as [|c s]; [split; reflexivity|].
    cbn [length] in Hl. unfold re_sub, newlines_re. rewrite sub_rep_cons.
    fold (nlrun (c :: s)). rewrite (nlrun_cons c s).
    destruct (is_chr c_nl c) eqn:Ec.
    + destruct (3 <=? S (nlrun s)) eqn:E3.
      * cbn [Nat.eqb expand flat_map app].
        apply Nat.leb_le in E3.
        destruct (IH (dropwhile (is_chr c_nl) (c :: s))) as [I1 I2].
        { destruct (dropwhile_suffix (is_chr c_nl) (c :: s)) as [w Hw].
          cbn [dropwhile] in *. rewrite Ec in *.
          pose proof (f_equal (@length _) (skipn_run (is_chr c_nl) s)) as Hk.
          rewrite length_skipn in Hk. lia. }
        unfold nlrun in I2 at 2. rewrite run_dropwhile in I2. cbn [Nat.min] in I2.
        unfold re_sub, newlines_re in I1, I2. split.
        -- apply no3_cons. split.
           ++ apply no3_cons. split; [exact I1|]. intros _. rewrite I2. lia.
           ++ intros _. rewrite nlrun_cons. change (is_chr c_nl c_nl) with true.
              rewrite I2. lia.
        -- rewrite !nlrun_cons. change (is_chr c_nl c_nl) with true.
           rewrite I2. lia.
      * apply Nat.leb_gt in E3. destruct (IH s) as [I1 I2]; [lia|].
        unfold re_sub, newlines_re in I1, I2. split.
        -- apply no3_cons. split; [exact I1|]. intros _. rewrite I2. lia.
        -- rewrite nlrun_cons, Ec, I2. lia.
    + cbn [Nat.leb]. destruct (IH s) as [I1 I2]; [lia|].
      unfold re_sub, newlines_re in I1. split.
      * apply no3_cons. split; [exact I1|]. rewrite Ec. discriminate.
      * now rewrite nlrun_cons, Ec.
Qed.

(** A text without a run of three newlines is left as it is by that rule. *)
Lemma collapse_newlines_fixed tpl s : no3 s -> re_sub newlines_re tpl s = s.
Proof.
  intros Hs. apply sub_never. intros n. unfold newlines_re. rewrite match_at_rep.
  fold (nlrun (skipn n s)). rewrite <- (startswith_newlines 3).
  change (repeat c_nl 3) with [c_nl; c_nl; c_nl].
  now rewrite (contains_startswith _ _ (no3_skipn n s Hs)).
Qed.

(** Replacing an entity by one character other than the newline makes no
    new run of newlines. *)
Lemma replace_loop_no3 old x s skip :
  is_chr c_nl x = false ->
  no3 s ->
  no3 (replace_loop old [x] s skip)
  /\ (skip = 0 -> nlrun (replace_loop old [x] s 0) <= nlrun s).
Proof.
  intros Hx. revert skip. induction s as [|c s IH]; intros skip Hs.
  - destruct skip; cbn [replace_loop].
    + destruct (startswith old []); split; try reflexivity; try (intros _; cbn; lia).
      * apply no3_cons. split; [apply no3_nil|]. now rewrite Hx.
      * rewrite nlrun_cons, Hx. lia.
    + split; [apply no3_nil|discriminate].
  - apply no3_cons in Hs as [Hs Hc]. destruct skip as [|k]; cbn [replace_loop].
    + destruct (startswith old (c :: s)).
      * cbn [app]. split.
        -- apply no3_cons. rewrite Hx. split; [|discriminate].
           destruct (length old) as [|m].
           ++ apply no3_cons. split; [apply (IH 0 Hs)|].
              intros Ec. destruct (IH 0 Hs) as [_ Hr]. specialize (Hr eq_refl).
              specialize (Hc Ec). lia.
           ++ apply (IH m Hs).
        -- intros _. rewrite nlrun_cons, Hx. lia.
      * split.
        -- apply no3_cons. split; [apply (IH 0 Hs)|].
           intros Ec. destruct (IH 0 Hs) as [_ Hr]. specialize (Hr eq_refl).
           specialize (Hc Ec). lia.
        -- intros _. rewrite !nlrun_cons. destruct (is_chr c_nl c); [|lia].
           destruct (IH 0 Hs) as [_ Hr]. specialize (Hr eq_refl). lia.
    + split; [apply (IH k Hs)|discriminate].
Qed.

Lemma replace_no3 old x s : is_chr c_nl x = false -> no3 s -> no3 (replace old [x] s).
Proof. intros Hx Hs. now apply replace_loop_no3. Qed.

(** ** The rules on a text without markup *)

Lemma opens_element name : opens_with c_lt (element_re name).
Proof. eexists _, _. reflexivity. Qed.

Lemma opens_embed name : opens_with c_lt (embed_re name).
Proof. eexists _, _. reflexivity. Qed.

Lemma heading_plain s level : contains [c_lt] s = false -> heading s level = s.
Proof.
  intros Hs. unfold heading, re_sub. apply sub_never.
  eapply opens_with_never; [apply opens_element|exact Hs].
Qed.

Lemma restore_nil kind s : restore kind [] s = s.
Proof. reflexivity. Qed.


Lemma html_to_markdown_cleanup s : exists x, html_to_markdown s = cleanup x.
Proof.
  unfold html_to_markdown. destruct s as [|c s]; [now exists []|].
  cbv zeta.
  repeat match goal with
         | |- context [re_sub_st ?r ?f ?t ?st] => destruct (re_sub_st r f t st)
         end.
  eexists. reflexivity.
Qed.

Lemma cleanup_no3 s : no3 (cleanup s).
Proof.
  unfold cleanup. apply contains_strip.
  repeat (apply replace_no3; [reflexivity|]).
  apply collapse_newlines_no3.
Qed.

Lemma cleanup_stripped s : strip is_space (cleanup s) = cleanup s.
Proof. unfold cleanup. apply strip_idem. Qed.

(** On a text without [<], without [&] and without a run of three newlines
    only the final strip is left of the function. *)
Lemma html_to_markdown_plain s :
  contains [c_lt] s = false -> contains [c_amp] s = false ->
  contains (u "]]>") s = false -> no3 s ->
  html_to_markdown s = strip is_space s.
Proof.
  intros Hlt Hamp Hcd Hnl. unfold html_to_markdown.
  destruct s as [|c0 s0]; [reflexivity|].
  remember (c0 :: s0) as s eqn:Es. clear Es c0 s0.
  cbv zeta. unfold unescape. rewrite Hamp. cbn [negb].
  rewrite (replace_absent (u "<![CDATA[") [] s) by (now apply contains_first).
  rewrite (replace_absent (u "]]>") [] s) by assumption.
  cbn [seq fold_left]. rewrite !(heading_plain s) by assumption.
  rewrite !(sub_never (element_re _) _ s)
    by (eapply opens_with_never; [apply opens_element|assumption]).
  unfold re_sub.
  rewrite !(sub_never (element_re _) _ s)
    by (eapply opens_with_never; [apply opens_element|assumption]).
  rewrite (sub_never link_re _ s)
    by (eapply opens_with_never; [eexists _, _; reflexivity|assumption]).
  rewrite (sub_never img_alt_re _ s)
    by (eapply opens_with_never; [eexists _, _; reflexivity|assumption]).
  rewrite (sub_never img_re _ s)
    by (eapply opens_with_never; [eexists _, _; reflexivity|assumption]).
  rewrite (sub_never br_re _ s)
    by (eapply opens_with_never; [eexists _, _; reflexivity|assumption]).
  rewrite !(sub_never (element_re _) _ s)
    by (eapply opens_with_never; [apply opens_element|assumption]).
  rewrite (sub_st_never (embed_re (u "iframe")) _ s [])
    by (eapply opens_with_never; [apply opens_embed|assumption]).
  rewrite (sub_st_never (embed_re (u "script")) _ s [])
    by (eapply opens_with_never; [apply opens_embed|assumption]).
  rewrite (sub_never tag_re _ s)
    by (eapply opens_with_never; [eexists _, _; reflexivity|assumption]).
  rewrite !restore_nil.
  fold (re_sub newlines_re [TLit [c_nl; c_nl]] s).
  rewrite (collapse_newlines_fixed _ s Hnl).
  rewrite (replace_absent (u "&nbsp;") _ s) by (now apply contains_first).
  rewrite (replace_absent (u "&amp;") _ s) by (now apply contains_first).
  rewrite (replace_absent (u "&quot;") _ s) by (now apply contains_first).
  rewrite (replace_absent (u "&lt;") _ s) by (now apply contains_first).
  rewrite (replace_absent (u "&gt;") _ s) by (now apply contains_first).
  reflexivity.
Qed.

End TransformerProofs.

(** * Slugs *)

Section SlugProofs.
Context `{Runtime}.

Lemma sub_chr_filter p s :
  re_sub (Chr p) [] s = List.filter (fun c => negb (p c)) s.
Proof.
  unfold re_sub, re_sub_fn. induction s as [|c s IH]; [reflexivity|].
  cbn [sub_loop List.filter]. unfold match_at. cbn [exec].
  destruct (p c); cbn [negb m_len expand flat_map app]; [exact IH|now f_equal].
Qed.

Lemma collapse_runs_separator c s :
  separator c = true ->
  collapse_runs (c :: s) = c_hyphen :: collapse_runs (dropwhile separator s).
Proof.
  revert c. induction s as [|d s IH]; intros c Hc; cbn [collapse_runs]; rewrite Hc.
  - reflexivity.
  - cbn [dropwhile]. destruct (separator d) eqn:Hd.
    + rewrite <- (IH d Hd). cbn [collapse_runs]. now rewrite Hd.
    + cbn [collapse_runs]. now rewrite Hd.
Qed.

Lemma length_dropwhile p (s : str) : length (dropwhile p s) <= length s.
Proof.
  induction s as [|c s IH]; cbn [dropwhile length]; [lia|].
  destruct (p c); cbn [length]; lia.
Qed.

(** The rule [[-\s]+] collapses every run of separators into one hyphen. *)
Lemma sub_separators s :
  re_sub separators_re [TLit (u "-")] s = collapse_runs s.
Proof.
  remember (length s) as n eqn:Hn. assert (Hl : length s <= n) by lia. clear Hn.
  revert s Hl. induction n as [|n IH]; intros s Hl.
  - destruct s; [reflexivity|cbn [length] in Hl; lia].
  - destruct s as [|c s]; [reflexivity|]. cbn [length] in Hl.
    unfold re_sub, separators_re, plus. rewrite sub_rep_cons.
    change (fun c0 : N => is_chr c_hyphen c0 || is_space c0) with separator.
    cbn [run dropwhile]. destruct (separator c) eqn:Hc.
    + cbn [Nat.leb Nat.eqb expand flat_map].
      rewrite (collapse_runs_separator c s Hc).
      change (u "-" ++ []) with [c_hyphen]. cbn [app]. f_equal.
      specialize (IH (dropwhile separator s)).
      unfold re_sub, separators_re, plus in IH.
      apply IH. pose proof (length_dropwhile separator s). lia.
    + cbn [Nat.leb collapse_runs]. rewrite Hc. f_equal.
      specialize (IH s). unfold re_sub, separators_re, plus in IH.
      apply IH. lia.
Qed.

Lemma sanitize_filename_slug_spec title :
  sanitize_filename title = slug_spec kept title.
Proof.
  unfold sanitize_filename, slug_spec, unsafe_re.
  rewrite sub_chr_filter, sub_separators. do 2 f_equal.
  apply filter_ext. intros c. apply negb_involutive.
Qed.

Lemma in_strip p c s : In c (strip p s) -> In c s.
Proof.
  destruct (strip_infix p s) as (a & b & E). intros Hc. rewrite E.
  apply in_or_app. right. apply in_or_app. now left.
Qed.

Lemma in_collapse_runs c s :
  In c (collapse_runs s) -> c = c_hyphen \/ (In c s /\ separator c = false).
Proof.
  induction s as [|d s IH]; cbn [collapse_runs]; [intros []|].
  destruct (separator d) eqn:Hd.
  - destruct s as [|e s]; [intros [<-|[]]; now left|].
    destruct (separator e).
    + intros Hc. destruct (IH Hc) as [->|[Hi Hs]]; [now left|right].
      split; [now right|exact Hs].
    + intros [<-|Hc]; [now left|].
      destruct (IH Hc) as [->|[Hi Hs]]; [now left|right].
      split; [now right|exact Hs].
  - intros [<-|Hc]; [right; split; [now left|exact Hd]|].
    destruct (IH Hc) as [->|[Hi Hs]]; [now left|right].
    split; [now right|exact Hs].
Qed.

Lemma single_hyphens_other c s :
  is_chr c_hyphen c = false -> single_hyphens (c :: s) = single_hyphens s.
Proof.
  intros Hc. cbn [single_hyphens]. destruct s as [|d s]; [reflexivity|].
  now rewrite Hc.
Qed.

Lemma separator_hyphen c : separator c = false -> is_chr c_hyphen c = false.
Proof. unfold separator. now intros [? _]%orb_false_iff. Qed.

Lemma single_hyphens_collapse s : single_hyphens (collapse_runs s) = true.
Proof.
  induction s as [|c s IH]; [reflexivity|]. cbn [collapse_runs].
  destruct (separator c) eqn:Hc.
  - destruct s as [|d s]; [reflexivity|].
    destruct (separator d) eqn:Hd; [exact IH|].
    assert (E : collapse_runs (d :: s) = d :: collapse_runs s)
      by (cbn [collapse_runs]; now rewrite Hd).
    rewrite E in *.
    change (single_hyphens (c_hyphen :: d :: collapse_runs s))
      with (negb (is_chr c_hyphen c_hyphen && is_chr c_hyphen d)
            && single_hyphens (d :: collapse_runs s)).
    rewrite (separator_hyphen d Hd), andb_false_r. exact IH.
  - rewrite single_hyphens_other by (now apply separator_hyphen). exact IH.
Qed.

Lemma single_hyphens_tail c s : single_hyphens (c :: s) = true -> single_hyphens s = true.
Proof.
  cbn [single_hyphens]. destruct s as [|d s]; [reflexivity|].
  now intros [_ ?]%andb_true_iff.
Qed.

Lemma single_hyphens_prefix a b : single_hyphens (a ++ b) = true -> single_hyphens a = true.
Proof.
  induction a as [|c a IH]; [reflexivity|].
  destruct a as [|d a]; [reflexivity|].
  cbn [app single_hyphens] in *. intros [Hp Ht]%andb_true_iff.
  rewrite Hp. cbn [andb]. now apply IH.
Qed.

Lemma single_hyphens_strip p s :
  single_hyphens s = true -> single_hyphens (strip p s) = true.
Proof.
  destruct (strip_infix p s) as (a & b & E). intros Hs. rewrite E in Hs. clear E.
  induction a as [|c a IH].
  - eapply single_hyphens_prefix, Hs.
  - apply IH. eapply single_hyphens_tail, Hs.
Qed.

Lemma startswith_one c s :
  match s with [] => True | d :: _ => is_chr c d = false end ->
  startswith [c] s = false.
Proof.
  destruct s as [|d s]; [reflexivity|]. cbn [startswith]. unfold is_chr.
  now intros ->.
Qed.

Lemma interior_strip s : interior_hyphens (strip (is_chr c_hyphen) s) = true.
Proof.
  unfold interior_hyphens. apply andb_true_iff. split; apply negb_true_iff.
  - apply startswith_one.
    pose proof (lstrip_rstrip_lstrip (is_chr c_hyphen) s) as E.
    fold (strip (is_chr c_hyphen) s) in E. unfold lstrip in E.
    destruct (strip (is_chr c_hyphen) s) as [|d t]; [exact I|].
    eapply dropwhile_head, E.
  - apply startswith_one. unfold strip, rstrip. rewrite rev_involutive.
    destruct (dropwhile _ _) as [|d t] eqn:E; [exact I|].
    eapply dropwhile_head, E.
Qed.

(** On ASCII text, lower-casing leaves no capital letter. *)
Lemma lower_ascii_text (s : str) (c : char) :
  forallb is_ascii s = true -> In c (lower s) -> is_upper_ascii c = false.
Proof.
  intros Ha. unfold lower. rewrite Ha. intros (d & <- & _)%in_map_iff.
  unfold lower_ascii, is_upper_ascii, between.
  destruct ((65 <=? d)%N && (d <=? 90)%N) eqn:E; [|exact E].
  apply andb_true_iff in E as [E1 E2].
  apply N.leb_le in E1, E2. apply andb_false_iff. right. apply N.leb_gt. lia.
Qed.

End SlugProofs.

(** C8, as amended. The slug of a title is the title lower-cased, with every
    character removed that is not a letter, a digit, the underscore,
    whitespace or a hyphen, every run of whitespace and hyphens collapsed
    into one hyphen, and the hyphens at the two ends trimmed. Its characters
    are word characters (letters, digits, the underscore) of the lower-cased
    title and hyphens; no two hyphens are adjacent and none is at an end. *)
Theorem sanitize_filename_spec `{Runtime} (title : str) :
  sanitize_filename title = slug_spec kept title
  /\ Forall (fun c => c = c_hyphen \/ (is_word c = true /\ In c (lower title)))
            (sanitize_filename title)
  /\ single_hyphens (sanitize_filename title) = true
  /\ interior_hyphens (sanitize_filename title) = true.
Proof.
  rewrite sanitize_filename_slug_spec. unfold slug_spec.
  split; [reflexivity|]. split; [|split].
  - apply List.Forall_forall. intros c Hc.
    apply in_strip, in_collapse_runs in Hc as [->|[Hc Hs]]; [now left|right].
    apply filter_In in Hc as [Hc Hk]. split; [|exact Hc].
    unfold kept in Hk. unfold separator in Hs.
    apply orb_false_iff in Hs as [Hh Hw]. rewrite Hh, Hw, !orb_false_r in Hk.
    exact Hk.
  - apply single_hyphens_strip, single_hyphens_collapse.
  - apply interior_strip.
Qed.

(** C8, as stated, fails on a title with an underscore: the specification
    removes it, the code keeps it. *)
Lemma sanitize_keeps_underscore :
  @sanitize_filename latin1_runtime (u "a_b") = u "a_b"
  /\ @slug_spec latin1_runtime (@kept_by_spec latin1_runtime) (u "a_b") = u "ab"
  /\ @sanitize_filename latin1_runtime (u "a_b")
     <> @slug_spec latin1_runtime (@kept_by_spec latin1_runtime) (u "a_b").
Proof. vm_compute. repeat split; discriminate. Qed.

(** * The transformer on its own output, and worked inputs *)

(** The output for an iframe with nested bold markup still holds a [<b>]
    element, which a second pass rewrites. *)
Example second_pass_rewrites_embedded_markup :
  @html_to_markdown latin1_runtime nested_bold_iframe = u "<iframe>**<b>x**</b></iframe>"
  /\ @html_to_markdown latin1_runtime (@html_to_markdown latin1_runtime nested_bold_iframe)
     = u "<iframe>****x****</iframe>"
  /\ without_space (@html_to_markdown latin1_runtime
                      (@html_to_markdown latin1_runtime nested_bold_iframe))
     <> without_space (@html_to_markdown latin1_runtime nested_bold_iframe).
Proof. vm_compute. repeat split; discriminate. Qed.

(** C3. The heading rule writes no line break behind the heading, where the
    rules for the other blocks do: the input
    [<h2>Hello</h2><p>World <strong>bold</strong></p>] is mapped to
    [## HelloWorld **bold**], and not to [## Hello], a blank line and
    [World **bold**]. *)
Theorem heading_paragraph_output `{Runtime} :
  html_to_markdown heading_paragraph = u "## HelloWorld **bold**"
  /\ html_to_markdown heading_paragraph
     <> u "## Hello" ++ [c_nl; c_nl] ++ u "World **bold**".
Proof. vm_compute. split; [reflexivity|discriminate]. Qed.

(** Two headings in a row come out on one line, while a block quote, a list
    and a paragraph each end their line. *)
Example adjacent_blocks `{Runtime} :
  html_to_markdown (u "<h2>A</h2><h3>B</h3>") = u "## A### B"
  /\ html_to_markdown (u "<blockquote>A</blockquote><h3>B</h3>")
     = u "> A" ++ [c_nl] ++ u "### B"
  /\ html_to_markdown (u "<ul><li>A</li></ul><h3>B</h3>") = u "- A" ++ [c_nl] ++ u "### B"
  /\ html_to_markdown (u "<p>A</p><h3>B</h3>") = u "A" ++ [c_nl; c_nl] ++ u "### B".
Proof. vm_compute. repeat split. Qed.

(** C1. An iframe block followed by an italic element: the pattern of the
    italic rule, [<i[^>]*>], takes the opening tag of the iframe for its own,
    and nothing of the block is left in the output. *)
Theorem iframe_before_italic_is_lost `{Runtime} :
  embedded_block (u "iframe") iframe_v = Some iframe_v
  /\ html_to_markdown (iframe_v ++ u "<i>x</i>") = u "*x*"
  /\ contains iframe_v (html_to_markdown (iframe_v ++ u "<i>x</i>")) = false.
Proof. vm_compute. repeat split. Qed.

(** Markup inside a block is rewritten before the block is saved. *)
Lemma iframe_inner_markup_is_rewritten `{Runtime} :
  html_to_markdown (u "<iframe><p>a</p></iframe>")
  = u "<iframe>a" ++ [c_nl; c_nl] ++ u "</iframe>".
Proof. vm_compute. reflexivity. Qed.

Lemma script_inner_markup_is_rewritten `{Runtime} :
  html_to_markdown (u "<script>a='<p>x</p>'</script>")
  = u "<script>a='x" ++ [c_nl; c_nl] ++ u "'</script>".
Proof. vm_compute. reflexivity. Qed.

(** A block that no earlier rule touches comes out as it went in, inner
    tags included. *)
Lemma iframe_alone_is_preserved `{Runtime} :
  html_to_markdown (u "<p>Hi</p><iframe src='v'><div>x</div></iframe>")
  = u "Hi" ++ [c_nl; c_nl] ++ u "<iframe src='v'><div>x</div></iframe>".
Proof. vm_compute. reflexivity. Qed.

(** C10. The markers are plain text: for a body made of the literal text
    [___IFRAME_0___], a space and one iframe block, the restoration replaces
    both occurrences of the marker by the block, which then stands twice in
    the output, and the literal marker of the input is gone. *)
Theorem marker_collision `{Runtime} :
  exists body block : str,
    body = marker (u "IFRAME") 0 ++ u " " ++ block
    /\ embedded_block (u "iframe") block = Some block
    /\ count (u "<iframe") body = 1
    /\ html_to_markdown body = block ++ [c_nl; c_nl] ++ u " " ++ [c_nl; c_nl] ++ block
    /\ count block (html_to_markdown body) = 2
    /\ contains (marker (u "IFRAME") 0) (html_to_markdown body) = false.
Proof.
  exists (u "___IFRAME_0___ <iframe src='x'></iframe>"), (u "<iframe src='x'></iframe>").
  vm_compute. repeat split.
Qed.

(** The other worked inputs of the specification. *)
Example unordered_list `{Runtime} :
  html_to_markdown (u "<ul><li>A</li><li>B</li></ul>") = u "- A" ++ [c_nl] ++ u "- B".
Proof. vm_compute. reflexivity. Qed.

Example ordered_list `{Runtime} :
  html_to_markdown (u "<ol><li>A</li><li> B </li></ol>") = u "1. A" ++ [c_nl] ++ u "2. B".
Proof. vm_compute. reflexivity. Qed.

Example link `{Runtime} :
  html_to_markdown (u "<a href='https://x.com'>click</a>") = u "[click](https://x.com)".
Proof. vm_compute. reflexivity. Qed.

Example image_with_alt `{Runtime} :
  html_to_markdown (u "<img src='a.png' alt='cat'/>") = u "![cat](a.png)".
Proof. vm_compute. reflexivity. Qed.

Example image_without_alt `{Runtime} :
  html_to_markdown (u "<img src='a.png'/>") = u "![](a.png)".
Proof. vm_compute. reflexivity. Qed.

(** Outputs that a second pass does change: a doubly escaped tag, which the
    cleanup decodes into a tag; a doubly escaped entity, which it decodes
    into an entity; a CDATA closing marker put together by the removal of
    another. *)
Example double_escaped_tag :
  @html_to_markdown latin1_runtime (u "&amp;lt;p&amp;gt;x") = u "<p>x"
  /\ @html_to_markdown latin1_runtime (u "<p>x") = u "x".
Proof. vm_compute. split; reflexivity. Qed.

Example double_escaped_entity :
  @html_to_markdown latin1_runtime (u "&amp;amp;nbsp;x") = u "&nbsp;x"
  /\ @html_to_markdown latin1_runtime (u "&nbsp;x") = u "x".
Proof. vm_compute. split; reflexivity. Qed.

Example cdata_marker_left `{Runtime} :
  html_to_markdown (u "a]]]]>>b") = u "a]]>b"
  /\ html_to_markdown (u "a]]>b") = u "ab".
Proof. vm_compute. split; reflexivity. Qed.

(** * Worked documents *)

(** C9. An item whose [content:encoded] element is present without text: the
    value under [content] is [None], not the empty text, while a missing
    date or slug element gives the empty text. *)
Theorem empty_content_element_gives_none :
  map content (parse_wordpress_xml doc_empty_content None None) = [None]
  /\ map date (parse_wordpress_xml doc_empty_content None None) = [Some []]
  /\ map slug (parse_wordpress_xml doc_empty_content None None) = [Some []]
  /\ map title (parse_wordpress_xml doc_empty_content None None) = [u "A"].
Proof. vm_compute. repeat split. Qed.

Lemma parse_title_type_nonempty_witness :
  In post_bare (parse_wordpress_xml doc_bare None None)
  /\ ((title post_bare <> [] /\ type post_bare <> [])
      /\ exists item,
           In item (items doc_bare) /\ post_bare = post_of doc_bare item
           /\ (lacks_text (find_child (u "title") item) = true
               -> title post_bare = u "Untitled")
           /\ (lacks_text (find_child
                             (qname (ns_wp (_detect_wp_namespace doc_bare)) (u "post_type"))
                             item) = true
               -> type post_bare = u "post")).
Proof.
  split.
  - vm_compute. left. reflexivity.
  - apply (parse_title_type_nonempty doc_bare None None post_bare).
    vm_compute. left. reflexivity.
Defined.

(** An item without [post_type] is kept by a filter on the default type. *)
Example default_type_selected :
  parse_wordpress_xml doc_bare (Some {[ u "post" ]}) None = [post_bare]
  /\ parse_wordpress_xml doc_bare (Some {[ u "page" ]}) None = [].
Proof. vm_compute. split; reflexivity. Qed.

(** * Further properties of the export reader *)

Section ReaderExtras.

Lemma collect_terms_fold cats cs ts :
  fold_left (fun '(categories, tags) cat =>
               let domain := default [] (attrib cat !! u "domain") in
               let text := default [] (text cat) in
               if str_eqb domain (u "category") then (categories ++ [text], tags)
               else if str_eqb domain (u "post_tag") then (categories, tags ++ [text])
               else (categories, tags))
            cats (cs, ts)
  = (cs ++ map term_text (List.filter (in_domain (u "category")) cats),
     ts ++ map term_text (List.filter (in_domain (u "post_tag")) cats)).
Proof.
  revert cs ts. induction cats as [|cat cats IH]; intros cs ts; cbn [fold_left List.filter map].
  - now rewrite !app_nil_r.
  - unfold in_domain, term_domain. cbv zeta.
    destruct (str_eqb (default [] (attrib cat !! u "domain")) (u "category")) eqn:Ec;
      destruct (str_eqb (default [] (attrib cat !! u "domain")) (u "post_tag")) eqn:Et;
      rewrite IH; cbn [map]; rewrite <- ?app_assoc; try reflexivity.
    exfalso. unfold str_eqb in Ec, Et.
    destruct (decide _) as [E1|]; [|discriminate].
    destruct (decide _) as [E2|]; [|discriminate].
    rewrite E1 in E2. discriminate.
Qed.

(** X1. The categories of a post are the texts of the [category] children of
    its item whose [domain] attribute is [category], in the order of the
    document, and its tags those whose domain is [post_tag]; a child with
    any other domain, or with none, is in neither list, and a child without
    text gives the empty text. *)
Theorem categories_and_tags_by_domain (ns : Namespaces) (item : Element) (ptype st : str) :
  categories (extract_fields ns item ptype st)
  = map term_text (List.filter (in_domain (u "category")) (findall_child (u "category") item))
  /\ tags (extract_fields ns item ptype st)
     = map term_text (List.filter (in_domain (u "post_tag")) (findall_child (u "category") item)).
Proof.
  unfold extract_fields, collect_terms. rewrite collect_terms_fold. split; reflexivity.
Qed.

Lemma post_of_type root item :
  type (post_of root item) = item_type (_detect_wp_namespace root) item.
Proof. unfold post_of. apply extract_fields_type. Qed.

Lemma post_of_status root item :
  status (post_of root item) = item_status (_detect_wp_namespace root) item.
Proof. unfold post_of, extract_fields. now destruct (collect_terms item). Qed.

(** X2. The fields of the posts obey the filters: the [type] of every
    returned post is a member of the type filter and its [status] a member of
    the status filter, when the filter is given. *)
Theorem returned_posts_obey_filters (root : Element) (T S : option (gset str)) (p : Post) :
  In p (parse_wordpress_xml root T S) ->
  member_or_unrestricted (type p) T /\ member_or_unrestricted (status p) S.
Proof.
  rewrite parse_as_selected. intros (item & <- & Hitem)%in_map_iff.
  apply selected_iff in Hitem as (_ & HT & HS).
  now rewrite post_of_type, post_of_status.
Qed.

Lemma filter_all {A} (l : list A) : List.filter (fun _ => true) l = l.
Proof. induction l as [|x l IH]; cbn [List.filter]; [reflexivity|now f_equal]. Qed.

Lemma filter_length_le {A} (f : A -> bool) (l : list A) :
  length (List.filter f l) <= length l.
Proof.
  induction l as [|x l IH]; cbn [List.filter length]; [lia|].
  destruct (f x); cbn [length]; lia.
Qed.

(** X3. Without filters the reader returns one post for every [item] element
    of the document, nested ones included, in document order; with filters
    it returns at most that many. *)
Theorem one_post_per_item (root : Element) (T S : option (gset str)) :
  parse_wordpress_xml root None None = map (post_of root) (items root)
  /\ length (parse_wordpress_xml root T S) <= length (items root).
Proof.
  rewrite !parse_as_selected. split.
  - unfold selected, member_or_unrestricted. f_equal. apply filter_all.
  - rewrite length_map. unfold selected. apply filter_length_le.
Qed.

Lemma detect_ns_wp root :
  ns_wp (_detect_wp_namespace root) =
  match find export_family (iter root) with
  | Some e => default [] (namespace_uri e)
  | None => default_version
  end.
Proof.
  unfold _detect_wp_namespace. cbn [ns_wp]. rewrite scan_tags_find.
  destruct (find export_family (iter root)) as [e|] eqn:E.
  - apply find_some in E as [_ E]. apply export_family_uri_nonempty in E.
    destruct (default [] (namespace_uri e)); [congruence|reflexivity].
  - rewrite probe_versions_find, (probe_is_vacuous root E). reflexivity.
Qed.

(** X4. The detection has two outcomes only: the namespace read off the
    first element of the export family in the walk of the tree, or, when the
    tree has no such element, the default version; the probe of the known
    versions never decides. *)
Theorem detection_has_two_outcomes (root : Element) :
  ns_wp (_detect_wp_namespace root) =
  match find export_family (iter root) with
  | Some e => default [] (namespace_uri e)
  | None => u "http://wordpress.org/export/1.2/"
  end.
Proof. apply detect_ns_wp. Qed.

(** X5. Whatever the document, the resolved export namespace contains
    [wordpress.org/export]; in particular it is never empty. *)
Theorem resolved_namespace_in_family (root : Element) :
  contains (u "wordpress.org/export") (ns_wp (_detect_wp_namespace root)) = true
  /\ ns_wp (_detect_wp_namespace root) <> [].
Proof.
  assert (Hc : contains (u "wordpress.org/export") (ns_wp (_detect_wp_namespace root)) = true).
  { rewrite detect_ns_wp. destruct (find export_family (iter root)) as [e|] eqn:E.
    - apply find_some in E as [_ E]. unfold export_family in E.
      destruct (namespace_uri e); [exact E|discriminate].
    - reflexivity. }
  split; [exact Hc|]. eapply contains_nonempty, Hc. discriminate.
Qed.

End ReaderExtras.

(** * Further properties of the markup transformer and of the slugs *)

Section TransformerExtras.
Context `{Runtime}.

(** X6. Whatever the input, the output has no run of three newlines and no
    whitespace at either end. *)
Theorem output_is_tidy (s : str) :
  contains [c_nl; c_nl; c_nl] (html_to_markdown s) = false
  /\ strip is_space (html_to_markdown s) = html_to_markdown s.
Proof.
  destruct (html_to_markdown_cleanup s) as [x ->]. split.
  - apply cleanup_no3.
  - apply cleanup_stripped.
Qed.

(** X7. A text without [<], without [&], without the CDATA closing marker and
    without a run of three newlines is plain text for the transformer: it
    comes out as it is, only stripped of the whitespace at its ends. *)
Theorem plain_text_is_only_stripped (s : str) :
  contains [c_lt] s = false ->
  contains [c_amp] s = false ->
  contains (u "]]>") s = false ->
  contains [c_nl; c_nl; c_nl] s = false ->
  html_to_markdown s = strip is_space s.
Proof. intros Hlt Hamp Hcd Hnl. now apply html_to_markdown_plain. Qed.

(** ** The residual tag stripping *)

(** A greedy repetition followed by a continuation that refuses every text
    opening with a character of the class: the repetition takes the whole
    run, and the continuation decides. *)
Lemma rep_greedy_guarded {R} p lo s pos (k : str -> nat -> option R) :
  (forall c s' pos', p c = true -> k (c :: s') pos' = None) ->
  rep true p lo None s pos k =
  if lo <=? run p s then k (dropwhile p s) (pos + run p s) else None.
Proof.
  intros Hk. revert lo pos. induction s as [|c s IH]; intros lo pos; cbn [rep run dropwhile].
  - destruct lo; cbn [orelse Nat.leb]; [now rewrite Nat.add_0_r|reflexivity].
  - destruct (p c) eqn:Hc.
    + cbn [option_map]. rewrite IH. destruct lo as [|lo]; cbn [pred Nat.leb].
      * rewrite Nat.add_succ_r. cbn [Nat.add].
        destruct (k (dropwhile p s) (S (pos + run p s))); cbn [orelse]; [reflexivity|].
        now apply Hk.
      * rewrite Nat.add_succ_r. cbn [Nat.add].
        destruct (lo <=? run p s); [|reflexivity].
        now destruct (k (dropwhile p s) (S (pos + run p s))).
    + destruct lo; cbn [orelse Nat.leb]; [now rewrite Nat.add_0_r|reflexivity].
Qed.

(** Where the tag pattern matches: at a [<] followed by at least one
    character other than [>] and then by a [>]. *)
Lemma match_at_tag s :
  match_at tag_re s =
  match s with
  | c :: s' =>
      if N.eqb c_lt c && (1 <=? run (not_chr c_gt) s')
         && startswith [c_gt] (dropwhile (not_chr c_gt) s')
      then Some (mkMatch s (S (S (run (not_chr c_gt) s'))) [])
      else None
  | [] => None
  end.
Proof.
  destruct s as [|c s]; [reflexivity|].
  unfold match_at, tag_re, plus.
  change (u "<") with [c_lt]. change (u ">") with [c_gt].
  unfold lit, seq_re. cbn [map fold_right exec]. unfold is_chr at 1.
  destruct (N.eqb c_lt c); [|reflexivity]. cbn [andb].
  rewrite rep_greedy_guarded.
  - destruct (1 <=? run (not_chr c_gt) s); [|reflexivity]. cbn [andb].
    destruct (dropwhile (not_chr c_gt) s) as [|d t]; [reflexivity|].
    cbn [startswith]. unfold is_chr.
    rewrite andb_true_r. destruct (N.eqb c_gt d); [|reflexivity].
    first [reflexivity | do 2 f_equal; lia].
  - intros d t pos' Hd. unfold not_chr in Hd. unfold is_chr.
    apply negb_true_iff in Hd. now rewrite Hd.
Qed.

Lemma strip_tags_cons c s :
  strip_tags (c :: s) =
  if N.eqb c_lt c && (1 <=? run (not_chr c_gt) s)
     && startswith [c_gt] (dropwhile (not_chr c_gt) s)
  then strip_tags (skipn 1 (dropwhile (not_chr c_gt) s))
  else c :: strip_tags s.
Proof.
  unfold strip_tags, re_sub, re_sub_fn. cbn [sub_loop]. rewrite match_at_tag.
  destruct (_ && _ && _) eqn:E; [|reflexivity].
  cbn [m_len expand flat_map List.app].
  rewrite sub_loop_skipn.
  - f_equal. rewrite <- skipn_run, skipn_skipn. first [reflexivity | f_equal; lia].
  - apply andb_true_iff in E as [_ E].
    pose proof (run_le (not_chr c_gt) s) as Hl.
    assert (run (not_chr c_gt) s <> length s); [|lia].
    intros Heq. rewrite <- skipn_run, Heq, skipn_all in E. discriminate.
Qed.

Lemma strip_tags_nil : strip_tags [] = [].
Proof. reflexivity. Qed.

Lemma dropwhile_nil_tail p c (s : str) : dropwhile p (c :: s) = [] -> dropwhile p s = [].
Proof. cbn [dropwhile]. destruct (p c); [trivial|discriminate]. Qed.

(** A text without [>] has no tag. *)
Lemma no_gt_never s : dropwhile (not_chr c_gt) s = [] -> never_matches tag_re s.
Proof.
  intros Hs n. revert s Hs. induction n as [|n IH]; intros s Hs.
  - change (match_at tag_re s = None).
    destruct s as [|c s]; [reflexivity|]. rewrite match_at_tag.
    apply dropwhile_nil_tail in Hs. rewrite Hs. cbn [startswith].
    now rewrite andb_false_r.
  - destruct s as [|c s]; [reflexivity|].
    change (match_at tag_re (skipn n s) = None). apply IH.
    eapply dropwhile_nil_tail, Hs.
Qed.

Lemma never_matches_cons r c s :
  match_at r (c :: s) = None -> never_matches r s -> never_matches r (c :: s).
Proof. intros H0 Hs [|n]; [exact H0|exact (Hs n)]. Qed.

Lemma strip_tags_tagless_aux n s : length s <= n -> never_matches tag_re (strip_tags s).
Proof.
  revert s. induction n as [|n IH]; intros s Hl.
  - destruct s; [|cbn [length] in Hl; lia]. intros [|k]; reflexivity.
  - destruct s as [|c s]; [intros [|k]; reflexivity|]. cbn [length] in Hl.
    rewrite strip_tags_cons.
    destruct (N.eqb c_lt c && (1 <=? run (not_chr c_gt) s)
              && startswith [c_gt] (dropwhile (not_chr c_gt) s)) eqn:E.
    + apply IH. rewrite length_skipn.
      pose proof (length_dropwhile (not_chr c_gt) s). lia.
    + apply never_matches_cons; [|apply IH; lia].
      rewrite match_at_tag.
      destruct (N.eqb c_lt c) eqn:Ec; [|reflexivity].
      cbn [andb] in E |- *.
      destruct s as [|d s].
      * reflexivity.
      * destruct (not_chr c_gt d) eqn:Hd.
        -- (* a run that is not closed: no [>] is left at all *)
           assert (Hr : (1 <=? run (not_chr c_gt) (d :: s)) = true)
             by (cbn [run]; now rewrite Hd).
           rewrite Hr in E. cbn [andb] in E.
           assert (Hn : dropwhile (not_chr c_gt) (d :: s) = []).
           { destruct (dropwhile (not_chr c_gt) (d :: s)) as [|e t] eqn:Ed; [reflexivity|].
             pose proof (dropwhile_head _ _ _ _ Ed) as He.
             cbn [startswith] in E. unfold not_chr in He.
             apply negb_false_iff in He. rewrite He in E. discriminate. }
           unfold strip_tags, re_sub. rewrite (sub_never _ _ _ (no_gt_never _ Hn)).
           now rewrite Hr, Hn.
        -- (* the next character is [>] itself *)
           rewrite strip_tags_cons.
           assert (Ed : N.eqb c_lt d = false).
           { unfold not_chr in Hd. apply negb_false_iff, N.eqb_eq in Hd. now subst d. }
           rewrite Ed. cbn [andb run]. now rewrite Hd.
Qed.

(** X8. The stripping of the remaining tags leaves no tag behind: in its
    result the tag pattern matches nowhere, and stripping that result again
    changes nothing. *)
Theorem strip_tags_leaves_no_tag (s : str) :
  never_matches tag_re (strip_tags s)
  /\ strip_tags (strip_tags s) = strip_tags s.
Proof.
  assert (Hn : never_matches tag_re (strip_tags s))
    by (apply (strip_tags_tagless_aux (length s)); lia).
  split; [exact Hn|]. unfold strip_tags at 1. unfold re_sub. now apply sub_never.
Qed.

End TransformerExtras.

Section SlugExtras.
Context `{Runtime}.

Lemma collapse_runs_fixed s :
  Forall (fun c => separator c = true -> c = c_hyphen) s ->
  single_hyphens s = true ->
  collapse_runs s = s.
Proof.
  induction s as [|c s IH]; intros Hf Hs; [reflexivity|].
  apply Forall_cons_iff in Hf as [Hc Hf]. cbn [collapse_runs].
  specialize (IH Hf (single_hyphens_tail _ _ Hs)).
  destruct (separator c) eqn:Ec.
  - rewrite (Hc eq_refl) in *. destruct s as [|d s]; [reflexivity|].
    destruct (separator d) eqn:Ed.
    + apply Forall_cons_iff in Hf as [Hd _]. rewrite (Hd Ed) in Hs.
      cbn [single_hyphens] in Hs. discriminate.
    + now rewrite IH.
  - now rewrite IH.
Qed.

Lemma filter_fixed {A} (f : A -> bool) (l : list A) :
  Forall (fun x => f x = true) l -> List.filter f l = l.
Proof.
  induction 1 as [|x l Hx _ IH]; cbn [List.filter]; [reflexivity|].
  now rewrite Hx, IH.
Qed.

Lemma lower_ascii_fixed c : is_upper_ascii c = false -> lower_ascii c = c.
Proof. unfold lower_ascii. now intros ->. Qed.

Lemma lower_ascii_is_ascii c : is_ascii c = true -> is_ascii (lower_ascii c) = true.
Proof.
  unfold lower_ascii, is_upper_ascii, between, is_ascii.
  destruct ((65 <=? c)%N && (c <=? 90)%N) eqn:E; [|trivial].
  apply andb_true_iff in E as [_ E]. apply N.leb_le in E.
  intros _. apply N.ltb_lt. lia.
Qed.

(** What the characters of a slug are, for an ASCII title. *)
Lemma slug_chars_ascii title c :
  forallb is_ascii title = true ->
  In c (sanitize_filename title) ->
  is_ascii c = true /\ is_upper_ascii c = false /\ kept c = true
  /\ (separator c = true -> c = c_hyphen).
Proof.
  intros Ha. rewrite sanitize_filename_slug_spec. unfold slug_spec.
  intros Hc. apply in_strip, in_collapse_runs in Hc as [->|[Hc Hs]].
  - repeat split; reflexivity.
  - apply filter_In in Hc as [Hc Hk].
    split; [|split; [|split]].
    + unfold lower in Hc. rewrite Ha in Hc.
      apply in_map_iff in Hc as (d & <- & Hd).
      apply lower_ascii_is_ascii. rewrite forallb_forall in Ha. now apply Ha.
    + eapply lower_ascii_text; eassumption.
    + exact Hk.
    + rewrite Hs. discriminate.
Qed.

(** X9. On an ASCII title the slug of a slug is that slug. *)
Theorem sanitize_filename_idempotent (title : str) :
  forallb is_ascii title = true ->
  sanitize_filename (sanitize_filename title) = sanitize_filename title.
Proof.
  intros Ha. set (r := sanitize_filename title).
  assert (Hr : forall c, In c r -> is_ascii c = true /\ is_upper_ascii c = false
                                  /\ kept c = true /\ (separator c = true -> c = c_hyphen))
    by (intros c; now apply slug_chars_ascii).
  rewrite (sanitize_filename_slug_spec r). unfold slug_spec.
  assert (Hl : lower r = r).
  { unfold lower. replace (forallb is_ascii r) with true.
    - clear -Hr. induction r as [|c r IH]; [reflexivity|]. cbn [map]. f_equal.
      + apply lower_ascii_fixed, (Hr c). now left.
      + apply IH. intros d Hd. apply Hr. now right.
    - symmetry. apply forallb_forall. intros c Hc. now apply Hr. }
  rewrite Hl.
  rewrite filter_fixed by (apply List.Forall_forall; intros c Hc; now apply Hr).
  rewrite collapse_runs_fixed.
  - unfold r. rewrite (sanitize_filename_slug_spec title). unfold slug_spec.
    apply strip_idem.
  - apply List.Forall_forall. intros c Hc. now apply Hr.
  - unfold r. rewrite (sanitize_filename_slug_spec title). unfold slug_spec.
    apply single_hyphens_strip, single_hyphens_collapse.
Qed.

Lemma collapse_runs_separators s :
  Forall (fun c => separator c = true) s ->
  collapse_runs s = [] \/ collapse_runs s = [c_hyphen].
Proof.
  induction s as [|c s IH]; intros Hf; [now left|].
  apply Forall_cons_iff in Hf as [Hc Hf]. cbn [collapse_runs]. rewrite Hc.
  destruct s as [|d s]; [now right|].
  pose proof Hf as [Hd _]%Forall_cons_iff. rewrite Hd. now apply IH.
Qed.

(** A title whose lower-cased text has no letter, no digit and no
    underscore has the empty slug. *)
Lemma slug_without_word (title : str) :
  Forall (fun c => is_word c = false) (lower title) ->
  sanitize_filename title = [].
Proof.
  intros Hw. rewrite sanitize_filename_slug_spec. unfold slug_spec.
  assert (Hs : Forall (fun c => separator c = true) (List.filter kept (lower title))).
  { apply List.Forall_forall. intros c [Hc Hk]%filter_In.
    rewrite List.Forall_forall in Hw. specialize (Hw c Hc).
    unfold kept in Hk. rewrite Hw in Hk. cbn [orb] in Hk.
    unfold separator. now rewrite orb_comm. }
  destruct (collapse_runs_separators _ Hs) as [-> | ->]; reflexivity.
Qed.

End SlugExtras.

(** * The rules of the transformer on one element *)

Section ElementRules.
Context `{Runtime}.

Lemma startswith_self p x : startswith p (p ++ x) = true.
Proof.
  induction p as [|c p IH]; [reflexivity|]. cbn [startswith List.app].
  now rewrite N.eqb_refl, IH.
Qed.

Lemma startswith_refl p : startswith p p = true.
Proof. rewrite <- (app_nil_r p) at 2. apply startswith_self. Qed.

Lemma skipn_self (p x : str) : skipn (length p) (p ++ x) = x.
Proof. induction p as [|c p IH]; [reflexivity|exact IH]. Qed.

(** A literal matches where the text starts with it. *)
Lemma exec_lit {R} p s pos caps (k : str -> nat -> captures -> option R) :
  exec (lit p) s pos caps k =
  if startswith p s then k (skipn (length p) s) (pos + length p) caps else None.
Proof.
  revert s pos. induction p as [|c p IH]; intros s pos.
  - cbn [lit seq_re map fold_right exec startswith length skipn]. now rewrite Nat.add_0_r.
  - change (lit (c :: p)) with (Cat (Chr (is_chr c)) (lit p)).
    cbn [exec]. destruct s as [|d s]; [reflexivity|].
    cbn [startswith length skipn]. unfold is_chr. destruct (N.eqb c d); [|reflexivity].
    cbn [andb]. rewrite IH. now rewrite Nat.add_succ_r.
Qed.

Lemma lit_never p r s : contains p s = false -> never_matches (Cat (lit p) r) s.
Proof.
  intros Hc n. unfold match_at. cbn [exec]. rewrite exec_lit.
  now rewrite (contains_startswith _ _ (contains_skipn _ n _ Hc)).
Qed.

Lemma starts_mismatch p a b : mismatch p a = true -> startswith p (a ++ b) = false.
Proof.
  revert a. induction p as [|c p IH]; intros [|d a]; cbn [mismatch]; try discriminate.
  cbn [startswith List.app]. destruct (N.eqb c d); cbn [negb orb andb]; [apply IH|reflexivity].
Qed.

Lemma contains_skip_prefix c p a y :
  contains [c] a = false -> contains (c :: p) (a ++ y) = contains (c :: p) y.
Proof.
  induction a as [|d a IH]; [reflexivity|].
  rewrite contains_cons. intros [Hd Ha]%orb_false_iff.
  cbn [List.app]. rewrite contains_cons, (IH Ha).
  cbn [startswith] in *. destruct (N.eqb c d); [discriminate|reflexivity].
Qed.

Lemma startswith_boundary p x d b :
  startswith p x = false -> contains [d] p = false -> startswith p (x ++ d :: b) = false.
Proof.
  revert x. induction p as [|c p IH]; intros x Hx Hd; [discriminate|].
  rewrite contains_cons in Hd. apply orb_false_iff in Hd as [Hc Hp].
  cbn [startswith] in Hc. rewrite andb_true_r in Hc.
  destruct x as [|e x]; cbn [List.app startswith].
  - rewrite N.eqb_sym, Hc. reflexivity.
  - cbn [startswith] in Hx. destruct (N.eqb c e); [|reflexivity].
    cbn [andb] in *. now apply IH.
Qed.

Lemma contains_boundary p x d b :
  contains p x = false -> contains [d] p = false -> contains p (d :: b) = false ->
  contains p (x ++ d :: b) = false.
Proof.
  intros Hx Hd Hb. induction x as [|c x IH]; [exact Hb|].
  cbn [List.app]. rewrite contains_cons.
  change (c :: x ++ d :: b) with ((c :: x) ++ d :: b).
  rewrite (startswith_boundary _ _ _ _ (contains_startswith _ _ Hx) Hd).
  apply IH. eapply contains_tail, Hx.
Qed.

Lemma contains_one_app c a b : contains [c] (a ++ b) = contains [c] a || contains [c] b.
Proof.
  induction a as [|d a IH].
  - cbn [List.app]. destruct b; reflexivity.
  - cbn [List.app]. rewrite !contains_cons, IH. now rewrite orb_assoc.
Qed.

Lemma contains_one_forallb c a :
  forallb (fun d => negb (N.eqb c d)) a = true -> contains [c] a = false.
Proof.
  induction a as [|d a IH]; [reflexivity|]. cbn [forallb].
  intros [Hd Ha]%andb_true_iff. rewrite contains_cons, (IH Ha). cbn [startswith].
  now destruct (N.eqb c d).
Qed.

Lemma run_all p a c rest :
  forallb p a = true -> p c = false ->
  run p (a ++ c :: rest) = length a /\ dropwhile p (a ++ c :: rest) = c :: rest.
Proof.
  intros Ha Hc. induction a as [|d a IH]; cbn [List.app run dropwhile length forallb] in *.
  - now rewrite Hc.
  - apply andb_true_iff in Ha as [-> Ha]. destruct (IH Ha) as [-> ->]. now split.
Qed.

(** A lazy repetition of any character goes over a text on which the rest
    of the pattern cannot start. *)
Lemma rep_lazy_skip {R} t b pos (k : str -> nat -> option R) :
  (forall c s' pos', N.eqb c_lt c = false -> k (c :: s') pos' = None) ->
  contains [c_lt] t = false ->
  rep false any 0 None (t ++ b) pos k = rep false any 0 None b (pos + length t) k.
Proof.
  intros Hk. revert pos. induction t as [|c t IH]; intros pos Ht.
  - cbn [List.app length]. now rewrite Nat.add_0_r.
  - rewrite contains_cons in Ht. apply orb_false_iff in Ht as [Hc Ht].
    cbn [startswith] in Hc. rewrite andb_true_r in Hc.
    cbn [List.app rep]. rewrite (Hk _ _ _ Hc). cbn [orelse any pred option_map].
    rewrite (IH _ Ht). cbn [length]. now rewrite Nat.add_succ_r.
Qed.

Lemma rep_lazy_here {R} p hi s pos (k : str -> nat -> option R) x :
  k s pos = Some x -> rep false p 0 hi s pos k = Some x.
Proof. intros Hk. destruct s; cbn [rep]; now rewrite Hk. Qed.

(** The pattern of an element matches the text of that element as a whole,
    and its group is the text between the tags. *)
Lemma match_at_element name attrs t :
  forallb (not_chr c_gt) attrs = true ->
  contains [c_lt] t = false ->
  match_at (element_re name) (element_text name attrs t)
  = Some (mkMatch (element_text name attrs t) (length (element_text name attrs t))
            [(1, (length name + length attrs + 2,
                  length name + length attrs + 2 + length t))]).
Proof.
  intros Ha Ht. unfold match_at, element_re.
  cbn [seq_re fold_right exec].
  unfold element_text at 1. rewrite exec_lit, startswith_self, skipn_self.
  unfold star. cbn [exec].
  rewrite rep_greedy_guarded.
  2:{ intros c s' pos' Hc. rewrite exec_lit. cbn [startswith].
      unfold not_chr in Hc. destruct (N.eqb c_gt c); [discriminate|reflexivity]. }
  cbn [Nat.leb].
  destruct (run_all (not_chr c_gt) attrs c_gt (t ++ c_lt :: c_slash :: name ++ [c_gt]) Ha)
    as [Er Ed]; [unfold not_chr; now rewrite N.eqb_refl|].
  cbn [List.app] in *. rewrite Er, Ed.
  rewrite exec_lit. cbn [startswith length skipn]. rewrite N.eqb_refl. cbn [andb].
  unfold lazy_star. cbn [exec].
  change (skipn 0 (t ++ c_lt :: c_slash :: name ++ [c_gt]))
    with (t ++ c_lt :: c_slash :: name ++ [c_gt]).
  rewrite rep_lazy_skip; [|intros c s' pos' Hc; rewrite exec_lit; cbn [startswith];
                            now rewrite Hc|exact Ht].
  erewrite rep_lazy_here.
  2:{ rewrite exec_lit, startswith_refl. reflexivity. }
  replace (0 + S (length name) + length attrs + 1)
    with (length name + length attrs + 2) by lia.
  do 2 f_equal. unfold element_text.
  repeat first [rewrite length_app | progress cbn [length List.app]]. lia.
Qed.

Lemma match_at_element_nil name : match_at (element_re name) [] = None.
Proof. unfold match_at, element_re. cbn [seq_re fold_right exec]. now rewrite exec_lit. Qed.

(** The substitution on the text of one element calls the replacement once,
    on the match of the whole text. *)
Lemma sub_element name attrs t f :
  forallb (not_chr c_gt) attrs = true ->
  contains [c_lt] t = false ->
  re_sub_fn (element_re name) f (element_text name attrs t)
  = f (mkMatch (element_text name attrs t) (length (element_text name attrs t))
         [(1, (length name + length attrs + 2,
               length name + length attrs + 2 + length t))]).
Proof.
  intros Ha Ht. unfold re_sub_fn.
  pose proof (match_at_element name attrs t Ha Ht) as E.
  destruct (element_text name attrs t) as [|c s] eqn:Es; [discriminate Es|].
  cbn [sub_loop]. rewrite E. cbn [m_len length].
  rewrite sub_loop_skipn by lia. rewrite skipn_all. cbn [sub_loop].
  rewrite match_at_element_nil. apply app_nil_r.
Qed.

Lemma element_group name attrs t n :
  group (mkMatch (element_text name attrs t) n
           [(1, (length name + length attrs + 2,
                 length name + length attrs + 2 + length t))]) 1 = t.
Proof.
  unfold group. cbn [span_of m_caps m_subject Nat.eqb].
  replace (length name + length attrs + 2 + length t - (length name + length attrs + 2))
    with (length t) by lia.
  unfold element_text.
  replace ((c_lt :: name) ++ attrs ++ [c_gt] ++ t ++ c_lt :: c_slash :: name ++ [c_gt])
    with (((c_lt :: name) ++ attrs ++ [c_gt]) ++ t ++ c_lt :: c_slash :: name ++ [c_gt])
    by (now rewrite <- !app_assoc).
  replace (length name + length attrs + 2) with (length ((c_lt :: name) ++ attrs ++ [c_gt]))
    by (repeat first [rewrite length_app | progress cbn [length List.app]]; lia).
  rewrite skipn_self.
  rewrite <- (Nat.add_0_r (length t)). rewrite firstn_app_2. cbn [firstn]. apply app_nil_r.
Qed.

(** What the attributes exclude. *)
Lemma attributes_without a c :
  attributes a = true -> In c [c_lt; c_gt; c_amp; 93%N; c_nl] -> contains [c] a = false.
Proof.
  unfold attributes. intros [_ Ha]%andb_true_iff Hc. apply contains_one_forallb.
  rewrite forallb_forall in *. intros d Hd. specialize (Ha d Hd).
  unfold none_of in Ha. destruct (N.eqb_spec c d) as [<-|]; [|reflexivity].
  exfalso. vm_compute in Hc.
  repeat (destruct Hc as [<-|Hc]; [vm_compute in Ha; discriminate|]). exact Hc.
Qed.

Lemma attributes_no_gt a : attributes a = true -> forallb (not_chr c_gt) a = true.
Proof.
  unfold attributes. intros [_ Ha]%andb_true_iff.
  rewrite forallb_forall in *. intros d Hd. specialize (Ha d Hd).
  unfold none_of, not_chr in *. cbn [existsb] in Ha.
  rewrite (N.eqb_sym c_gt d). now destruct (N.eqb d c_lt), (N.eqb d c_gt).
Qed.

(** A text that opens with [<] is not in the text of an element when it
    fits neither the opening tag nor the closing one. *)
Lemma absent_from_element p name attrs t :
  contains [c_lt] name = false -> attributes attrs = true -> contains [c_lt] t = false ->
  mismatch p (name ++ [c_space]) = true -> mismatch p (name ++ [c_gt]) = true ->
  mismatch p [c_slash] = true ->
  contains (c_lt :: p) (element_text name attrs t) = false.
Proof.
  intros Hn Ha Ht M1 M2 M3.
  pose proof (attributes_without attrs c_lt Ha ltac:(now left)) as Hal.
  unfold element_text.
  change ((c_lt :: name) ++ attrs ++ [c_gt] ++ t ++ c_lt :: c_slash :: name ++ [c_gt])
    with (c_lt :: name ++ attrs ++ [c_gt] ++ t ++ c_lt :: c_slash :: name ++ [c_gt]).
  rewrite contains_cons. apply orb_false_iff. split.
  - cbn [startswith]. rewrite N.eqb_refl. cbn [andb].
    destruct attrs as [|a attrs].
    + cbn [List.app]. change (c_gt :: t ++ c_lt :: c_slash :: name ++ [c_gt])
        with ([c_gt] ++ t ++ c_lt :: c_slash :: name ++ [c_gt]).
      rewrite app_assoc. now apply starts_mismatch.
    + unfold attributes in Ha. apply andb_true_iff in Ha as [Hsp _].
      apply N.eqb_eq in Hsp. subst a.
      change ((c_space :: attrs) ++ [c_gt] ++ t ++ c_lt :: c_slash :: name ++ [c_gt])
        with ([c_space] ++ attrs ++ [c_gt] ++ t ++ c_lt :: c_slash :: name ++ [c_gt]).
      rewrite app_assoc. now apply starts_mismatch.
  - rewrite !app_assoc. rewrite contains_skip_prefix.
    2:{ rewrite !contains_one_app, Hn, Hal, Ht. reflexivity. }
    rewrite contains_cons. apply orb_false_iff. split.
    + cbn [startswith]. rewrite N.eqb_refl. cbn [andb].
      change (c_slash :: name ++ [c_gt]) with ([c_slash] ++ name ++ [c_gt]).
      now apply starts_mismatch.
    + apply contains_first. change (c_slash :: name ++ [c_gt]) with ([c_slash] ++ name ++ [c_gt]).
      rewrite !contains_one_app, Hn. reflexivity.
Qed.

(** A character that is in no part of the text of an element is not in it. *)
Lemma single_in_element c name attrs t :
  contains [c] ([c_lt; c_gt; c_slash] ++ name) = false ->
  contains [c] attrs = false -> contains [c] t = false ->
  contains [c] (element_text name attrs t) = false.
Proof.
  intros Hn Ha Ht. unfold element_text.
  change (c_lt :: c_slash :: name ++ [c_gt]) with ([c_lt; c_slash] ++ name ++ [c_gt]).
  change (c_lt :: name) with ([c_lt] ++ name).
  rewrite contains_one_app in Hn. apply orb_false_iff in Hn as [Hc Hn].
  rewrite !contains_one_app, Hn, Ha, Ht.
  cbn [contains startswith] in *. rewrite !andb_true_r, !orb_false_r in *.
  destruct (N.eqb c c_lt), (N.eqb c c_gt), (N.eqb c c_slash); try discriminate; reflexivity.
Qed.

Lemma heading_absent s level :
  contains (c_lt :: u "h" ++ str_of_nat level) s = false -> heading s level = s.
Proof. intros Hs. unfold heading, re_sub. apply sub_never. now apply lit_never. Qed.

Lemma strip_ends p s :
  match s with c :: _ => p c = false | [] => True end ->
  match rev s with c :: _ => p c = false | [] => True end ->
  strip p s = s.
Proof.
  intros Hs Hr. unfold strip, lstrip, rstrip.
  rewrite (dropwhile_fixed p s Hs), (dropwhile_fixed p (rev s) Hr). apply rev_involutive.
Qed.

Lemma element_never name s :
  contains (c_lt :: name) s = false -> never_matches (element_re name) s.
Proof. apply lit_never. Qed.

(** A text that opens with [q] is not in [a ++ t ++ b] when [a] is without
    [q], [t] without the text, and [b] without it and opening with a
    character that is not in it. *)
Lemma contains_wrapped q p a t b :
  contains [q] a = false -> contains (q :: p) t = false ->
  match b with d :: _ => contains [d] (q :: p) = false | [] => True end ->
  contains (q :: p) b = false ->
  contains (q :: p) (a ++ t ++ b) = false.
Proof.
  intros Ha Ht Hd Hb. rewrite contains_skip_prefix by exact Ha.
  destruct b as [|d b]; [now rewrite app_nil_r|]. now apply contains_boundary.
Qed.

Lemma plain_parts t :
  plain t = true ->
  contains [c_lt] t = false /\ contains [c_amp] t = false
  /\ contains (u "]]>") t = false /\ contains [c_nl; c_nl; c_nl] t = false.
Proof.
  unfold plain. intros [[[H1 H2]%andb_true_iff H3]%andb_true_iff H4]%andb_true_iff.
  now rewrite negb_true_iff in *.
Qed.

(** The closing marker of CDATA is not in the text of an element whose name
    has no closing bracket. *)
Lemma cdata_close_absent name attrs t :
  contains [93%N] name = false -> attributes attrs = true ->
  contains (u "]]>") t = false ->
  contains (u "]]>") (element_text name attrs t) = false.
Proof.
  intros Hn Ha Ht. unfold element_text.
  change (u "]]>") with (93%N :: u "]>") in *.
  replace ((c_lt :: name) ++ attrs ++ [c_gt] ++ t ++ c_lt :: c_slash :: name ++ [c_gt])
    with (((c_lt :: name) ++ attrs ++ [c_gt]) ++ t ++ c_lt :: c_slash :: name ++ [c_gt])
    by (now rewrite <- !app_assoc).
  apply contains_wrapped.
  - change (c_lt :: name) with ([c_lt] ++ name).
    rewrite !contains_one_app, Hn, (attributes_without attrs 93%N Ha).
    + reflexivity.
    + cbn [In]. tauto.
  - exact Ht.
  - reflexivity.
  - change (c_lt :: c_slash :: name ++ [c_gt]) with (([c_lt; c_slash] ++ name) ++ [c_gt]).
    rewrite contains_skip_prefix; [reflexivity|].
    now rewrite contains_one_app, Hn.
Qed.

(** The rule of an element on the text of that element. *)
Lemma emphasis_hit name mark attrs t :
  attributes attrs = true -> contains [c_lt] t = false ->
  re_sub_fn (element_re name) (expand [TLit mark; TGrp 1; TLit mark])
            (element_text name attrs t)
  = mark ++ t ++ mark.
Proof.
  intros Ha Ht. rewrite sub_element by (try apply attributes_no_gt; assumption).
  cbn [expand flat_map]. now rewrite element_group, app_nil_r.
Qed.

Lemma heading_hit level attrs t :
  attributes attrs = true -> contains [c_lt] t = false ->
  heading (element_text (u "h" ++ str_of_nat level) attrs t) level
  = (repeat c_hash level ++ [c_space]) ++ t.
Proof.
  intros Ha Ht. unfold heading, re_sub.
  rewrite sub_element by (try apply attributes_no_gt; assumption).
  cbn [expand flat_map]. now rewrite element_group, app_nil_r.
Qed.

Local Ltac side := first [assumption | vm_compute; reflexivity].
Local Ltac absent := apply absent_from_element; side.
Local Ltac skip_rule n s s2 :=
  rewrite (sub_never (element_re n) _ s) by (apply element_never; absent);
  rewrite (sub_never (element_re n) _ s2)
    by (apply element_never; apply contains_first; assumption).
Local Ltac open_body s s2 :=
  unfold html_to_markdown;
  let Es := fresh "Es" in let Es2 := fresh "Es" in
  destruct s eqn:Es; [discriminate Es|];
  destruct s2 eqn:Es2; [discriminate Es2|];
  cbv beta match zeta; rewrite <- ?Es, <- ?Es2 in *; clear Es Es2.

(** X18. The rules for bold and italic text on one element: the text
    [<strong>t</strong>], with or without attributes in its opening tag and
    with a text [t] without markup, becomes [**t**], and so does [<b>]; [<em>]
    and [<i>] give [*t*]. *)
Theorem emphasis_of_plain_text (name mark attrs t : str) :
  In (name, mark) emphasis_rules -> attributes attrs = true -> plain t = true ->
  html_to_markdown (element_text name attrs t) = mark ++ t ++ mark.
Proof.
  intros Hin Ha Hp. destruct (plain_parts t Hp) as (Hlt & Hamp & Hcd & Hnl).
  pose proof (attributes_without attrs c_amp Ha ltac:(cbn [In]; tauto)) as Haa.
  cbn [emphasis_rules In] in Hin.
  destruct Hin as [E|[E|[E|[E|[]]]]]; injection E as E1 E2; subst name mark.
  all: match goal with
       | |- html_to_markdown ?s = ?s2 =>
           assert (Samp : contains [c_amp] s = false)
             by (apply single_in_element; side);
           assert (Sopen : contains (u "<![CDATA[") s = false)
             by (change (u "<![CDATA[") with (c_lt :: u "![CDATA["); absent);
           assert (Sclose : contains (u "]]>") s = false)
             by (apply cdata_close_absent; side);
           assert (Plt : contains [c_lt] s2 = false)
             by (rewrite !contains_one_app, Hlt; reflexivity);
           assert (Pamp : contains [c_amp] s2 = false)
             by (rewrite !contains_one_app, Hamp; reflexivity);
           assert (Pcd : contains (u "]]>") s2 = false)
             by (change (u "]]>") with (93%N :: u "]>") in *;
                 apply contains_wrapped; side);
           assert (Pnl : no3 s2)
             by (unfold no3; apply contains_wrapped; side);
           transitivity (strip is_space s2);
           [rewrite <- (html_to_markdown_plain s2 Plt Pamp Pcd Pnl); open_body s s2;
            unfold unescape; rewrite Samp, Pamp; cbn [negb];
            rewrite (replace_absent (u "<![CDATA[") [] s) by assumption;
            rewrite (replace_absent (u "]]>") [] s) by assumption;
            rewrite (replace_absent (u "<![CDATA[") [] s2) by (now apply contains_first);
            rewrite (replace_absent (u "]]>") [] s2) by assumption;
            cbn [seq fold_left];
            rewrite !(heading_absent s) by absent;
            rewrite !(heading_plain s2) by assumption;
            skip_rule (u "blockquote") s s2; skip_rule (u "ol") s s2;
            skip_rule (u "ul") s s2; unfold re_sub
           |]
       end.
  all: match goal with
       | |- strip _ _ = _ =>
           apply strip_ends; [reflexivity | rewrite !rev_app_distr; reflexivity]
       | |- _ => idtac
       end.
  all: match goal with
       | Plt : contains [c_lt] ?s2 = false |- context [element_text ?n ?a ?x] =>
           try skip_rule (u "strong") (element_text n a x) s2;
           try skip_rule (u "b") (element_text n a x) s2;
           try skip_rule (u "em") (element_text n a x) s2;
           rewrite (emphasis_hit n _ a x Ha Hlt);
           rewrite (sub_never (element_re n) _ s2)
             by (apply element_never; apply contains_first; assumption);
           reflexivity
       end.
Qed.

(** X19. The rule for headings on one element: the text [<hN>t</hN>], for a
    level N from 1 to 6, with or without attributes and with a text [t]
    without markup, becomes the line of N hashes, a blank and [t], stripped of
    the whitespace at its ends. *)
Theorem heading_of_plain_text (level : nat) (attrs t : str) :
  1 <= level <= 6 -> attributes attrs = true -> plain t = true ->
  html_to_markdown (element_text (u "h" ++ str_of_nat level) attrs t)
  = strip is_space (repeat c_hash level ++ [c_space] ++ t).
Proof.
  intros Hl Ha Hp. destruct (plain_parts t Hp) as (Hlt & Hamp & Hcd & Hnl).
  pose proof (attributes_without attrs c_amp Ha ltac:(cbn [In]; tauto)) as Haa.
  assert (E : level = 1 \/ level = 2 \/ level = 3 \/ level = 4 \/ level = 5 \/ level = 6)
    by lia.
  destruct E as [E|[E|[E|[E|[E|E]]]]]; subst level.
  all: match goal with
       | |- html_to_markdown ?s = strip is_space (?a ++ ?b ++ ?t) =>
           change (a ++ b ++ t) with ((a ++ b) ++ t);
           assert (Samp : contains [c_amp] s = false)
             by (apply single_in_element; side);
           assert (Sopen : contains (u "<![CDATA[") s = false)
             by (change (u "<![CDATA[") with (c_lt :: u "![CDATA["); absent);
           assert (Sclose : contains (u "]]>") s = false)
             by (apply cdata_close_absent; side);
           assert (Plt : contains [c_lt] ((a ++ b) ++ t) = false)
             by (rewrite !contains_one_app, Hlt; reflexivity);
           assert (Pamp : contains [c_amp] ((a ++ b) ++ t) = false)
             by (rewrite !contains_one_app, Hamp; reflexivity);
           assert (Pcd : contains (u "]]>") ((a ++ b) ++ t) = false)
             by (change (u "]]>") with (93%N :: u "]>") in *;
                 rewrite contains_skip_prefix by reflexivity; assumption);
           assert (Pnl : no3 ((a ++ b) ++ t))
             by (unfold no3; rewrite contains_skip_prefix by reflexivity; assumption);
           rewrite <- (html_to_markdown_plain ((a ++ b) ++ t) Plt Pamp Pcd Pnl);
           open_body s ((a ++ b) ++ t);
           unfold unescape; rewrite Samp, Pamp; cbn [negb];
           rewrite (replace_absent (u "<![CDATA[") [] s) by assumption;
           rewrite (replace_absent (u "]]>") [] s) by assumption;
           rewrite (replace_absent (u "<![CDATA[") [] ((a ++ b) ++ t))
             by (now apply contains_first);
           rewrite (replace_absent (u "]]>") [] ((a ++ b) ++ t)) by assumption;
           cbn [seq fold_left];
           rewrite ?(heading_absent s) by absent;
           rewrite (heading_hit _ _ t Ha Hlt);
           rewrite ?(heading_plain ((a ++ b) ++ t)) by assumption;
           reflexivity
       end.
Qed.

(** ** The rule for paragraphs *)

Lemma dropwhile_app_all p (x w : str) :
  dropwhile p (x ++ w) = if forallb p x then dropwhile p w else dropwhile p x ++ w.
Proof.
  induction x as [|c x IH]; [reflexivity|]. cbn [List.app dropwhile forallb].
  destruct (p c); [exact IH|reflexivity].
Qed.

Lemma dropwhile_all p (x : str) : forallb p x = true -> dropwhile p x = [].
Proof.
  induction x as [|c x IH]; [reflexivity|]. cbn [forallb dropwhile].
  intros [-> Hx]%andb_true_iff. now apply IH.
Qed.

Lemma forallb_rev p (x : str) : forallb p (rev x) = forallb p x.
Proof.
  induction x as [|c x IH]; [reflexivity|]. cbn [rev forallb].
  rewrite forallb_app, IH. cbn [forallb]. rewrite andb_true_r. apply andb_comm.
Qed.

Lemma rstrip_app_all p x w : forallb p w = true -> rstrip p (x ++ w) = rstrip p x.
Proof.
  intros Hw. unfold rstrip. rewrite rev_app_distr, dropwhile_app_all, forallb_rev, Hw.
  reflexivity.
Qed.

Lemma strip_app_all p x w : forallb p w = true -> strip p (x ++ w) = strip p x.
Proof.
  intros Hw. unfold strip, lstrip. rewrite dropwhile_app_all.
  destruct (forallb p x) eqn:Hx.
  - now rewrite (dropwhile_all p w Hw), (dropwhile_all p x Hx).
  - now apply rstrip_app_all.
Qed.

Lemma dropwhile_split p (s : str) :
  exists w, s = w ++ dropwhile p s /\ forallb p w = true.
Proof.
  induction s as [|c s (w & Hs & Hw)]; [now exists []|]. cbn [dropwhile].
  destruct (p c) eqn:Hc; [|now exists []].
  exists (c :: w). cbn [List.app forallb]. rewrite Hc, Hw. split; [now f_equal|reflexivity].
Qed.

Lemma rstrip_split p s : exists w, s = rstrip p s ++ w /\ forallb p w = true.
Proof.
  unfold rstrip. destruct (dropwhile_split p (rev s)) as (w & Hs & Hw).
  exists (rev w). split; [|now rewrite forallb_rev].
  rewrite <- rev_app_distr, <- Hs. now rewrite rev_involutive.
Qed.

Lemma strip_rstrip (p q : char -> bool) x :
  (forall c, q c = true -> p c = true) -> strip p (rstrip q x) = strip p x.
Proof.
  intros Hq. destruct (rstrip_split q x) as (w & Hx & Hw).
  rewrite Hx at 2. symmetry. apply strip_app_all.
  rewrite forallb_forall in *. intros c Hc. apply Hq. now apply Hw.
Qed.

Lemma rstrip_cons p c s :
  rstrip p (c :: s) = if forallb p (c :: s) then [] else c :: rstrip p s.
Proof.
  unfold rstrip. cbn [rev forallb]. rewrite dropwhile_app_all, forallb_rev.
  destruct (forallb p s) eqn:Hs.
  - rewrite andb_true_r. cbn [dropwhile]. rewrite dropwhile_all by now rewrite forallb_rev.
    now destruct (p c).
  - rewrite andb_false_r. rewrite rev_app_distr. reflexivity.
Qed.

Lemma run_all_of p (x : str) : forallb p x = true -> run p x = length x.
Proof.
  induction x as [|c x IH]; [reflexivity|]. cbn [forallb run length].
  intros [-> Hx]%andb_true_iff. now rewrite IH.
Qed.

Lemma run_app_some p (x w : str) : forallb p x = false -> run p (x ++ w) = run p x.
Proof.
  induction x as [|c x IH]; [discriminate|]. cbn [forallb run List.app].
  destruct (p c); [|reflexivity]. cbn [andb]. intros Hx. now rewrite IH.
Qed.

(** The rule for the runs of newlines behind a paragraph: the newlines at
    the end of the text and the two of the rule become two. *)
Lemma collapse_paragraph t :
  no3 t ->
  re_sub newlines_re [TLit [c_nl; c_nl]] (t ++ [c_nl; c_nl])
  = rstrip (is_chr c_nl) t ++ [c_nl; c_nl].
Proof.
  induction t as [|c s IH]; intros Ht; [reflexivity|].
  apply no3_cons in Ht as [Hs Hc]. specialize (IH Hs).
  unfold re_sub, newlines_re in *. cbn [List.app]. rewrite sub_rep_cons, rstrip_cons.
  cbn [run forallb]. destruct (is_chr c_nl c) eqn:Ec; cbn [andb Nat.leb].
  - destruct (forallb (is_chr c_nl) s) eqn:Hall.
    + assert (Hw : forallb (is_chr c_nl) (s ++ [c_nl; c_nl]) = true)
        by (rewrite forallb_app, Hall; reflexivity).
      rewrite (run_all_of _ _ Hw), length_app. cbn [length].
      replace (length s + 2) with (S (S (length s))) by lia. cbn [Nat.leb Nat.eqb].
      cbn [dropwhile]. rewrite Ec, (dropwhile_all _ _ Hw). reflexivity.
    + rewrite (run_app_some _ _ _ Hall). specialize (Hc eq_refl). unfold nlrun in Hc.
      destruct (run (is_chr c_nl) s) as [|[|k]]; [| |lia]; cbn [Nat.leb]; now rewrite IH.
  - now rewrite IH.
Qed.

Lemma paragraph_hit attrs t :
  attributes attrs = true -> contains [c_lt] t = false ->
  re_sub_fn (element_re (u "p")) (expand [TGrp 1; TLit [c_nl; c_nl]])
            (element_text (u "p") attrs t)
  = t ++ [c_nl; c_nl].
Proof.
  intros Ha Ht. rewrite sub_element by (try apply attributes_no_gt; assumption).
  cbn [expand flat_map]. now rewrite element_group, app_nil_r.
Qed.

Lemma space_is_newline c : is_chr c_nl c = true -> is_space c = true.
Proof. unfold is_chr. intros <-%N.eqb_eq. reflexivity. Qed.

Local Ltac skip_left n s :=
  rewrite (sub_never (element_re n) _ s) by (apply element_never; absent).
Local Ltac skip_lit r l q s :=
  rewrite (sub_never r _ s)
    by (apply (lit_never l); change l with (c_lt :: q); absent).

(** X20. The rule for paragraphs on one element: the text [<p>t</p>], with
    or without attributes and with a text [t] without markup, becomes [t]
    stripped of the whitespace at its ends; the two newlines of the rule do
    not show. *)
Theorem paragraph_of_plain_text (attrs t : str) :
  attributes attrs = true -> plain t = true ->
  html_to_markdown (element_text (u "p") attrs t) = strip is_space t.
Proof.
  intros Ha Hp. destruct (plain_parts t Hp) as (Hlt & Hamp & Hcd & Hnl).
  pose proof (attributes_without attrs c_amp Ha ltac:(cbn [In]; tauto)) as Haa.
  set (s := element_text (u "p") attrs t).
  assert (Samp : contains [c_amp] s = false) by (apply single_in_element; side).
  assert (Sopen : contains (u "<![CDATA[") s = false)
    by (change (u "<![CDATA[") with (c_lt :: u "![CDATA["); absent).
  assert (Sclose : contains (u "]]>") s = false) by (apply cdata_close_absent; side).
  assert (Plt : contains [c_lt] (t ++ [c_nl; c_nl]) = false)
    by (rewrite contains_one_app, Hlt; reflexivity).
  destruct (rstrip_split (is_chr c_nl) t) as (w & Et & Hw).
  assert (Pamp : contains [c_amp] (rstrip (is_chr c_nl) t ++ [c_nl; c_nl]) = false).
  { rewrite contains_one_app. rewrite Et in Hamp. apply contains_app in Hamp.
    now rewrite Hamp. }
  unfold html_to_markdown. destruct s as [|c0 l0] eqn:Es; [discriminate Es|].
  cbv beta match zeta. rewrite <- ?Es in *. clear Es.
  unfold unescape. rewrite Samp. cbn [negb].
  rewrite (replace_absent (u "<![CDATA[") [] s) by assumption.
  rewrite (replace_absent (u "]]>") [] s) by assumption.
  cbn [seq fold_left]. rewrite !(heading_absent s) by absent.
  skip_left (u "blockquote") s. skip_left (u "ol") s. skip_left (u "ul") s.
  unfold re_sub.
  skip_left (u "strong") s. skip_left (u "b") s. skip_left (u "em") s. skip_left (u "i") s.
  skip_lit link_re (u "<a") (u "a") s.
  skip_lit img_alt_re (u "<img") (u "img") s.
  skip_lit img_re (u "<img") (u "img") s.
  skip_lit br_re (u "<br") (u "br") s.
  unfold s. rewrite (paragraph_hit attrs t Ha Hlt).
  rewrite (sub_st_never (embed_re (u "iframe")) _ _ [])
    by (eapply opens_with_never; [apply opens_embed|assumption]).
  rewrite (sub_st_never (embed_re (u "script")) _ _ [])
    by (eapply opens_with_never; [apply opens_embed|assumption]).
  rewrite (sub_never tag_re _ _)
    by (eapply opens_with_never; [eexists _, _; reflexivity|assumption]).
  rewrite !restore_nil.
  fold (re_sub newlines_re [TLit [c_nl; c_nl]] (t ++ [c_nl; c_nl])).
  rewrite (collapse_paragraph t Hnl).
  rewrite (replace_absent (u "&nbsp;") _ _) by (now apply contains_first).
  rewrite (replace_absent (u "&amp;") _ _) by (now apply contains_first).
  rewrite (replace_absent (u "&quot;") _ _) by (now apply contains_first).
  rewrite (replace_absent (u "&lt;") _ _) by (now apply contains_first).
  rewrite (replace_absent (u "&gt;") _ _) by (now apply contains_first).
  rewrite strip_app_all by reflexivity.
  apply strip_rstrip, space_is_newline.
Qed.

End ElementRules.

(** * The second pass of the transformer *)

Section SecondPass.
Context `{Runtime}.

Lemma html_to_markdown_front s :
  html_to_markdown s =
  let '(content, iframes, scripts) := front s in
  cleanup (restore (u "SCRIPT") scripts (restore (u "IFRAME") iframes content)).
Proof.
  destruct s as [|c s]; [vm_compute; reflexivity|].
  unfold html_to_markdown, front, cleanup. cbv zeta.
  repeat match goal with
         | |- context [re_sub_st ?r ?f ?t ?st] => destruct (re_sub_st r f t st)
         end.
  reflexivity.
Qed.

(** ** A pattern fails when its continuation fails on every suffix *)

Lemma rep_fails {R} g p lo hi s pos (k : str -> nat -> option R) :
  (forall n pos', k (skipn n s) pos' = None) -> rep g p lo hi s pos k = None.
Proof.
  revert lo hi pos. induction s as [|c s IH]; intros lo hi pos Hk; cbn [rep].
  - pose proof (Hk 0 pos) as H0. cbn [skipn] in H0. rewrite H0.
    destruct g, lo; reflexivity.
  - assert (Hm : match hi with
                 | Some 0 => None
                 | _ => if p c then rep g p (pred lo) (option_map pred hi) s (S pos) k
                        else None
                 end = None).
    { destruct hi as [[|h]|]; try reflexivity;
        (destruct (p c); [|reflexivity]; apply IH; intros n pos'; exact (Hk (S n) pos')). }
    pose proof (Hk 0 pos) as H0. cbn [skipn] in H0. rewrite Hm, H0.
    destruct g, lo; reflexivity.
Qed.

Lemma exec_fails {R} r s pos caps (k : str -> nat -> captures -> option R) :
  (forall n pos' caps', k (skipn n s) pos' caps' = None) -> exec r s pos caps k = None.
Proof.
  revert s pos caps k. induction r as [|p|g lo hi p|r1 IH1 r2 IH2|r1 IH1 r2 IH2|m r IH];
    intros s pos caps k Hk; cbn [exec].
  - exact (Hk 0 pos caps).
  - destruct s as [|c s]; [reflexivity|]. destruct (p c); [|reflexivity].
    exact (Hk 1 (S pos) caps).
  - apply rep_fails. intros n pos'. apply Hk.
  - apply IH1. intros n pos' caps'. apply IH2. intros j pos'' caps''.
    rewrite skipn_skipn. apply Hk.
  - rewrite (IH1 _ _ _ _ Hk). cbn [orelse]. now apply IH2.
  - apply IH. intros n pos' caps'. apply Hk.
Qed.

(** A pattern that requires a character fails on a text without it. *)
Lemma exec_requires {R} c r s pos caps (k : str -> nat -> captures -> option R) :
  requires c r -> contains [c] s = false -> exec r s pos caps k = None.
Proof.
  revert s pos caps k. induction r as [|p|g lo hi p|r1 IH1 r2 IH2|r1 IH1 r2 IH2|m r IH];
    intros s pos caps k Hr Hs; cbn [requires] in Hr; cbn [exec]; try contradiction.
  - destruct s as [|d s]; [reflexivity|]. destruct (p d) eqn:Hd; [|reflexivity].
    apply Hr in Hd. subst d. cbn [contains startswith] in Hs.
    now rewrite N.eqb_refl in Hs.
  - destruct Hr as [Hr|Hr]; [now apply IH1|].
    apply exec_fails. intros n pos' caps'. apply IH2; [exact Hr|].
    now apply contains_skipn.
  - destruct Hr as [Hr1 Hr2]. rewrite (IH1 _ _ _ _ Hr1 Hs). cbn [orelse]. now apply IH2.
  - now apply IH.
Qed.

(** ** Every rule that opens a tag is within the tag pattern *)

Lemma starts_gt_dropwhile s :
  startswith [c_gt] (dropwhile (not_chr c_gt) s) = contains [c_gt] s.
Proof.
  induction s as [|c s IH]; [reflexivity|]. cbn [dropwhile]. rewrite contains_cons.
  unfold not_chr. cbn [startswith]. rewrite andb_true_r.
  destruct (N.eqb c_gt c) eqn:E; cbn [negb orb].
  - cbn [startswith]. now rewrite E.
  - exact IH.
Qed.

Lemma match_at_tag_here s : match_at tag_re s = None <-> tag_here s = false.
Proof.
  rewrite match_at_tag. destruct s as [|c s]; [tauto|]. cbn [tag_here].
  rewrite starts_gt_dropwhile.
  assert (E : (1 <=? run (not_chr c_gt) s) && contains [c_gt] s
              = negb (startswith [c_gt] s) && contains [c_gt] s).
  { destruct s as [|d s]; [reflexivity|]. cbn [run startswith]. unfold not_chr.
    rewrite andb_true_r. now destruct (N.eqb c_gt d). }
  rewrite <- !andb_assoc, E.
  destruct (N.eqb c_lt c && (negb (startswith [c_gt] s) && contains [c_gt] s));
    split; congruence.
Qed.

Lemma tag_subsumes p1 p2 r1 r2 s :
  (forall d, p1 d = true -> d = c_lt) -> p2 c_gt = false -> requires c_gt r2 ->
  never_matches tag_re s ->
  never_matches (Cat (Cat (Chr p1) (Cat (Chr p2) r1)) r2) s.
Proof.
  intros H1 H2 Hr Hs n. specialize (Hs n). apply match_at_tag_here in Hs.
  unfold match_at. cbn [exec].
  destruct (skipn n s) as [|a [|b t]]; try reflexivity.
  - now destruct (p1 a).
  - destruct (p1 a) eqn:Ea; [|reflexivity]. apply H1 in Ea. subst a.
    destruct (p2 b) eqn:Eb; [|reflexivity].
    cbn [tag_here startswith] in Hs. rewrite N.eqb_refl, andb_true_r in Hs.
    assert (Hb : N.eqb c_gt b = false).
    { destruct (N.eqb_spec c_gt b) as [<-|]; [congruence|reflexivity]. }
    rewrite Hb in Hs. cbn [negb andb] in Hs.
    rewrite contains_cons in Hs. apply orb_false_iff in Hs as [_ Hs].
    apply exec_fails. intros j pos' caps'. apply (exec_requires c_gt); [exact Hr|].
    now apply contains_skipn.
Qed.

Lemma requires_seq c rs : Exists (requires c) rs -> requires c (seq_re rs).
Proof.
  induction 1 as [r rs Hr|r rs _ IH]; cbn [seq_re fold_right requires]; [now left|now right].
Qed.

Lemma requires_lit c l : In c l -> requires c (lit l).
Proof.
  induction l as [|d l IH]; [contradiction|]. intros [->|Hl].
  - left. intros e He. unfold is_chr in He. now apply N.eqb_eq in He.
  - right. now apply IH.
Qed.

Lemma requires_lit_i c l : is_letter_ascii c = false -> In c l -> requires c (lit_i l).
Proof.
  intros Hc. induction l as [|d l IH]; [contradiction|]. intros [->|Hl].
  - left. intros e He. unfold chr_i in He. rewrite Hc in He. now apply N.eqb_eq in He.
  - right. now apply IH.
Qed.

Lemma element_subsumed name s :
  match name with x :: _ => N.eqb x c_gt = false | [] => False end ->
  never_matches tag_re s -> never_matches (element_re name) s.
Proof.
  destruct name as [|x l]; [contradiction|]. intros Hx Hs.
  apply (tag_subsumes (is_chr c_lt) (is_chr x) (lit l)
           (seq_re [star (not_chr c_gt); lit [c_gt]; Grp 1 (lazy_star any);
                    lit (c_lt :: c_slash :: (x :: l) ++ [c_gt])])).
  - intros d Hd. unfold is_chr in Hd. now apply N.eqb_eq in Hd.
  - exact Hx.
  - apply requires_seq. right. left. apply requires_lit. now left.
  - exact Hs.
Qed.

Lemma embed_subsumed name s :
  match name with x :: _ => chr_i x c_gt = false | [] => False end ->
  never_matches tag_re s -> never_matches (embed_re name) s.
Proof.
  destruct name as [|x l]; [contradiction|]. intros Hx Hs.
  apply (tag_subsumes (chr_i c_lt) (chr_i x) (lit_i l)
           (seq_re [star (not_chr c_gt); lit_i [c_gt]; lazy_star any;
                    lit_i (c_lt :: c_slash :: (x :: l) ++ [c_gt])])).
  - intros d Hd. unfold chr_i in Hd. change (is_letter_ascii c_lt) with false in Hd.
    cbn iota in Hd. now apply N.eqb_eq in Hd.
  - exact Hx.
  - apply requires_seq. right. left. apply requires_lit_i; [reflexivity|now left].
  - exact Hs.
Qed.

Local Ltac closing_gt :=
  cbn [requires]; repeat first [ left; apply requires_lit; now left | right ].

Lemma link_subsumed s : never_matches tag_re s -> never_matches link_re s.
Proof.
  intros Hs. unfold link_re. cbn [seq_re fold_right].
  change (lit (u "<a")) with (Cat (Chr (is_chr c_lt)) (Cat (Chr (is_chr 97%N)) (lit []))).
  eapply tag_subsumes; [| |closing_gt|exact Hs].
  - intros d Hd. unfold is_chr in Hd. now apply N.eqb_eq in Hd.
  - reflexivity.
Qed.

Lemma img_alt_subsumed s : never_matches tag_re s -> never_matches img_alt_re s.
Proof.
  intros Hs. unfold img_alt_re. cbn [seq_re fold_right].
  change (lit (u "<img"))
    with (Cat (Chr (is_chr c_lt)) (Cat (Chr (is_chr 105%N)) (lit (u "mg")))).
  eapply tag_subsumes; [| |closing_gt|exact Hs].
  - intros d Hd. unfold is_chr in Hd. now apply N.eqb_eq in Hd.
  - reflexivity.
Qed.

Lemma img_subsumed s : never_matches tag_re s -> never_matches img_re s.
Proof.
  intros Hs. unfold img_re. cbn [seq_re fold_right].
  change (lit (u "<img"))
    with (Cat (Chr (is_chr c_lt)) (Cat (Chr (is_chr 105%N)) (lit (u "mg")))).
  eapply tag_subsumes; [| |closing_gt|exact Hs].
  - intros d Hd. unfold is_chr in Hd. now apply N.eqb_eq in Hd.
  - reflexivity.
Qed.

Lemma br_subsumed s : never_matches tag_re s -> never_matches br_re s.
Proof.
  intros Hs. unfold br_re. cbn [seq_re fold_right].
  change (lit (u "<br"))
    with (Cat (Chr (is_chr c_lt)) (Cat (Chr (is_chr 98%N)) (lit (u "r")))).
  eapply tag_subsumes; [| |closing_gt|exact Hs].
  - intros d Hd. unfold is_chr in Hd. now apply N.eqb_eq in Hd.
  - reflexivity.
Qed.

(** ** What the collapse of newlines and the strip keep *)

Lemma thinned_refl s : thinned s s.
Proof. induction s; now constructor. Qed.

(** A run of newlines, of two at least, thinned to two. *)
Lemma thinned_run k a b :
  thinned a b -> thinned (repeat c_nl k ++ c_nl :: c_nl :: a) (c_nl :: c_nl :: b).
Proof.
  intros Hab. induction k as [|k IH]; cbn [repeat List.app].
  - now do 2 constructor.
  - now constructor.
Qed.

Lemma run_repeat (s : str) :
  s = repeat c_nl (run (is_chr c_nl) s) ++ dropwhile (is_chr c_nl) s.
Proof.
  induction s as [|c s IH]; [reflexivity|]. cbn [run dropwhile].
  destruct (is_chr c_nl c) eqn:E; [|reflexivity].
  unfold is_chr in E. apply N.eqb_eq in E. subst c. cbn [repeat List.app]. now f_equal.
Qed.

(** The rule [\n{3,}] thins the newlines. *)
Lemma collapse_thinned s : thinned s (re_sub newlines_re [TLit [c_nl; c_nl]] s).
Proof.
  remember (length s) as n eqn:Hn. assert (Hl : length s <= n) by lia. clear Hn.
  revert s Hl. induction n as [|n IH]; intros s Hl.
  - destruct s; [constructor|cbn [length] in Hl; lia].
  - destruct s as [|c s]; [constructor|]. cbn [length] in Hl.
    unfold re_sub, newlines_re in *. rewrite sub_rep_cons.
    destruct (3 <=? run (is_chr c_nl) (c :: s)) eqn:E3.
    + apply Nat.leb_le in E3.
      destruct (run (is_chr c_nl) (c :: s)) as [|[|k]] eqn:Er; [lia|lia|].
      cbn [Nat.eqb expand flat_map List.app].
      rewrite (run_repeat (c :: s)) at 1. rewrite Er.
      replace (repeat c_nl (S (S k))) with (repeat c_nl k ++ [c_nl; c_nl])
        by (change [c_nl; c_nl] with (repeat c_nl 2); rewrite <- repeat_app;
            f_equal; lia).
      rewrite <- app_assoc. cbn [List.app]. apply thinned_run. apply IH.
      pose proof (f_equal (@length _) (run_repeat (c :: s))) as Hlen.
      rewrite length_app, repeat_length, Er in Hlen. cbn [length] in Hlen. lia.
    + constructor. apply IH. lia.
Qed.

(** A text without newline that opens the thinned text opens the text. *)
Lemma thinned_startswith p a b :
  thinned a b -> contains [c_nl] p = false ->
  startswith p b = true -> startswith p a = true.
Proof.
  intros Hab Hp. revert p Hp. induction Hab as [|c a b Hab IH|a b Hab IH]; intros p Hp Hs.
  - exact Hs.
  - destruct p as [|d p]; [reflexivity|]. cbn [startswith] in *.
    apply andb_true_iff in Hs as [-> Hs]. cbn [andb]. apply IH; [|exact Hs].
    eapply contains_tail, Hp.
  - destruct p as [|d p]; [reflexivity|]. exfalso.
    cbn [startswith] in Hs. apply andb_true_iff in Hs as [Hd _].
    apply N.eqb_eq in Hd. subst d. cbn [contains startswith] in Hp.
    now rewrite N.eqb_refl in Hp.
Qed.

Lemma thinned_contains p a b :
  thinned a b -> contains [c_nl] p = false ->
  contains p a = false -> contains p b = false.
Proof.
  intros Hab Hp. induction Hab as [|c a b Hab IH|a b Hab IH]; intros Ha.
  - exact Ha.
  - rewrite contains_cons in *. apply orb_false_iff in Ha as [Hs Ha].
    rewrite (IH Ha), orb_false_r.
    destruct (startswith p (c :: b)) eqn:E; [|reflexivity].
    rewrite (thinned_startswith p (c :: a) (c :: b)) in Hs;
      [discriminate|now constructor|exact Hp|exact E].
  - apply IH. eapply contains_tail, Ha.
Qed.

Lemma thinned_contains_one c a b :
  thinned a b -> contains [c] b = true -> contains [c] a = true.
Proof.
  intros Hab. induction Hab as [|d a b Hab IH|a b Hab IH]; intros Hb.
  - exact Hb.
  - rewrite contains_cons in *. apply orb_true_iff in Hb as [Hb|Hb].
    + cbn [startswith] in *. now rewrite Hb.
    + rewrite (IH Hb). apply orb_true_r.
  - rewrite contains_cons. rewrite (IH Hb). apply orb_true_r.
Qed.

Lemma thinned_tag_here a b : thinned a b -> tag_here b = true -> tag_here a = true.
Proof.
  intros Hab. destruct Hab as [|c a b Hab|a b Hab]; intros Hb.
  - exact Hb.
  - cbn [tag_here] in *. apply andb_true_iff in Hb as [[-> Hs]%andb_true_iff Hc].
    rewrite (thinned_contains_one _ _ _ Hab Hc), andb_true_r. cbn [andb].
    apply negb_true_iff in Hs. apply negb_true_iff.
    destruct Hab as [|d a b Hab|a b Hab]; exact Hs.
  - cbn [tag_here] in Hb. discriminate.
Qed.

Lemma thinned_never_tag a b :
  thinned a b -> never_matches tag_re a -> never_matches tag_re b.
Proof.
  intros Hab. induction Hab as [|c a b Hab IH|a b Hab IH]; intros Ha.
  - exact Ha.
  - apply never_matches_cons.
    + apply match_at_tag_here. pose proof (never_matches_here _ _ Ha) as H0.
      apply match_at_tag_here in H0.
      destruct (tag_here (c :: b)) eqn:E; [|reflexivity].
      rewrite (thinned_tag_here (c :: a) (c :: b)) in H0; [discriminate|now constructor|exact E].
    + apply IH. eapply never_matches_tail, Ha.
  - apply IH. eapply never_matches_tail, Ha.
Qed.

(** The tag pattern on a part of a text. *)
Lemma tag_here_app s b : tag_here s = true -> tag_here (s ++ b) = true.
Proof.
  destruct s as [|c s]; [discriminate|]. cbn [tag_here List.app].
  intros [[-> Hs]%andb_true_iff Hc]%andb_true_iff. cbn [andb].
  assert (Hc' : contains [c_gt] (s ++ b) = true).
  { destruct (contains [c_gt] (s ++ b)) eqn:E; [reflexivity|].
    apply contains_app in E. congruence. }
  rewrite Hc', andb_true_r.
  destruct s as [|d s]; [discriminate|exact Hs].
Qed.

Lemma never_tag_prefix s b : never_matches tag_re (s ++ b) -> never_matches tag_re s.
Proof.
  induction s as [|c s IH]; intros Hs.
  - intros [|n]; reflexivity.
  - apply never_matches_cons.
    + apply match_at_tag_here. pose proof (never_matches_here _ _ Hs) as H0.
      apply match_at_tag_here in H0.
      destruct (tag_here (c :: s)) eqn:E; [|reflexivity].
      now rewrite (tag_here_app (c :: s) b E) in H0.
    + apply IH. eapply never_matches_tail, Hs.
Qed.

Lemma never_tag_strip p s : never_matches tag_re s -> never_matches tag_re (strip p s).
Proof.
  intros Hs. destruct (strip_infix p s) as (a & b & E).
  apply (never_tag_prefix _ b).
  assert (Hk : strip p s ++ b = skipn (length a) s).
  { rewrite E at 2. now rewrite skipn_self. }
  rewrite Hk. intros n. rewrite skipn_skipn. apply Hs.
Qed.

(** ** The second pass *)

(** The cleanup of a text without the entities that it decodes: the
    collapse of the newlines and the strip are all that is left of it, and
    the result is without these entities too. *)
Lemma cleanup_without_entities T :
  Forall (fun e => contains e T = false) residual_entities ->
  cleanup T = strip is_space (re_sub newlines_re [TLit [c_nl; c_nl]] T)
  /\ Forall (fun e => contains e (cleanup T) = false) residual_entities.
Proof.
  intros He.
  assert (Hc : Forall (fun e => contains e (re_sub newlines_re [TLit [c_nl; c_nl]] T) = false)
                      residual_entities).
  { unfold residual_entities in *.
    repeat match goal with
           | H : Forall _ (_ :: _) |- _ => apply List.Forall_cons_iff in H as [? H]
           end.
    repeat (constructor;
            [apply (thinned_contains _ _ _ (collapse_thinned T)); [reflexivity|assumption]|]).
    constructor. }
  assert (Ec : cleanup T = strip is_space (re_sub newlines_re [TLit [c_nl; c_nl]] T)).
  { unfold cleanup, residual_entities in *.
    repeat match goal with
           | H : Forall _ (_ :: _) |- _ => apply List.Forall_cons_iff in H as [? H]
           end.
    rewrite (replace_absent (u "&nbsp;")) by assumption.
    rewrite (replace_absent (u "&amp;")) by assumption.
    rewrite (replace_absent (u "&quot;")) by assumption.
    rewrite (replace_absent (u "&lt;")) by assumption.
    rewrite (replace_absent (u "&gt;")) by assumption.
    reflexivity. }
  split; [exact Ec|]. rewrite Ec.
  eapply List.Forall_impl; [|exact Hc]. intros e. apply contains_strip.
Qed.

Lemma heading_subsumed s level : never_matches tag_re s -> heading s level = s.
Proof.
  intros Hs. unfold heading, re_sub. apply sub_never.
  apply element_subsumed; [reflexivity|exact Hs].
Qed.

(** A text on which no step of the transformer finds anything is returned
    as it is. *)
Lemma fixed_point_criterion (o : str) :
  never_matches tag_re o ->
  unescape o = o ->
  contains (u "<![CDATA[") o = false -> contains (u "]]>") o = false ->
  Forall (fun e => contains e o = false) residual_entities ->
  no3 o -> strip is_space o = o ->
  html_to_markdown o = o.
Proof.
  intros Hn Hu Hc1 Hc2 He Hnl Hst. unfold residual_entities in He.
  repeat match goal with
         | H : Forall _ (_ :: _) |- _ => apply List.Forall_cons_iff in H as [? H]
         end.
  unfold html_to_markdown.
  destruct o as [|c0 s0]; [reflexivity|].
  remember (c0 :: s0) as s eqn:Es. clear Es c0 s0.
  cbv zeta. rewrite Hu.
  rewrite (replace_absent (u "<![CDATA[") [] s) by assumption.
  rewrite (replace_absent (u "]]>") [] s) by assumption.
  cbn [seq fold_left]. rewrite !(heading_subsumed s) by assumption.
  rewrite !(sub_never (element_re _) _ s)
    by (apply element_subsumed; [reflexivity|assumption]).
  unfold re_sub.
  rewrite !(sub_never (element_re _) _ s)
    by (apply element_subsumed; [reflexivity|assumption]).
  rewrite (sub_never link_re _ s) by (now apply link_subsumed).
  rewrite (sub_never img_alt_re _ s) by (now apply img_alt_subsumed).
  rewrite (sub_never img_re _ s) by (now apply img_subsumed).
  rewrite (sub_never br_re _ s) by (now apply br_subsumed).
  rewrite !(sub_never (element_re _) _ s)
    by (apply element_subsumed; [reflexivity|assumption]).
  rewrite (sub_st_never (embed_re (u "iframe")) _ s [])
    by (apply embed_subsumed; [reflexivity|assumption]).
  rewrite (sub_st_never (embed_re (u "script")) _ s [])
    by (apply embed_subsumed; [reflexivity|assumption]).
  rewrite (sub_never tag_re _ s) by assumption.
  rewrite !restore_nil.
  fold (re_sub newlines_re [TLit [c_nl; c_nl]] s).
  rewrite (collapse_newlines_fixed _ s Hnl).
  rewrite (replace_absent (u "&nbsp;")) by assumption.
  rewrite (replace_absent (u "&amp;")) by assumption.
  rewrite (replace_absent (u "&quot;")) by assumption.
  rewrite (replace_absent (u "&lt;")) by assumption.
  rewrite (replace_absent (u "&gt;")) by assumption.
  exact Hst.
Qed.

(** The text left by the stripping of the tags holds no tag. *)
Lemma front_without_tag s T iframes scripts :
  front s = (T, iframes, scripts) -> never_matches tag_re T.
Proof.
  unfold front. cbv zeta.
  repeat match goal with
         | |- context [re_sub_st ?r ?f ?t ?st] => destruct (re_sub_st r f t st)
         end.
  intros [= <- _ _]. apply (strip_tags_tagless_aux (length l1)). lia.
Qed.

(** C4, as amended. When the first pass saves no iframe or script block and
    the text left by the stripping of the tags holds none of the entities
    that the cleanup decodes, no tag pattern matches in the output; and when
    that output moreover holds no CDATA marker and nothing that
    [html.unescape] replaces, the second pass returns it as it is. *)
Theorem second_pass_changes_nothing (s T : str) :
  front s = (T, [], []) ->
  Forall (fun e => contains e T = false) residual_entities ->
  never_matches tag_re (html_to_markdown s)
  /\ (unescape (html_to_markdown s) = html_to_markdown s ->
      contains (u "<![CDATA[") (html_to_markdown s) = false ->
      contains (u "]]>") (html_to_markdown s) = false ->
      html_to_markdown (html_to_markdown s) = html_to_markdown s).
Proof.
  intros Hf He.
  pose proof (front_without_tag _ _ _ _ Hf) as HT.
  pose proof (html_to_markdown_front s) as Eo. rewrite Hf in Eo. rewrite !restore_nil in Eo.
  destruct (cleanup_without_entities T He) as [Ec Hent].
  assert (Hn : never_matches tag_re (html_to_markdown s)).
  { rewrite Eo, Ec. apply never_tag_strip.
    exact (thinned_never_tag _ _ (collapse_thinned T) HT). }
  split; [exact Hn|]. intros Hu Hc1 Hc2.
  apply fixed_point_criterion; try assumption.
  - now rewrite Eo.
  - rewrite Eo. apply cleanup_no3.
  - rewrite Eo. apply cleanup_stripped.
Qed.

End SecondPass.

Lemma second_pass_changes_nothing_witness :
  (@front latin1_runtime tagged_text = (u "AT&T is **here**, a < b", [], [])
   /\ Forall (fun e => contains e (u "AT&T is **here**, a < b") = false) residual_entities
   /\ @unescape latin1_runtime (@html_to_markdown latin1_runtime tagged_text)
      = @html_to_markdown latin1_runtime tagged_text
   /\ contains (u "<![CDATA[") (@html_to_markdown latin1_runtime tagged_text) = false
   /\ contains (u "]]>") (@html_to_markdown latin1_runtime tagged_text) = false)
  /\ (never_matches tag_re (@html_to_markdown latin1_runtime tagged_text)
      /\ @html_to_markdown latin1_runtime (@html_to_markdown latin1_runtime tagged_text)
         = @html_to_markdown latin1_runtime tagged_text).
Proof.
  assert (Hf : @front latin1_runtime tagged_text = (u "AT&T is **here**, a < b", [], []))
    by (vm_compute; reflexivity).
  assert (He : Forall (fun e => contains e (u "AT&T is **here**, a < b") = false)
                      residual_entities)
    by (vm_compute; repeat constructor).
  destruct (@second_pass_changes_nothing latin1_runtime tagged_text _ Hf He) as [Hn Hs].
  split.
  - repeat split; try assumption; vm_compute; reflexivity.
  - split; [exact Hn|]. apply Hs; vm_compute; reflexivity.
Defined.

(** C4, as stated, fails: the cleanup decodes the entities of a doubly
    escaped tag, so that the output holds a tag; the tag pattern matches on
    the second pass, which takes the element for markup, and the two outputs
    differ in more than whitespace. *)
Lemma second_pass_reads_decoded_tag :
  @html_to_markdown latin1_runtime escaped_twice = u "<b>x</b>"
  /\ match_at tag_re (@html_to_markdown latin1_runtime escaped_twice) <> None
  /\ @html_to_markdown latin1_runtime (@html_to_markdown latin1_runtime escaped_twice)
     = u "**x**"
  /\ without_space (@html_to_markdown latin1_runtime
                      (@html_to_markdown latin1_runtime escaped_twice))
     <> without_space (@html_to_markdown latin1_runtime escaped_twice).
Proof. vm_compute. repeat split; discriminate. Qed.

(** * Properties of generate_markdown_files *)

Section DateProofs.
Context `{Runtime} `{Platform}.

(** Enumeration of a bounded number. *)
Local Tactic Notation "enum" constr(n) integer(bound) :=
  let k := fresh "k" in
  let Hk := fresh "Hk" in
  remember (N.to_nat n) as k eqn:Hk;
  apply (f_equal N.of_nat) in Hk; rewrite N2Nat.id in Hk; subst n;
  do bound (try destruct k as [|k]); try (exfalso; lia).

Lemma digit_char (k : N) :
  (k < 10)%N ->
  is_decimal (48 + k) = true /\ is_space (48 + k) = false
  /\ decimal_value (48 + k) = k.
Proof.
  intros Hk.
  assert (E : (k = 0 \/ k = 1 \/ k = 2 \/ k = 3 \/ k = 4 \/ k = 5 \/ k = 6 \/ k = 7
               \/ k = 8 \/ k = 9)%N) by lia.
  repeat (destruct E as [->|E]; [now vm_compute| ]).
  subst k. now vm_compute.
Qed.

Lemma str_of_N_four (y : N) :
  (1000 <= y <= 9999)%N ->
  str_of_N y = [48 + y / 1000; 48 + (y / 100) mod 10; 48 + (y / 10) mod 10;
                48 + y mod 10]%N.
Proof.
  intros Hy. unfold str_of_N, str_of_nat. rewrite N2Nat.id.
  destruct (N.to_nat y) as [|[|[|n]]] eqn:E; try lia.
  cbn [digits_fuel].
  assert (H1 : (y <? 10)%N = false) by (apply N.ltb_ge; lia).
  assert (Hd1 : (10 <= y / 10)%N) by (apply N.div_le_lower_bound; lia).
  assert (H2 : (y / 10 <? 10)%N = false) by (apply N.ltb_ge; lia).
  assert (Hd2 : (10 <= y / 10 / 10)%N)
    by (rewrite N.Div0.div_div; apply N.div_le_lower_bound; lia).
  assert (H3 : (y / 10 / 10 <? 10)%N = false) by (apply N.ltb_ge; lia).
  assert (Hd3 : (y / 10 / 10 / 10 < 10)%N)
    by (rewrite !N.Div0.div_div; apply N.Div0.div_lt_upper_bound; lia).
  assert (H4 : (y / 10 / 10 / 10 <? 10)%N = true) by (now apply N.ltb_lt).
  rewrite H1, H2, H3, H4.
  assert (E2 : (y / 10 / 10 = y / 100)%N) by (now rewrite N.Div0.div_div).
  assert (E3 : (y / 10 / 10 / 10 = y / 1000)%N) by (now rewrite !N.Div0.div_div).
  rewrite E3 in *. rewrite E2. now rewrite (N.mod_small (y / 1000) 10).
Qed.

Lemma exec_Y {R} a b c e rest pos caps (k : str -> nat -> captures -> option R) :
  is_decimal a = true -> is_decimal b = true -> is_decimal c = true ->
  is_decimal e = true ->
  exec re_Y (a :: b :: c :: e :: rest) pos caps k
  = k rest (S (S (S (S pos)))) ((1, (pos, S (S (S (S pos))))) :: caps).
Proof.
  intros Ha Hb Hc He. unfold re_Y, seq_re, digit_re. cbn [fold_right exec].
  now rewrite Ha, Hb, Hc, He.
Qed.

Lemma exec_lit_one {R} c rest pos caps (k : str -> nat -> captures -> option R) :
  exec (lit [c]) (c :: rest) pos caps k = k rest (S pos) caps.
Proof.
  unfold lit, seq_re. cbn [map fold_right exec]. unfold is_chr.
  now rewrite N.eqb_refl.
Qed.

(** The patterns of the month, the day, the minute and the second on two
    digits: the first alternative that matches takes both digits. *)
Lemma exec_m {R} mo rest pos caps (k : str -> nat -> captures -> option R) v :
  (1 <= mo <= 12)%N ->
  k rest (S (S pos)) ((2, (pos, S (S pos))) :: caps) = Some v ->
  exec re_m (pad2 mo ++ rest) pos caps k = Some v.
Proof.
  intros Hm Hk. enum mo 13; vm_compute; now rewrite Hk.
Qed.

Lemma exec_d {R} d rest pos caps (k : str -> nat -> captures -> option R) v :
  (1 <= d <= 31)%N ->
  k rest (S (S pos)) ((3, (pos, S (S pos))) :: caps) = Some v ->
  exec re_d (pad2 d ++ rest) pos caps k = Some v.
Proof.
  intros Hd Hk. enum d 32; vm_compute; now rewrite Hk.
Qed.

Lemma exec_M {R} mi rest pos caps (k : str -> nat -> captures -> option R) v :
  (mi < 60)%N ->
  k rest (S (S pos)) ((5, (pos, S (S pos))) :: caps) = Some v ->
  exec re_M (pad2 mi ++ rest) pos caps k = Some v.
Proof.
  intros Hm Hk. enum mi 60; vm_compute; now rewrite Hk.
Qed.

Lemma exec_S {R} s rest pos caps (k : str -> nat -> captures -> option R) v :
  (s < 60)%N ->
  k rest (S (S pos)) ((6, (pos, S (S pos))) :: caps) = Some v ->
  exec re_S (pad2 s ++ rest) pos caps k = Some v.
Proof.
  intros Hs Hk. enum s 60; vm_compute; now rewrite Hk.
Qed.

(** The blank of the format and the hour behind it. *)
Lemma exec_blank_H {R} h rest pos caps (k : str -> nat -> captures -> option R) v :
  (h < 24)%N ->
  k rest (S (S (S pos))) ((4, (S pos, S (S (S pos)))) :: caps) = Some v ->
  exec (plus is_space) (c_space :: pad2 h ++ rest) pos caps
       (fun s' pos' caps' => exec re_H s' pos' caps' k) = Some v.
Proof.
  intros Hh Hk. enum h 24; vm_compute; now rewrite Hk.
Qed.

Lemma py_int_pad2 n : (n < 100)%N -> py_int (pad2 n) = n.
Proof. intros Hn. enum n 100; now vm_compute. Qed.

Lemma py_int_four a b c e :
  (a < 10)%N -> (b < 10)%N -> (c < 10)%N -> (e < 10)%N ->
  py_int [48 + a; 48 + b; 48 + c; 48 + e]%N = (1000 * a + 100 * b + 10 * c + e)%N.
Proof.
  intros Ha Hb Hc He.
  destruct (digit_char a Ha) as (_ & Sa & Va), (digit_char b Hb) as (_ & _ & Vb),
    (digit_char c Hc) as (_ & _ & Vc), (digit_char e He) as (_ & Se & Ve).
  unfold py_int, strip, lstrip, rstrip. cbn [dropwhile]. rewrite Sa.
  cbn [rev List.app dropwhile]. rewrite Se. cbn [rev List.app fold_left].
  rewrite Va, Vb, Vc, Ve. lia.
Qed.

Lemma year_digits y :
  (1000 <= y <= 9999)%N ->
  (y / 1000 < 10 /\ (y / 100) mod 10 < 10 /\ (y / 10) mod 10 < 10 /\ y mod 10 < 10
   /\ 1000 * (y / 1000) + 100 * ((y / 100) mod 10) + 10 * ((y / 10) mod 10) + y mod 10 = y)%N.
Proof.
  intros Hy.
  pose proof (N.Div0.div_mod y 10) as E1.
  pose proof (N.Div0.div_mod (y / 10) 10) as E2.
  pose proof (N.Div0.div_mod (y / 100) 10) as E3.
  pose proof (N.mod_upper_bound y 10) as B1.
  pose proof (N.mod_upper_bound (y / 10) 10) as B2.
  pose proof (N.mod_upper_bound (y / 100) 10) as B3.
  assert (D2 : (y / 10 / 10 = y / 100)%N) by (now rewrite N.Div0.div_div).
  assert (D3 : (y / 100 / 10 = y / 1000)%N) by (now rewrite N.Div0.div_div).
  rewrite D2 in E2. rewrite D3 in E3.
  assert (y / 1000 < 10)%N by (apply N.Div0.div_lt_upper_bound; lia).
  lia.
Qed.

(** The text of a date and a time of day matches the first format, to its
    end. *)
Lemma exec_datetime {R} a b c e mo d h mi s (k : str -> nat -> captures -> option R) v :
  is_decimal a = true -> is_decimal b = true -> is_decimal c = true ->
  is_decimal e = true ->
  (1 <= mo <= 12)%N -> (1 <= d <= 31)%N -> (h < 24)%N -> (mi < 60)%N -> (s < 60)%N ->
  k [] 19 [(6, (17, 19)); (5, (14, 16)); (4, (11, 13)); (3, (8, 10)); (2, (5, 7));
           (1, (0, 4))] = Some v ->
  exec datetime_re
    (a :: b :: c :: e :: 45%N :: pad2 mo ++ 45%N :: pad2 d ++ c_space :: pad2 h
       ++ 58%N :: pad2 mi ++ 58%N :: pad2 s ++ []) 0 [] k = Some v.
Proof.
  intros Ha Hb Hc He Hmo Hd Hh Hmi Hs Hk.
  unfold datetime_re, seq_re. cbn [fold_right exec].
  rewrite exec_Y by assumption.
  change (lit (u "-")) with (lit [45%N]). change (lit (u ":")) with (lit [58%N]).
  rewrite exec_lit_one. apply exec_m; [exact Hmo|].
  rewrite exec_lit_one. apply exec_d; [exact Hd|].
  apply exec_blank_H; [exact Hh|].
  rewrite exec_lit_one. apply exec_M; [exact Hmi|].
  rewrite exec_lit_one. apply exec_S; [exact Hs|].
  exact Hk.
Qed.

Lemma exec_date {R} a b c e mo d (k : str -> nat -> captures -> option R) v :
  is_decimal a = true -> is_decimal b = true -> is_decimal c = true ->
  is_decimal e = true ->
  (1 <= mo <= 12)%N -> (1 <= d <= 31)%N ->
  k [] 10 [(3, (8, 10)); (2, (5, 7)); (1, (0, 4))] = Some v ->
  exec date_re (a :: b :: c :: e :: 45%N :: pad2 mo ++ 45%N :: pad2 d ++ []) 0 [] k
  = Some v.
Proof.
  intros Ha Hb Hc He Hmo Hd Hk.
  unfold date_re, seq_re. cbn [fold_right exec].
  rewrite exec_Y by assumption.
  change (lit (u "-")) with (lit [45%N]).
  rewrite exec_lit_one. apply exec_m; [exact Hmo|].
  rewrite exec_lit_one. apply exec_d; [exact Hd|].
  exact Hk.
Qed.

Lemma days_in_month_le y mo : (days_in_month y mo <= 31)%N.
Proof.
  unfold days_in_month.
  repeat match goal with
         | |- context [match ?x with _ => _ end] => destruct x
         end; lia.
Qed.

Lemma date_text_explicit y mo d :
  (1000 <= y <= 9999)%N ->
  date_text y mo d
  = (48 + y / 1000)%N :: (48 + (y / 100) mod 10)%N :: (48 + (y / 10) mod 10)%N
      :: (48 + y mod 10)%N :: 45%N :: pad2 mo ++ 45%N :: pad2 d ++ [].
Proof. intros Hy. unfold date_text. now rewrite str_of_N_four. Qed.

Lemma datetime_text_explicit y mo d h mi s :
  (1000 <= y <= 9999)%N ->
  datetime_text y mo d h mi s
  = (48 + y / 1000)%N :: (48 + (y / 100) mod 10)%N :: (48 + (y / 10) mod 10)%N
      :: (48 + y mod 10)%N :: 45%N :: pad2 mo ++ 45%N :: pad2 d ++ c_space :: pad2 h
      ++ 58%N :: pad2 mi ++ 58%N :: pad2 s ++ [].
Proof. intros Hy. unfold datetime_text, date_text. now rewrite str_of_N_four. Qed.

(** On the text of a date and a time of day [strptime] reads the fields
    back, and only the checks of the date decide. *)
Lemma strptime_datetime_parsed y mo d h mi s :
  (1000 <= y <= 9999)%N -> (1 <= mo <= 12)%N -> (1 <= d <= 31)%N ->
  (h < 24)%N -> (mi < 60)%N -> (s < 60)%N ->
  strptime datetime_re (datetime_text y mo d h mi s)
  = let dt := {| dt_year := y; dt_month := mo; dt_day := d;
                 dt_hour := h; dt_minute := mi; dt_second := s |} in
    if valid_datetime dt then Some dt else None.
Proof.
  intros Hy Hmo Hd Hh Hmi Hs.
  destruct (year_digits y Hy) as (Ba & Bb & Bc & Be & Ey).
  rewrite (datetime_text_explicit y mo d h mi s Hy).
  unfold strptime, match_at.
  erewrite exec_datetime; try (apply digit_char; assumption); try lia; [|reflexivity].
  cbn [m_len m_caps span_of Nat.eqb].
  replace (length _ =? 19) with true by reflexivity. cbn [negb].
  change (group _ 1) with [48 + y / 1000; 48 + (y / 100) mod 10; 48 + (y / 10) mod 10;
                           48 + y mod 10]%N.
  change (group _ 2) with (pad2 mo). change (group _ 3) with (pad2 d).
  change (group _ 4) with (pad2 h). change (group _ 5) with (pad2 mi).
  change (group _ 6) with (pad2 s).
  rewrite py_int_four by assumption. rewrite Ey.
  now rewrite !py_int_pad2 by lia.
Qed.

Lemma strptime_date_parsed y mo d :
  (1000 <= y <= 9999)%N -> (1 <= mo <= 12)%N -> (1 <= d <= 31)%N ->
  strptime date_re (date_text y mo d)
  = let dt := {| dt_year := y; dt_month := mo; dt_day := d;
                 dt_hour := 0; dt_minute := 0; dt_second := 0 |} in
    if valid_datetime dt then Some dt else None.
Proof.
  intros Hy Hmo Hd.
  destruct (year_digits y Hy) as (Ba & Bb & Bc & Be & Ey).
  rewrite (date_text_explicit y mo d Hy).
  unfold strptime, match_at.
  erewrite exec_date; try (apply digit_char; assumption); try lia; [|reflexivity].
  cbn [m_len m_caps span_of Nat.eqb].
  replace (length _ =? 10) with true by reflexivity. cbn [negb].
  change (group _ 1) with [48 + y / 1000; 48 + (y / 100) mod 10; 48 + (y / 10) mod 10;
                           48 + y mod 10]%N.
  change (group _ 2) with (pad2 mo). change (group _ 3) with (pad2 d).
  rewrite py_int_four by assumption. rewrite Ey.
  now rewrite !py_int_pad2 by lia.
Qed.

Lemma valid_datetime_iff y mo d h mi s :
  (1000 <= y <= 9999)%N -> (1 <= mo <= 12)%N -> (1 <= d)%N ->
  (h < 24)%N -> (mi < 60)%N -> (s < 60)%N ->
  valid_datetime {| dt_year := y; dt_month := mo; dt_day := d;
                    dt_hour := h; dt_minute := mi; dt_second := s |}
  = (d <=? days_in_month y mo)%N.
Proof.
  intros Hy Hmo Hd Hh Hmi Hs.
  unfold valid_datetime. cbn [dt_year dt_month dt_day dt_hour dt_minute dt_second].
  replace (1 <=? y)%N with true by (symmetry; apply N.leb_le; lia).
  replace (y <=? 9999)%N with true by (symmetry; apply N.leb_le; lia).
  replace (1 <=? mo)%N with true by (symmetry; apply N.leb_le; lia).
  replace (mo <=? 12)%N with true by (symmetry; apply N.leb_le; lia).
  replace (1 <=? d)%N with true by (symmetry; apply N.leb_le; lia).
  replace (h <? 24)%N with true by (symmetry; apply N.ltb_lt; lia).
  replace (mi <? 60)%N with true by (symmetry; apply N.ltb_lt; lia).
  replace (s <? 60)%N with true by (symmetry; apply N.ltb_lt; lia).
  cbn [andb]. now rewrite !andb_true_r.
Qed.

Lemma strptime_datetime_text y mo d h mi s :
  (1000 <= y <= 9999)%N -> (1 <= mo <= 12)%N -> (1 <= d <= days_in_month y mo)%N ->
  (h < 24)%N -> (mi < 60)%N -> (s < 60)%N ->
  strptime datetime_re (datetime_text y mo d h mi s)
  = Some {| dt_year := y; dt_month := mo; dt_day := d;
            dt_hour := h; dt_minute := mi; dt_second := s |}.
Proof.
  intros Hy Hmo Hd Hh Hmi Hs. pose proof (days_in_month_le y mo) as Hd31.
  rewrite strptime_datetime_parsed by lia. cbv zeta.
  rewrite valid_datetime_iff by lia.
  now replace (d <=? days_in_month y mo)%N with true by (symmetry; apply N.leb_le; lia).
Qed.

Lemma strptime_date_text y mo d :
  (1000 <= y <= 9999)%N -> (1 <= mo <= 12)%N -> (1 <= d <= days_in_month y mo)%N ->
  strptime date_re (date_text y mo d)
  = Some {| dt_year := y; dt_month := mo; dt_day := d;
            dt_hour := 0; dt_minute := 0; dt_second := 0 |}.
Proof.
  intros Hy Hmo Hd. pose proof (days_in_month_le y mo) as Hd31.
  rewrite strptime_date_parsed by lia. cbv zeta.
  rewrite valid_datetime_iff by lia.
  now replace (d <=? days_in_month y mo)%N with true by (symmetry; apply N.leb_le; lia).
Qed.

(** The text of a date alone does not match the first format: no blank and
    no time of day follow the day. *)
Lemma exec_datetime_on_date {R} a b c e mo d (k : str -> nat -> captures -> option R) :
  is_decimal a = true -> is_decimal b = true -> is_decimal c = true ->
  is_decimal e = true ->
  (1 <= mo <= 12)%N -> (1 <= d <= 31)%N ->
  exec datetime_re (a :: b :: c :: e :: 45%N :: pad2 mo ++ 45%N :: pad2 d ++ []) 0 [] k
  = None.
Proof.
  intros Ha Hb Hc He Hmo Hd.
  unfold datetime_re, seq_re. cbn [fold_right exec].
  rewrite exec_Y by assumption.
  change (lit (u "-")) with (lit [45%N]). rewrite exec_lit_one.
  enum mo 13; enum d 32; now vm_compute.
Qed.

Lemma strptime_datetime_on_date y mo d :
  (1000 <= y <= 9999)%N -> (1 <= mo <= 12)%N -> (1 <= d <= 31)%N ->
  strptime datetime_re (date_text y mo d) = None.
Proof.
  intros Hy Hmo Hd.
  destruct (year_digits y Hy) as (Ba & Bb & Bc & Be & Ey).
  rewrite (date_text_explicit y mo d Hy). unfold strptime, match_at.
  rewrite exec_datetime_on_date; try (apply digit_char; assumption); try lia.
  reflexivity.
Qed.

Lemma pad2_digits n :
  (n < 100)%N -> (n / 10 < 10)%N /\ (n mod 10 < 10)%N.
Proof.
  intros Hn. split.
  - apply N.Div0.div_lt_upper_bound. lia.
  - apply N.mod_upper_bound. lia.
Qed.

Lemma first_token_no_space t :
  t <> [] -> Forall (fun c => is_space c = false) t -> first_token t = Some t.
Proof.
  intros Hne Hf. unfold first_token.
  destruct t as [|c t]; [congruence|].
  pose proof Hf as [Hc _]%Forall_cons_iff. cbn [dropwhile]. rewrite Hc.
  f_equal. clear Hne Hc. induction Hf as [|x l Hx _ IH]; [reflexivity|].
  cbn [takewhile]. rewrite Hx. cbn [negb]. now f_equal.
Qed.

Lemma first_token_date_text y mo d :
  (1000 <= y <= 9999)%N -> (mo < 100)%N -> (d < 100)%N ->
  first_token (date_text y mo d) = Some (date_text y mo d).
Proof.
  intros Hy Hmo Hd.
  destruct (year_digits y Hy) as (Ba & Bb & Bc & Be & _).
  destruct (pad2_digits mo Hmo) as [Bm1 Bm2], (pad2_digits d Hd) as [Bd1 Bd2].
  rewrite (date_text_explicit y mo d Hy). apply first_token_no_space; [discriminate|].
  unfold pad2. cbn [List.app].
  repeat (constructor; [first [reflexivity | now apply digit_char]|]).
  constructor.
Qed.

Lemma first_token_before_blank t r :
  t <> [] -> Forall (fun c => is_space c = false) t ->
  first_token (t ++ c_space :: r) = Some t.
Proof.
  intros Hne Hf. unfold first_token.
  destruct t as [|c t]; [congruence|].
  pose proof Hf as [Hc _]%Forall_cons_iff. cbn [List.app dropwhile]. rewrite Hc.
  f_equal. change (c :: t ++ c_space :: r) with ((c :: t) ++ c_space :: r).
  clear Hne Hc. induction Hf as [|x l Hx _ IH]; [reflexivity|].
  cbn [List.app takewhile]. rewrite Hx. cbn [negb]. now f_equal.
Qed.

Lemma date_text_no_space y mo d :
  (1000 <= y <= 9999)%N -> (mo < 100)%N -> (d < 100)%N ->
  date_text y mo d <> [] /\ Forall (fun c => is_space c = false) (date_text y mo d).
Proof.
  intros Hy Hmo Hd.
  destruct (year_digits y Hy) as (Ba & Bb & Bc & Be & _).
  destruct (pad2_digits mo Hmo) as [Bm1 Bm2], (pad2_digits d Hd) as [Bd1 Bd2].
  rewrite (date_text_explicit y mo d Hy). split; [discriminate|].
  unfold pad2. cbn [List.app].
  repeat (constructor; [first [reflexivity | now apply digit_char]|]).
  constructor.
Qed.

Lemma date_prefix_of_datetime y mo d h mi s :
  (1000 <= y <= 9999)%N -> (1 <= mo <= 12)%N -> (1 <= d <= 31)%N ->
  (h < 24)%N -> (mi < 60)%N -> (s < 60)%N ->
  date_prefix_of (datetime_text y mo d h mi s)
  = if (d <=? days_in_month y mo)%N then str_of_N y ++ pad2 mo ++ pad2 d ++ u "-" else [].
Proof.
  intros Hy Hmo Hd Hh Hmi Hs.
  assert (Hk : (1000 <=? y)%N = true) by (apply N.leb_le; lia).
  unfold date_prefix_of. rewrite strptime_datetime_parsed by assumption. cbv zeta.
  rewrite valid_datetime_iff by lia.
  destruct (d <=? days_in_month y mo)%N eqn:Ed.
  - unfold strftime_Ymd. cbn [dt_year dt_month dt_day]. rewrite Hk.
    now rewrite <- !app_assoc.
  - destruct (date_text_no_space y mo d) as [Hne Hf]; try lia.
    unfold datetime_text. change (u " ") with [c_space]. cbn [List.app].
    rewrite (first_token_before_blank _ _ Hne Hf).
    rewrite strptime_date_parsed by assumption. cbv zeta.
    rewrite valid_datetime_iff by lia. now rewrite Ed.
Qed.

Lemma date_prefix_of_date y mo d :
  (1000 <= y <= 9999)%N -> (1 <= mo <= 12)%N -> (1 <= d <= 31)%N ->
  date_prefix_of (date_text y mo d)
  = if (d <=? days_in_month y mo)%N then str_of_N y ++ pad2 mo ++ pad2 d ++ u "-" else [].
Proof.
  intros Hy Hmo Hd.
  assert (Hk : (1000 <=? y)%N = true) by (apply N.leb_le; lia).
  unfold date_prefix_of. rewrite strptime_datetime_on_date by assumption.
  rewrite first_token_date_text by lia.
  rewrite strptime_date_parsed by assumption. cbv zeta.
  rewrite valid_datetime_iff by lia.
  destruct (d <=? days_in_month y mo)%N; [|reflexivity].
  unfold strftime_Ymd. cbn [dt_year dt_month dt_day]. rewrite Hk.
  now rewrite <- !app_assoc.
Qed.

Lemma markdown_file_name dp yaml post :
  fst (markdown_file dp yaml post)
  = (if dp && truthy (date post) then date_prefix_of (text_of (date post)) else [])
    ++ stem_of post ++ u ".md".
Proof. reflexivity. Qed.

Lemma date_text_truthy y mo d r :
  (1000 <= y <= 9999)%N -> truthy (Some (date_text y mo d ++ r)) = true.
Proof. intros Hy. now rewrite (date_text_explicit y mo d Hy). Qed.

(** X10. With the date prefix switched on, a post whose date is a date of
    WordPress, [YYYY-MM-DD HH:MM:SS] with a year of four digits from 1000
    on, a month, a day of that month and a time of day, is written to the
    file [YYYYMMDD-stem.md]; so is a post whose date is [YYYY-MM-DD] alone,
    through the second format. *)
Theorem wordpress_date_gives_prefix (post : Post) (yaml : bool) (y mo d h mi s : N) :
  (1000 <= y <= 9999)%N -> (1 <= mo <= 12)%N -> (1 <= d <= days_in_month y mo)%N ->
  (h < 24)%N -> (mi < 60)%N -> (s < 60)%N ->
  date post = Some (datetime_text y mo d h mi s) \/ date post = Some (date_text y mo d) ->
  fst (markdown_file true yaml post)
  = str_of_N y ++ pad2 mo ++ pad2 d ++ u "-" ++ stem_of post ++ u ".md".
Proof.
  intros Hy Hmo Hd Hh Hmi Hs Hdate.
  pose proof (days_in_month_le y mo) as Hd31.
  assert (Ed : (d <=? days_in_month y mo)%N = true) by (apply N.leb_le; lia).
  rewrite markdown_file_name. cbn [andb].
  destruct Hdate as [-> | ->]; change (text_of (Some ?x)) with x.
  - unfold datetime_text at 1. rewrite date_text_truthy by assumption.
    rewrite date_prefix_of_datetime, Ed by lia. now rewrite <- !app_assoc.
  - rewrite <- (app_nil_r (date_text y mo d)) at 1.
    rewrite date_text_truthy by assumption.
    rewrite date_prefix_of_date, Ed by lia. now rewrite <- !app_assoc.
Qed.

(** X11. A date whose day is not a day of its month, the thirtieth of
    February say, is no date for either format: the post is written without
    prefix, and nothing is raised. *)
Theorem impossible_day_gives_no_prefix (post : Post) (yaml : bool) (y mo d h mi s : N) :
  (1000 <= y <= 9999)%N -> (1 <= mo <= 12)%N ->
  (days_in_month y mo < d <= 31)%N ->
  (h < 24)%N -> (mi < 60)%N -> (s < 60)%N ->
  date post = Some (datetime_text y mo d h mi s) \/ date post = Some (date_text y mo d) ->
  fst (markdown_file true yaml post) = stem_of post ++ u ".md".
Proof.
  intros Hy Hmo Hd Hh Hmi Hs Hdate.
  assert (Ed : (d <=? days_in_month y mo)%N = false) by (apply N.leb_gt; lia).
  rewrite markdown_file_name. cbn [andb].
  destruct Hdate as [-> | ->]; change (text_of (Some ?x)) with x.
  - unfold datetime_text at 1. rewrite date_text_truthy by assumption.
    now rewrite date_prefix_of_datetime, Ed by lia.
  - rewrite <- (app_nil_r (date_text y mo d)) at 1.
    rewrite date_text_truthy by assumption.
    now rewrite date_prefix_of_date, Ed by lia.
Qed.

Lemma strptime_needs_digit format_tail s :
  match s with [] => True | c :: _ => is_decimal c = false end ->
  strptime (Cat re_Y format_tail) s = None.
Proof.
  intros Hs. unfold strptime, match_at, re_Y, seq_re, digit_re. cbn [fold_right exec].
  destruct s as [|c s]; [reflexivity|]. now rewrite Hs.
Qed.

Lemma takewhile_head p c s t : takewhile p (c :: s) = t -> match t with [] => True | x :: _ => x = c end.
Proof. cbn [takewhile]. destruct (p c); intros <-; reflexivity. Qed.

(** X12. A date without any decimal digit is read by neither format: the post
    is written without prefix, whatever the switches. *)
Theorem date_without_digit_gives_no_prefix (post : Post) (dp yaml : bool) :
  Forall (fun c => is_decimal c = false) (text_of (date post)) ->
  fst (markdown_file dp yaml post) = stem_of post ++ u ".md".
Proof.
  intros Hf. rewrite markdown_file_name.
  destruct (dp && truthy (date post)); [|reflexivity].
  replace (date_prefix_of (text_of (date post))) with (@nil N); [reflexivity|].
  symmetry. unfold date_prefix_of.
  change datetime_re with (Cat re_Y (seq_re [lit (u "-"); re_m; lit (u "-"); re_d;
                                            plus is_space; re_H; lit (u ":"); re_M;
                                            lit (u ":"); re_S])).
  rewrite strptime_needs_digit
    by (destruct (text_of (date post)); [exact I|now apply Forall_cons_iff in Hf]).
  unfold first_token.
  destruct (dropwhile_suffix is_space (text_of (date post))) as [w Hw].
  destruct (dropwhile is_space (text_of (date post))) as [|c t] eqn:Ed; [reflexivity|].
  change date_re with (Cat re_Y (seq_re [lit (u "-"); re_m; lit (u "-"); re_d])).
  rewrite strptime_needs_digit; [reflexivity|].
  cbn [takewhile]. destruct (negb (is_space c)); [|exact I].
  rewrite Hw in Hf. apply Forall_app in Hf as [_ Hf].
  now apply Forall_cons_iff in Hf.
Qed.

Lemma generate_as_map posts dp yaml :
  generate_markdown_files posts dp yaml = map (markdown_file dp yaml) posts.
Proof.
  unfold generate_markdown_files.
  enough (forall acc, fold_left (fun results post => results ++ [markdown_file dp yaml post])
                                posts acc = acc ++ map (markdown_file dp yaml) posts)
    as E by apply (E []).
  induction posts as [|post posts IH]; intros acc; cbn [fold_left map].
  - now rewrite app_nil_r.
  - rewrite IH. now rewrite <- app_assoc.
Qed.

Lemma markdown_file_content yaml dp post :
  snd (markdown_file dp yaml post)
  = (if yaml
     then u "---" ++ [c_nl] ++ u "title: " ++ [c_quot] ++ title post ++ [c_quot] ++ [c_nl]
     else u "# " ++ title post ++ [c_nl; c_nl])
    ++ (if yaml
        then (if truthy (date post) then u "date: " ++ text_of (date post) ++ [c_nl] else [])
             ++ match categories post with
                | [] => []
                | _ => u "categories: " ++ repr_list (categories post) ++ [c_nl]
                end
             ++ match tags post with
                | [] => []
                | _ => u "tags: " ++ repr_list (tags post) ++ [c_nl]
                end
             ++ u "---" ++ [c_nl; c_nl]
        else if truthy (date post)
             then u "*Published: " ++ text_of (date post) ++ u "*" ++ [c_nl; c_nl]
             else [])
    ++ body_of post.
Proof.
  unfold markdown_file, body_of. cbn [snd].
  destruct yaml, (truthy (date post)), (categories post), (tags post);
    cbn [List.app join];
    repeat first [rewrite <- !app_assoc | progress cbn [List.app]]; reflexivity.
Qed.

(** X13. One file is made for every post, in the order of the posts. The
    name of a file is the stem of its post, behind a prefix and before
    [.md]; its content opens with the title, as [# title] and a blank line
    or as the first two lines of the front matter, and ends with the
    Markdown body of the post. *)
Theorem one_file_per_post (posts : list Post) (dp yaml : bool) :
  Forall2 (fun post file =>
             (exists prefix, fst file = prefix ++ stem_of post ++ u ".md")
             /\ (exists middle,
                   snd file
                   = (if yaml
                      then u "---" ++ [c_nl] ++ u "title: " ++ [c_quot] ++ title post
                           ++ [c_quot] ++ [c_nl]
                      else u "# " ++ title post ++ [c_nl; c_nl])
                     ++ middle ++ body_of post))
          posts (generate_markdown_files posts dp yaml).
Proof.
  rewrite generate_as_map. induction posts as [|post posts IH]; cbn [map]; constructor.
  - split.
    + eexists. apply markdown_file_name.
    + eexists. apply markdown_file_content.
  - exact IH.
Qed.

(** X14. A post without slug whose title has no letter, no digit and no
    underscore has the empty stem: without a date prefix its file is named
    [.md], like that of every other such post. *)
Theorem wordless_title_gives_bare_extension (post : Post) (yaml : bool) :
  truthy (slug post) = false ->
  Forall (fun c => is_word c = false) (lower (title post)) ->
  sanitize_filename (title post) = []
  /\ fst (markdown_file false yaml post) = u ".md".
Proof.
  intros Hslug Hw. pose proof (slug_without_word _ Hw) as E. split; [exact E|].
  rewrite markdown_file_name. unfold stem_of. now rewrite Hslug, E.
Qed.

End DateProofs.

(** * Properties of the script of app.py *)

Section AppProofs.
Context `{Runtime} `{Platform}.

Lemma selected_types_elem sb t :
  t ∈ selected_types sb <->
  (t = u "post" /\ inc_posts sb = true) \/ (t = u "page" /\ inc_pages sb = true).
Proof.
  unfold selected_types. destruct (inc_posts sb), (inc_pages sb);
    rewrite ?elem_of_union, ?elem_of_singleton, ?elem_of_empty; intuition congruence.
Qed.

Lemma selected_statuses_elem sb t :
  t ∈ selected_statuses sb <->
  (t = u "publish" /\ inc_publish sb = true) \/ (t = u "draft" /\ inc_draft sb = true)
  \/ (t = u "private" /\ inc_private sb = true)
  \/ (t = u "pending" /\ inc_pending sb = true).
Proof.
  unfold selected_statuses.
  destruct (inc_publish sb), (inc_draft sb), (inc_private sb), (inc_pending sb);
    rewrite ?elem_of_union, ?elem_of_singleton, ?elem_of_empty; intuition congruence.
Qed.

(** X15. When the script shows results, at least one type box and one status
    box are ticked, at least one post is shown, every post shown has a type
    and a status whose box is ticked, and there is one file for each post. *)
Theorem app_results_obey_sidebar (sb : Sidebar) (uploaded : option Element)
    posts files type_counts status_counts previews :
  run_app sb uploaded = Results posts files type_counts status_counts previews ->
  posts <> []
  /\ length files = length posts
  /\ (inc_posts sb = true \/ inc_pages sb = true)
  /\ (inc_publish sb = true \/ inc_draft sb = true \/ inc_private sb = true
      \/ inc_pending sb = true)
  /\ forall p, In p posts ->
       ((type p = u "post" /\ inc_posts sb = true)
        \/ (type p = u "page" /\ inc_pages sb = true))
       /\ ((status p = u "publish" /\ inc_publish sb = true)
           \/ (status p = u "draft" /\ inc_draft sb = true)
           \/ (status p = u "private" /\ inc_private sb = true)
           \/ (status p = u "pending" /\ inc_pending sb = true)).
Proof.
  unfold run_app. destruct uploaded as [root|]; [|discriminate].
  destruct (bool_decide _) eqn:ET; [discriminate|].
  destruct (bool_decide (selected_statuses sb = ∅)) eqn:ES; [discriminate|].
  apply bool_decide_eq_false in ET, ES.
  destruct (parse_wordpress_xml root _ _) as [|p0 ps] eqn:EP; [discriminate|].
  intros [= <- <- _ _ _]. split; [discriminate|].
  split; [rewrite generate_as_map; apply length_map|].
  split.
  { destruct (inc_posts sb) eqn:E1; [now left|]. destruct (inc_pages sb) eqn:E2; [now right|].
    exfalso. apply ET. unfold selected_types. now rewrite E1, E2. }
  split.
  { destruct (inc_publish sb) eqn:E1; [now left|].
    destruct (inc_draft sb) eqn:E2; [right; now left|].
    destruct (inc_private sb) eqn:E3; [right; right; now left|].
    destruct (inc_pending sb) eqn:E4; [now repeat right|].
    exfalso. apply ES. unfold selected_statuses. now rewrite E1, E2, E3, E4. }
  intros p Hp. rewrite <- EP in Hp. rewrite parse_as_selected in Hp.
  apply in_map_iff in Hp as (item & <- & Hitem).
  apply selected_iff in Hitem as (_ & HT & HS). cbn [member_or_unrestricted] in HT, HS.
  rewrite post_of_type, post_of_status.
  split; [now apply selected_types_elem|now apply selected_statuses_elem].
Qed.

Lemma count_by_fold (key : Post -> str) (posts : list Post) (acc : gmap str nat) k :
  fold_left (fun counts p => <[key p := default 0 (counts !! key p) + 1]> counts)
            posts acc !! k
  = match length (List.filter (fun p => bool_decide (key p = k)) posts) with
    | 0 => acc !! k
    | S n => Some (default 0 (acc !! k) + S n)
    end.
Proof.
  revert acc. induction posts as [|p ps IH]; intros acc; [reflexivity|].
  cbn [fold_left List.filter]. rewrite IH.
  destruct (bool_decide (key p = k)) eqn:E.
  - apply bool_decide_eq_true in E. subst k. rewrite lookup_insert_eq.
    cbn [length default from_option id].
    destruct (length _); [f_equal; lia|]. cbn [default from_option id]. f_equal. lia.
  - apply bool_decide_eq_false in E. rewrite lookup_insert_ne by exact E. reflexivity.
Qed.

(** X16. The counts shown in the summary: a key is in the table exactly when
    some post has it, and its number is the number of posts that have it. *)
Theorem count_by_counts (key : Post -> str) (posts : list Post) (k : str) :
  count_by key posts !! k
  = match length (List.filter (fun p => bool_decide (key p = k)) posts) with
    | 0 => None
    | S n => Some (S n)
    end.
Proof.
  unfold count_by. rewrite count_by_fold. rewrite lookup_empty. reflexivity.
Qed.

Lemma snippet_length (file_content : str) :
  length (snippet file_content) <= 501.
Proof.
  unfold snippet. rewrite length_app, length_firstn.
  destruct (500 <? length file_content); cbn [length]; lia.
Qed.

(** X17. The previews on the results page are those of the first files, at
    most five of them, each under its file's name, and no snippet is longer
    than 501 characters; a text of at most 500 characters is shown whole. *)
Theorem app_previews_bounded (sb : Sidebar) (uploaded : option Element)
    posts files type_counts status_counts previews :
  run_app sb uploaded = Results posts files type_counts status_counts previews ->
  length previews = Nat.min 5 (length posts)
  /\ map fst previews = firstn 5 (map fst files)
  /\ (forall n s, In (n, s) previews -> length s <= 501)
  /\ (forall i n s, nth_error files i = Some (n, s) -> i < 5 -> length s <= 500 ->
        nth_error previews i = Some (n, s)).
Proof.
  unfold run_app. destruct uploaded as [root|]; [|discriminate].
  destruct (bool_decide _); [discriminate|].
  destruct (bool_decide _); [discriminate|].
  destruct (parse_wordpress_xml root _ _) as [|p0 ps] eqn:EP; [discriminate|].
  intros [= <- <- _ _ <-].
  set (fs := generate_markdown_files _ _ _).
  assert (L : length fs = length (p0 :: ps))
    by (unfold fs; rewrite generate_as_map; apply length_map).
  assert (F : firstn (Nat.min 5 (length fs)) fs = firstn 5 fs).
  { destruct (Nat.le_ge_cases 5 (length fs)) as [G|G].
    - now rewrite Nat.min_l by exact G.
    - rewrite Nat.min_r by exact G. rewrite !firstn_all2; [reflexivity|exact G|lia]. }
  change (firstn _ fs) with (firstn (Nat.min 5 (length fs)) fs).
  rewrite F. split; [rewrite length_map, length_firstn; lia|].
  split.
  { rewrite map_map, firstn_map. apply map_ext. now intros [n s]. }
  split.
  { intros n s Hin. apply in_map_iff in Hin as ([n' s'] & [= <- <-] & _).
    apply snippet_length. }
  intros i n s Hi Lt Ls. rewrite nth_error_map, nth_error_firstn.
  destruct (Nat.ltb_spec i 5) as [_|]; [|lia]. rewrite Hi. cbn [option_map].
  unfold snippet. rewrite firstn_all2 by lia.
  destruct (Nat.ltb_spec 500 (length s)); [lia|]. now rewrite app_nil_r.
Qed.

End AppProofs.

(** ** The further properties at sample inputs *)

Lemma returned_posts_obey_filters_witness :
  In post_a (parse_wordpress_xml doc_empty_content
               (Some {[ u "post" ]}) (Some {[ u "publish" ]}))
  /\ (member_or_unrestricted (type post_a) (Some {[ u "post" ]})
      /\ member_or_unrestricted (status post_a) (Some {[ u "publish" ]})).
Proof.
  split.
  - vm_compute. left. reflexivity.
  - apply (returned_posts_obey_filters doc_empty_content
             (Some {[ u "post" ]}) (Some {[ u "publish" ]}) post_a).
    vm_compute. left. reflexivity.
Defined.

Lemma plain_text_is_only_stripped_witness :
  (contains [c_lt] (u " Hello world ") = false
   /\ contains [c_amp] (u " Hello world ") = false
   /\ contains (u "]]>") (u " Hello world ") = false
   /\ contains [c_nl; c_nl; c_nl] (u " Hello world ") = false)
  /\ @html_to_markdown latin1_runtime (u " Hello world ")
     = strip is_space (u " Hello world ").
Proof.
  split.
  - vm_compute. repeat split.
  - apply (@plain_text_is_only_stripped latin1_runtime (u " Hello world "));
      vm_compute; reflexivity.
Defined.

Lemma sanitize_filename_idempotent_witness :
  forallb is_ascii (u "Hello, World!") = true
  /\ @sanitize_filename latin1_runtime (@sanitize_filename latin1_runtime (u "Hello, World!"))
     = @sanitize_filename latin1_runtime (u "Hello, World!").
Proof.
  split.
  - vm_compute. reflexivity.
  - apply (@sanitize_filename_idempotent latin1_runtime (u "Hello, World!")).
    vm_compute. reflexivity.
Defined.

Lemma wordpress_date_gives_prefix_witness :
  ((1000 <= 2024 <= 9999)%N /\ (1 <= 2 <= 12)%N /\ (1 <= 29 <= days_in_month 2024 2)%N
   /\ (10 < 24)%N /\ (30 < 60)%N /\ (0 < 60)%N
   /\ (date post_dated = Some (datetime_text 2024 2 29 10 30 0)
       \/ date post_dated = Some (date_text 2024 2 29)))
  /\ fst (@markdown_file latin1_runtime sample_platform true false post_dated)
     = str_of_N 2024 ++ pad2 2 ++ pad2 29 ++ u "-"
       ++ @stem_of latin1_runtime post_dated ++ u ".md".
Proof.
  assert (D : (1 <= 29 <= days_in_month 2024 2)%N) by (vm_compute; split; discriminate).
  assert (T : date post_dated = Some (datetime_text 2024 2 29 10 30 0)
              \/ date post_dated = Some (date_text 2024 2 29))
    by (left; vm_compute; reflexivity).
  split.
  - repeat split; try lia; try exact T; apply D.
  - apply (@wordpress_date_gives_prefix latin1_runtime sample_platform
             post_dated false 2024 2 29 10 30 0); try lia; assumption.
Defined.

Lemma impossible_day_gives_no_prefix_witness :
  ((1000 <= 2024 <= 9999)%N /\ (1 <= 2 <= 12)%N /\ (days_in_month 2024 2 < 30 <= 31)%N
   /\ (10 < 24)%N /\ (30 < 60)%N /\ (0 < 60)%N
   /\ (date post_misdated = Some (datetime_text 2024 2 30 10 30 0)
       \/ date post_misdated = Some (date_text 2024 2 30)))
  /\ fst (@markdown_file latin1_runtime sample_platform true false post_misdated)
     = @stem_of latin1_runtime post_misdated ++ u ".md".
Proof.
  assert (D : (days_in_month 2024 2 < 30 <= 31)%N)
    by (vm_compute; split; [reflexivity | discriminate]).
  assert (T : date post_misdated = Some (datetime_text 2024 2 30 10 30 0)
              \/ date post_misdated = Some (date_text 2024 2 30))
    by (left; vm_compute; reflexivity).
  split.
  - repeat split; try lia; try exact T; apply D.
  - apply (@impossible_day_gives_no_prefix latin1_runtime sample_platform
             post_misdated false 2024 2 30 10 30 0); try lia; assumption.
Defined.

Lemma date_without_digit_gives_no_prefix_witness :
  Forall (fun c => @is_decimal sample_platform c = false) (text_of (date post_undated))
  /\ fst (@markdown_file latin1_runtime sample_platform true false post_undated)
     = @stem_of latin1_runtime post_undated ++ u ".md".
Proof.
  assert (F : Forall (fun c => @is_decimal sample_platform c = false)
                     (text_of (date post_undated)))
    by (vm_compute; repeat constructor).
  split.
  - exact F.
  - apply (@date_without_digit_gives_no_prefix latin1_runtime sample_platform
             post_undated true false). exact F.
Defined.

Lemma wordless_title_gives_bare_extension_witness :
  (truthy (slug post_wordless) = false
   /\ Forall (fun c => @is_word latin1_runtime c = false)
             (@lower latin1_runtime (title post_wordless)))
  /\ (@sanitize_filename latin1_runtime (title post_wordless) = []
      /\ fst (@markdown_file latin1_runtime sample_platform false false post_wordless)
         = u ".md").
Proof.
  assert (F : Forall (fun c => @is_word latin1_runtime c = false)
                     (@lower latin1_runtime (title post_wordless)))
    by (vm_compute; repeat constructor).
  split.
  - split; [reflexivity | exact F].
  - apply (@wordless_title_gives_bare_extension latin1_runtime sample_platform
             post_wordless false); [reflexivity | exact F].
Defined.

Lemma app_results_obey_sidebar_witness :
  @run_app latin1_runtime sample_platform sidebar_sample (Some doc_empty_content)
  = Results [post_a] [(u "a.md", u "# A" ++ [c_nl; c_nl])]
            {[ u "post" := 1 ]} {[ u "publish" := 1 ]}
            [(u "a.md", u "# A" ++ [c_nl; c_nl])]
  /\ ([post_a] <> []
      /\ length [(u "a.md", u "# A" ++ [c_nl; c_nl])] = length [post_a]
      /\ (inc_posts sidebar_sample = true \/ inc_pages sidebar_sample = true)
      /\ (inc_publish sidebar_sample = true \/ inc_draft sidebar_sample = true
          \/ inc_private sidebar_sample = true \/ inc_pending sidebar_sample = true)
      /\ forall p, In p [post_a] ->
           ((type p = u "post" /\ inc_posts sidebar_sample = true)
            \/ (type p = u "page" /\ inc_pages sidebar_sample = true))
           /\ ((status p = u "publish" /\ inc_publish sidebar_sample = true)
               \/ (status p = u "draft" /\ inc_draft sidebar_sample = true)
               \/ (status p = u "private" /\ inc_private sidebar_sample = true)
               \/ (status p = u "pending" /\ inc_pending sidebar_sample = true))).
Proof.
  assert (R : @run_app latin1_runtime sample_platform sidebar_sample (Some doc_empty_content)
              = Results [post_a] [(u "a.md", u "# A" ++ [c_nl; c_nl])]
                        {[ u "post" := 1 ]} {[ u "publish" := 1 ]}
                        [(u "a.md", u "# A" ++ [c_nl; c_nl])])
    by (vm_compute; reflexivity).
  split.
  - exact R.
  - apply (@app_results_obey_sidebar latin1_runtime sample_platform sidebar_sample
             (Some doc_empty_content) _ _ _ _ _ R).
Defined.

Lemma app_previews_bounded_witness :
  @run_app latin1_runtime sample_platform sidebar_sample (Some doc_empty_content)
  = Results [post_a] [(u "a.md", u "# A" ++ [c_nl; c_nl])]
            {[ u "post" := 1 ]} {[ u "publish" := 1 ]}
            [(u "a.md", u "# A" ++ [c_nl; c_nl])]
  /\ (length [(u "a.md", u "# A" ++ [c_nl; c_nl])] = Nat.min 5 (length [post_a])
      /\ map fst [(u "a.md", u "# A" ++ [c_nl; c_nl])]
         = firstn 5 (map fst [(u "a.md", u "# A" ++ [c_nl; c_nl])])
      /\ (forall n s, In (n, s) [(u "a.md", u "# A" ++ [c_nl; c_nl])] -> length s <= 501)
      /\ (forall i n s,
            nth_error [(u "a.md", u "# A" ++ [c_nl; c_nl])] i = Some (n, s) ->
            i < 5 -> length s <= 500 ->
            nth_error [(u "a.md", u "# A" ++ [c_nl; c_nl])] i = Some (n, s))).
Proof.
  assert (R : @run_app latin1_runtime sample_platform sidebar_sample (Some doc_empty_content)
              = Results [post_a] [(u "a.md", u "# A" ++ [c_nl; c_nl])]
                        {[ u "post" := 1 ]} {[ u "publish" := 1 ]}
                        [(u "a.md", u "# A" ++ [c_nl; c_nl])])
    by (vm_compute; reflexivity).
  split.
  - exact R.
  - apply (@app_previews_bounded latin1_runtime sample_platform sidebar_sample
             (Some doc_empty_content) _ _ _ _ _ R).
Defined.

Lemma emphasis_of_plain_text_witness :
  (In (u "em", u "*") emphasis_rules /\ attributes (u " class='x'") = true
   /\ plain (u "a b") = true)
  /\ @html_to_markdown latin1_runtime (element_text (u "em") (u " class='x'") (u "a b"))
     = u "*" ++ u "a b" ++ u "*".
Proof.
  assert (I : In (u "em", u "*") emphasis_rules) by (right; right; left; reflexivity).
  split.
  - split; [exact I | split; reflexivity].
  - apply (@emphasis_of_plain_text latin1_runtime (u "em") (u "*") (u " class='x'") (u "a b") I);
      reflexivity.
Defined.

Lemma heading_of_plain_text_witness :
  (1 <= 2 <= 6 /\ attributes [] = true /\ plain (u "Title") = true)
  /\ @html_to_markdown latin1_runtime (element_text (u "h" ++ str_of_nat 2) [] (u "Title"))
     = strip is_space (repeat c_hash 2 ++ [c_space] ++ u "Title").
Proof.
  split.
  - split; [lia | split; reflexivity].
  - apply (@heading_of_plain_text latin1_runtime 2 [] (u "Title")); [lia | reflexivity ..].
Defined.

Lemma paragraph_of_plain_text_witness :
  (attributes [] = true /\ plain (u "Hello" ++ [c_nl]) = true)
  /\ @html_to_markdown latin1_runtime (element_text (u "p") [] (u "Hello" ++ [c_nl]))
     = strip is_space (u "Hello" ++ [c_nl]).
Proof.
  split.
  - split; reflexivity.
  - apply (@paragraph_of_plain_text latin1_runtime [] (u "Hello" ++ [c_nl])); reflexivity.
Defined.
